(** * Weatherly: the caching layer and the error utilities

    A shallow embedding of the cache service ([services/cache.js]), the
    per-service request caches ([services/weather-service.js],
    [services/openMeteo.js], [services/geocoding.js]) and the retry helper
    ([utils/error.js]), followed by the properties of the specification
    that were checked against them.

    Conventions of the embedding.
    - [Date.now()] is an argument: every operation is given the clock
      reading(s) it takes.
    - Numbers are integers (milliseconds, counters); [Infinity] is a
      constructor of its own where the code uses it.
    - Promises are run to completion in program order: an [await]ed call is
      a function call, and a call that is started without [await] is run
      where it is started.
    - [console.log] and the loggers of the services are not part of the
      state; [errorLogger], whose errors reach its callers, is. *)

From Stdlib Require Import ZArith String List Bool Lia.
From stdpp Require Import gmap strings list fin_maps pretty.

Local Open Scope Z_scope.

(** ** JavaScript values that cross the cache *)

(** Payloads are JSON values: what [JSON.stringify]/[JSON.parse] and the
    structured clone of IndexedDB both give back unchanged. *)
#[local] Unset Elimination Schemes.
Inductive json : Type :=
| JNull
| JBool (b : bool)
| JNum (n : Z)
| JStr (s : string)
| JArr (items : list json)
| JObj (fields : list (string * json)).
#[local] Set Elimination Schemes.

(** A number that is either finite or [Infinity]. *)
Inductive num : Type :=
| Fin (n : Z)
| Infinity.

(** JavaScript truthiness of a number: [0] is the falsy one. *)
Definition truthy (n : num) : bool :=
  match n with
  | Fin 0 => false
  | _ => true
  end.

(** [a || b] where [a] is a number, [null] or [undefined]. *)
Definition or_else (a : option num) (b : option num) : option num :=
  match a with
  | Some n => if truthy n then Some n else b
  | None => b
  end.

(** [key.startsWith(p)] and [key.includes(s)]. *)
Definition startsWith (p key : string) : bool := String.prefix p key.

Fixpoint includes (s key : string) : bool :=
  String.prefix s key ||
  match key with
  | EmptyString => false
  | String _ rest => includes s rest
  end.

(** The names that every object inherits from [Object.prototype]:
    [object[name]] finds a value under them on any object literal. A name
    that is none of them is looked up among the object's own
    properties. *)
Definition inherited : list string :=
  ["constructor"; "__proto__"; "hasOwnProperty"; "isPrototypeOf";
   "propertyIsEnumerable"; "toLocaleString"; "toString"; "valueOf";
   "__defineGetter__"; "__defineSetter__"; "__lookupGetter__";
   "__lookupSetter__"]%string.

Definition ownName (name : string) : bool :=
  negb (existsb (String.eqb name) inherited).

(** How an asynchronous call settles. *)
Inductive Outcome (A E : Type) : Type :=
| Fulfilled (a : A)
| RejectedWith (e : E).
Arguments Fulfilled {A E} a.
Arguments RejectedWith {A E} e.

(** ** utils/error.js *)

Module ErrorUtils.

(** [WeatherAppError] and its subclasses, reduced to the fields that are
    read: the class name, the code, the message and, for [APIError], the
    HTTP status. *)
Record JsError : Type := {
  name : string;
  code : string;
  message : string;
  status : option Z
}.

Definition APIError (message : string) (status : option Z) : JsError :=
  {| name := "APIError"; code := "API_ERROR";
     message := message; status := status |}.

(** [new Error(message)]. *)
Definition Error (message : string) : JsError :=
  {| name := "Error"; code := ""; message := message; status := None |}.

(** A [TypeError] thrown by the engine. *)
Definition TypeError (message : string) : JsError :=
  {| name := "TypeError"; code := ""; message := message; status := None |}.

Definition NetworkError (message : string) (offline : bool) : JsError :=
  {| name := "NetworkError";
     code := if offline then "NETWORK_OFFLINE" else "NETWORK_ERROR";
     message := message; status := None |}.

Section Retry.
Context {V E : Type}.

(** How one invocation of the operation settles. *)
Inductive Settled : Type :=
| Resolved (v : V)
| Rejected (e : E).

(** The [options] argument; an absent property is [None]. *)
Record Options : Type := {
  retries : option Z;
  delay : option Z;
  backoff : option Z;
  condition : option (E -> bool)
}.

Definition noOptions : Options :=
  {| retries := None; delay := None; backoff := None; condition := None |}.

End Retry.

Arguments Settled : clear implicits.
Arguments Options : clear implicits.

End ErrorUtils.

(** ** services/cache.js *)

Module CacheService.

(** [cacheEntry.expires] as it is read back from a store: a time,
    [Infinity], or [null] (what [JSON.stringify] writes for
    [Infinity]). *)
Inductive expiry : Type :=
| At (t : Z)
| Never
| Null.

(** The [cacheEntry] object built by [set]. *)
Module Entry.
Record t : Type := {
  id : string;
  data : json;
  type : string;
  timestamp : Z;
  expires : expiry;
  size : Z
}.
End Entry.

(** The counters of [getStoreStats] and the object of [getStats]. *)
Module StoreStats.
Record t : Type := { entries : Z; size : Z; expired : Z }.
End StoreStats.

Module Stats.
Record t : Type := {
  stores : list (string * StoreStats.t);
  totalEntries : Z;
  totalSize : Z;
  expiredEntries : Z
}.
End Stats.

(** [entry.expires !== Infinity && now > entry.expires]; in the
    comparison [null] is converted to [0]. *)
Definition isExpired (now : Z) (e : Entry.t) : bool :=
  match Entry.expires e with
  | At t => t <? now
  | Never => false
  | Null => 0 <? now
  end.

(** A string held by [localStorage]: the text [JSON.stringify(entry)] of
    an entry, or a text that [JSON.parse] rejects. *)
Inductive item : Type :=
| Stringified (e : Entry.t)
| Corrupt (raw : string).

(** [JSON.parse(JSON.stringify(entry))]: every field comes back as it
    was, except that [Infinity] has become [null]. *)
Definition reparse (e : Entry.t) : Entry.t :=
  {| Entry.id := Entry.id e; Entry.data := Entry.data e;
     Entry.type := Entry.type e; Entry.timestamp := Entry.timestamp e;
     Entry.expires := match Entry.expires e with
                      | Never => Null
                      | x => x
                      end;
     Entry.size := Entry.size e |}.

(** [JSON.parse(item)]; [None] is the [SyntaxError]. *)
Definition JSON_parse (i : item) : option Entry.t :=
  match i with
  | Stringified e => Some (reparse e)
  | Corrupt _ => None
  end.

(** The object [entry] as a JSON value, the argument of
    [JSON.stringify] in [setLocalStorage]. *)
Definition entryObject (e : Entry.t) : json :=
  JObj [("id", JStr (Entry.id e)); ("data", Entry.data e);
        ("type", JStr (Entry.type e)); ("timestamp", JNum (Entry.timestamp e));
        ("expires", match Entry.expires e with At t => JNum t | _ => JNull end);
        ("size", JNum (Entry.size e))]%string.

(** [this.stores] and [this.expirationTimes], in declaration order. *)
Definition stores : list (string * string) :=
  [("weather", "weather-data"); ("locations", "location-data");
   ("images", "image-cache"); ("settings", "app-settings")]%string.

Definition expirationTimes_weather : num := Fin (10 * 60 * 1000).

Definition expirationTimes : list (string * num) :=
  [("weather", expirationTimes_weather); ("forecast", Fin (30 * 60 * 1000));
   ("location", Fin (60 * 60 * 1000)); ("search", Fin (60 * 60 * 1000));
   ("image", Fin (24 * 60 * 60 * 1000)); ("setting", Infinity)]%string.

(** [object[name]] on one of the two tables above, for a name that is
    not inherited from [Object.prototype] ([ownName]); [None] is
    [undefined]. Under an inherited name such as ["constructor"] the code
    finds the inherited value, which this lookup does not give: what
    is stated below of a type is stated of one with [ownName type]. *)
Fixpoint prop {A : Type} (object : list (string * A)) (name : string)
    : option A :=
  match object with
  | [] => None
  | (k, v) :: rest => if String.eqb k name then Some v else prop rest name
  end.

(** [Object.values(this.stores)]. *)
Definition storeNames : list string := map snd stores.

(** An object store is keyed by [id] (its [keyPath]); a database is a
    set of named object stores. *)
Record State : Type := {
  db : option (gmap string (gmap string Entry.t));
  useLocalStorage : bool;
  isReady : bool;
  localStorage : gmap string item;
  (** what IndexedDB will do: one flag per transaction still to come,
      [true] when that transaction or its request fails; no flag left
      means no failure *)
  faults : list bool
}.

Definition with_db (d : option (gmap string (gmap string Entry.t)))
    (st : State) : State :=
  {| db := d; useLocalStorage := useLocalStorage st; isReady := isReady st;
     localStorage := localStorage st; faults := faults st |}.

Definition with_localStorage (ls : gmap string item) (st : State) : State :=
  {| db := db st; useLocalStorage := useLocalStorage st;
     isReady := isReady st; localStorage := ls; faults := faults st |}.

Definition with_useLocalStorage (b : bool) (st : State) : State :=
  {| db := db st; useLocalStorage := b; isReady := isReady st;
     localStorage := localStorage st; faults := faults st |}.

Definition with_isReady (b : bool) (st : State) : State :=
  {| db := db st; useLocalStorage := useLocalStorage st; isReady := b;
     localStorage := localStorage st; faults := faults st |}.

Definition with_faults (fs : list bool) (st : State) : State :=
  {| db := db st; useLocalStorage := useLocalStorage st;
     isReady := isReady st; localStorage := localStorage st; faults := fs |}.

(** An asynchronous method: it runs on a state and, when it completes,
    gives its value and the state it leaves. [None]: it never
    completes. *)
Definition M (A : Type) : Type := State -> option (A * State).

Definition ret {A : Type} (a : A) : M A := fun st => Some (a, st).

Definition bind {A B : Type} (c : M A) (k : A -> M B) : M B :=
  fun st =>
    match c st with
    | Some (a, st') => k a st'
    | None => None
    end.

Definition reads {A : Type} (f : State -> A) : M A :=
  fun st => Some (f st, st).

Definition modify (f : State -> State) : M unit :=
  fun st => Some (tt, f st).

Notation "'do' x <- c ; k" := (bind c (fun x => k))
  (at level 10, x name, c at level 100, k at level 200,
   format "'[v' 'do'  x  <-  c ; '/' k ']'").

(** [waitForReady]: polls [isReady] every 10 ms; nothing it does
    changes the flag, so on a state that is not ready it never
    completes. *)
Definition waitForReady : M unit :=
  fun st => if isReady st then Some (tt, st) else None.

(** One transaction on the object store [storeName] with one request
    [op] in it. The value [None] is the failure of the enclosing [try]
    block: the transaction could not be made ([this.db] is [null], no
    such store, or the fault that was due) or the request failed. *)
Definition transaction {A : Type} (storeName : string)
    (op : gmap string Entry.t -> A * gmap string Entry.t) : M (option A) :=
  fun st =>
    let failed := match faults st with b :: _ => b | [] => false end in
    let st1 := with_faults (tail (faults st)) st in
    if failed then Some (None, st1)
    else
      match db st1 with
      | None => Some (None, st1)
      | Some d =>
          match d !! storeName with
          | None => Some (None, st1)
          | Some objectStore =>
              let '(a, objectStore') := op objectStore in
              Some (Some a, with_db (Some (<[storeName := objectStore']> d)) st1)
          end
      end.

(** The requests. *)
Definition put (e : Entry.t) (os : gmap string Entry.t)
    : unit * gmap string Entry.t :=
  (tt, <[Entry.id e := e]> os).

Definition getRequest (key : string) (os : gmap string Entry.t)
    : option Entry.t * gmap string Entry.t :=
  (os !! key, os).

Definition deleteRequest (key : string) (os : gmap string Entry.t)
    : unit * gmap string Entry.t :=
  (tt, base.delete key os).

Definition clear (os : gmap string Entry.t) : unit * gmap string Entry.t :=
  (tt, ∅).

(** A sweep that visits every record once, deletes the ones [doomed]
    holds of and counts them: the cursor loop of [cleanupStore] and the
    [forEach] of [cleanupLocalStorage]. *)
Definition sweep {A : Type} (doomed : string -> A -> bool)
    (m : gmap string A) : Z * gmap string A :=
  map_fold (fun k x '(cleaned, m') =>
              if doomed k x then (cleaned + 1, base.delete k m')
              else (cleaned, m'))
           (0, m) m.

(** [getStore(type)]: [this.stores[type] || this.stores.weather], for a
    [type] with [ownName] (see [prop]). *)
Definition getStore (type : string) : string :=
  default "weather-data"%string (prop stores type).

(** *** The [localStorage] fallback

    [localStorage] itself is taken to work: the [try]/[catch] blocks of
    these methods, which only log, are left with the text that does not
    parse as the one thing to catch. *)

Definition cacheKey (key : string) : string := ("cache_" +:+ key)%string.

Definition setLocalStorage (key : string) (cacheEntry : Entry.t) : M unit :=
  modify (fun st =>
    with_localStorage (<[cacheKey key := Stringified cacheEntry]> (localStorage st)) st).

Definition getLocalStorage (key : string) (now : Z) : M json :=
  do ls <- reads localStorage;
  match ls !! cacheKey key with
  | None => ret JNull
  | Some i =>
      match JSON_parse i with
      | None => ret JNull
      | Some cacheEntry =>
          if isExpired now cacheEntry then
            do _ <- modify (fun st =>
                      with_localStorage (base.delete (cacheKey key) (localStorage st)) st);
            ret JNull
          else ret (Entry.data cacheEntry)
      end
  end.

Definition deleteLocalStorage (key : string) : M unit :=
  modify (fun st =>
    with_localStorage (base.delete (cacheKey key) (localStorage st)) st).

Definition clearLocalStorageType (type : string) : M unit :=
  modify (fun st =>
    with_localStorage
      (filter (fun kv => startsWith "cache_" kv.1 && includes type kv.1 = false)
              (localStorage st)) st).

Definition clearAllLocalStorage : M unit :=
  modify (fun st =>
    with_localStorage
      (filter (fun kv => startsWith "cache_" kv.1 = false) (localStorage st)) st).

(** In [cleanupLocalStorage] an entry goes when it is expired, and so
    does a text that does not parse. *)
Definition doomedItem (now : Z) (key : string) (i : item) : bool :=
  startsWith "cache_" key &&
  match JSON_parse i with
  | Some cacheEntry => isExpired now cacheEntry
  | None => true
  end.

Definition cleanupLocalStorage (now : Z) : M Z :=
  do ls <- reads localStorage;
  let '(cleaned, ls') := sweep (doomedItem now) ls in
  do _ <- modify (with_localStorage ls');
  ret cleaned.

(** *** The public methods *)

Section Methods.

(** [JSON.stringify] on payloads, a built-in of the runtime. *)
Variable JSON_stringify : json -> string.

(** [calculateSize(data)]: [JSON.stringify(data).length * 2]. *)
Definition calculateSize (data : json) : Z :=
  Z.of_nat (String.length (JSON_stringify data)) * 2.

(** [customTTL || this.expirationTimes[type] || this.expirationTimes.weather],
    for a [type] with [ownName] (see [prop]); the last operand is the
    number [expirationTimes_weather]. *)
Definition chooseTTL (type : string) (customTTL : option num) : num :=
  match or_else customTTL (prop expirationTimes type) with
  | Some n => if truthy n then n else expirationTimes_weather
  | None => expirationTimes_weather
  end.

(** [ttl === Infinity ? Infinity : now + ttl]. *)
Definition expiresAt (now : Z) (ttl : num) : expiry :=
  match ttl with
  | Infinity => Never
  | Fin n => At (now + n)
  end.

(** The object [cacheEntry] that [set] builds. *)
Definition cacheEntry (key : string) (data : json) (type : string)
    (customTTL : option num) (now : Z) : Entry.t :=
  let ttl := chooseTTL type customTTL in
  let expires := expiresAt now ttl in
  {| Entry.id := key; Entry.data := data; Entry.type := type;
     Entry.timestamp := now; Entry.expires := expires;
     Entry.size := calculateSize data |}.

Definition set (key : string) (data : json) (type : string)
    (customTTL : option num) (now : Z) : M unit :=
  do _ <- waitForReady;
  let cacheEntry := cacheEntry key data type customTTL now in
  do fallback <- reads useLocalStorage;
  if fallback then setLocalStorage key cacheEntry
  else
    do stored <- transaction (getStore type) (put cacheEntry);
    match stored with
    | Some _ => ret tt
    | None => setLocalStorage key cacheEntry
    end.

Definition delete (key : string) (type : string) : M unit :=
  do _ <- waitForReady;
  do fallback <- reads useLocalStorage;
  if fallback then deleteLocalStorage key
  else
    do _ <- transaction (getStore type) (deleteRequest key);
    ret tt.

(** [get] declares the two parameters [key] and [type]. The lazy
    [this.delete(key, type)] is started without [await]. *)
Definition get (key : string) (type : string) (now : Z) : M json :=
  do _ <- waitForReady;
  do fallback <- reads useLocalStorage;
  if fallback then getLocalStorage key now
  else
    do found <- transaction (getStore type) (getRequest key);
    match found with
    | None => getLocalStorage key now
    | Some None => ret JNull
    | Some (Some cacheEntry) =>
        if isExpired now cacheEntry then
          do _ <- delete key type;
          ret JNull
        else ret (Entry.data cacheEntry)
    end.


Definition clearType (type : string) : M unit :=
  do _ <- waitForReady;
  do fallback <- reads useLocalStorage;
  if fallback then clearLocalStorageType type
  else
    do _ <- transaction (getStore type) clear;
    ret tt.

(** One promise per store; [Promise.all] only joins them, so a store
    whose request fails does not stop the others. *)
Fixpoint clearStores (names : list string) : M unit :=
  match names with
  | [] => ret tt
  | store :: rest =>
      do _ <- transaction store clear;
      clearStores rest
  end.

Definition clearAll : M unit :=
  do _ <- waitForReady;
  do fallback <- reads useLocalStorage;
  if fallback then clearAllLocalStorage
  else clearStores storeNames.

(** *** Statistics *)

Definition noStoreStats : StoreStats.t :=
  {| StoreStats.entries := 0; StoreStats.size := 0; StoreStats.expired := 0 |}.

(** One step of the cursor in [getStoreStats]. *)
Definition countEntry (now : Z) (e : Entry.t) (s : StoreStats.t)
    : StoreStats.t :=
  {| StoreStats.entries := StoreStats.entries s + 1;
     StoreStats.size := StoreStats.size s + Entry.size e;
     StoreStats.expired :=
       StoreStats.expired s + (if isExpired now e then 1 else 0) |}.

(** [getStoreStats(storeName)]; failures as in [cleanupStore] below. *)
Definition getStoreStats (storeName : string) (now : Z)
    : M (option StoreStats.t) :=
  transaction storeName
    (fun os => (map_fold (fun _ e s => countEntry now e s) noStoreStats os, os)).

Definition addStoreStats (key : string) (s : StoreStats.t) (stats : Stats.t)
    : Stats.t :=
  {| Stats.stores := Stats.stores stats ++ [(key, s)];
     Stats.totalEntries := Stats.totalEntries stats + StoreStats.entries s;
     Stats.totalSize := Stats.totalSize stats + StoreStats.size s;
     Stats.expiredEntries := Stats.expiredEntries stats + StoreStats.expired s |}.

(** The [for (const [key, storeName] of Object.entries(this.stores))]
    loop; a failure ends it in the [catch], which returns what has been
    summed so far. *)
Fixpoint collectStats (tbl : list (string * string)) (now : Z)
    (stats : Stats.t) : M Stats.t :=
  match tbl with
  | [] => ret stats
  | (key, storeName) :: rest =>
      do counted <- getStoreStats storeName now;
      match counted with
      | Some storeStats => collectStats rest now (addStoreStats key storeStats stats)
      | None => ret stats
      end
  end.

(** One step of the [forEach] in [getLocalStorageStats]: a text that
    does not parse is counted as expired only. *)
Definition countItem (now : Z) (key : string) (i : item) (s : StoreStats.t)
    : StoreStats.t :=
  if startsWith "cache_" key then
    match i, JSON_parse i with
    | Stringified e, Some cacheEntry =>
        {| StoreStats.entries := StoreStats.entries s + 1;
           StoreStats.size :=
             StoreStats.size s
             + Z.of_nat (String.length (JSON_stringify (entryObject e))) * 2;
           StoreStats.expired :=
             StoreStats.expired s + (if isExpired now cacheEntry then 1 else 0) |}
    | _, _ =>
        {| StoreStats.entries := StoreStats.entries s;
           StoreStats.size := StoreStats.size s;
           StoreStats.expired := StoreStats.expired s + 1 |}
    end
  else s.

Definition getLocalStorageStats (now : Z) : M Stats.t :=
  do ls <- reads localStorage;
  let s := map_fold (countItem now) noStoreStats ls in
  ret {| Stats.stores := [("localStorage"%string, s)];
         Stats.totalEntries := StoreStats.entries s;
         Stats.totalSize := StoreStats.size s;
         Stats.expiredEntries := StoreStats.expired s |}.

Definition getStats (now : Z) : M Stats.t :=
  do _ <- waitForReady;
  let stats :=
    {| Stats.stores := []; Stats.totalEntries := 0;
       Stats.totalSize := 0; Stats.expiredEntries := 0 |} in
  do fallback <- reads useLocalStorage;
  if fallback then getLocalStorageStats now
  else collectStats stores now stats.

(** *** Cleanup *)

(** [cleanupStore(storeName)]. Its failure is the transaction that
    cannot be made, which is thrown to the caller; an error of the cursor
    request, which resolves with the count so far, is not modelled. *)
Definition cleanupStore (storeName : string) (now : Z) : M (option Z) :=
  transaction storeName (sweep (fun _ e => isExpired now e)).

(** The [for (const storeName of Object.values(this.stores))] loop
    with its [totalCleaned]; [None] when a store failed and the loop
    was left for the [catch]. *)
Fixpoint cleanupStores (names : list string) (now : Z) (totalCleaned : Z)
    : M (option Z) :=
  match names with
  | [] => ret (Some totalCleaned)
  | storeName :: rest =>
      do swept <- cleanupStore storeName now;
      match swept with
      | Some cleaned => cleanupStores rest now (totalCleaned + cleaned)
      | None => ret None
      end
  end.

(** The value of [cleanupExpiredEntries()]: a number, or [None] for
    [undefined]. Only the fallback branch has a [return] with a value;
    on IndexedDB [totalCleaned] is logged and the function ends. *)
Definition cleanupExpiredEntries (now : Z) : M (option Z) :=
  do _ <- waitForReady;
  do fallback <- reads useLocalStorage;
  if fallback then
    do cleaned <- cleanupLocalStorage now;
    ret (Some cleaned)
  else
    do _ <- cleanupStores storeNames now 0;
    ret None.

(** *** Initialisation *)

(** What [indexedDB.open] does: [onerror], or [onsuccess] on the
    database found on disk, after [onupgradeneeded] when the database is
    new. *)
Inductive OpenResult : Type :=
| OpenError
| OpenSuccess (upgradeneeded : bool)
    (onDisk : gmap string (gmap string Entry.t)).

(** The [onupgradeneeded] handler: every store of [this.stores] that
    the database does not contain is created empty. *)
Definition createObjectStores (d : gmap string (gmap string Entry.t))
    : gmap string (gmap string Entry.t) :=
  foldl (fun d storeName =>
           match d !! storeName with
           | Some _ => d
           | None => <[storeName := ∅]> d
           end) d storeNames.

(** [openDatabase()]; [None] is the rejected promise. *)
Definition openDatabase (r : OpenResult)
    : option (gmap string (gmap string Entry.t)) :=
  match r with
  | OpenError => None
  | OpenSuccess upgradeneeded onDisk =>
      Some (if upgradeneeded then createObjectStores onDisk else onDisk)
  end.

Definition fallbackToLocalStorage : M unit :=
  do _ <- modify (with_useLocalStorage true);
  modify (with_isReady true).

Definition init (r : OpenResult) (now : Z) : M unit :=
  match openDatabase r with
  | Some d =>
      do _ <- modify (with_db (Some d));
      do _ <- modify (with_isReady true);
      do _ <- cleanupExpiredEntries now;
      ret tt
  | None => fallbackToLocalStorage
  end.

(** The fields the constructor sets before it calls [init]. *)
Definition constructed (ls : gmap string item) (fs : list bool) : State :=
  {| db := None; useLocalStorage := false; isReady := false;
     localStorage := ls; faults := fs |}.

End Methods.

(** *** States *)

(** The service runs on IndexedDB: [init] has opened the database [d],
    which has every store of [this.stores], and no failure is due. *)
Definition onIndexedDB (d : gmap string (gmap string Entry.t)) (st : State)
    : Prop :=
  isReady st = true /\ useLocalStorage st = false /\ db st = Some d
  /\ faults st = [] /\ forall name, In name storeNames -> is_Some (d !! name).

(** The service runs on [localStorage]. *)
Definition onLocalStorage (st : State) : Prop :=
  isReady st = true /\ useLocalStorage st = true.

(** The items of [localStorage] that are not the cache's - their keys
    do not start with [cache_] - are in [st'] what they are in [st]. *)
Definition otherItemsKept (st st' : State) : Prop :=
  forall k, startsWith "cache_" k = false ->
    localStorage st' !! k = localStorage st !! k.

(** The entries of a store that are expired at [now], counted, and the
    store without them. *)
Definition expiredCount (now : Z) (os : gmap string Entry.t) : Z :=
  Z.of_nat (size (filter (fun kv => isExpired now kv.2 = true) os)).

Definition liveOnly (now : Z) (os : gmap string Entry.t) : gmap string Entry.t :=
  filter (fun kv => isExpired now kv.2 = false) os.

(** The expired entries of the stores [names] of a database, counted. *)
Definition expiredIn (names : list string) (now : Z)
    (d : gmap string (gmap string Entry.t)) : Z :=
  foldr (fun name n => expiredCount now (default ∅ (d !! name)) + n) 0 names.

(** The entries of all stores of a database, counted. *)
Definition entriesIn (names : list string)
    (d : gmap string (gmap string Entry.t)) : Z :=
  foldr (fun name n => Z.of_nat (size (default ∅ (d !! name))) + n) 0 names.

(** *** Arguments *)

(** A [customTTL] that [||] skips: [null] (the default) or [0]. *)
Definition isFalsy (customTTL : option num) : bool :=
  match customTTL with
  | None => true
  | Some n => negb (truthy n)
  end.

(** A [customTTL] below zero. *)
Definition isNegative (customTTL : option num) : bool :=
  match customTTL with
  | Some (Fin n) => n <? 0
  | _ => false
  end.

End CacheService.

(** ** The network, as the services see it *)

Module Http.
Import ErrorUtils.

(** A [Response]; [body] is what [response.json()] resolves to, [None]
    when it rejects. *)
Record Response : Type := {
  ok : bool;
  status : Z;
  statusText : string;
  body : option json
}.

(** What a request gives: a rejection or a response. *)
Definition Fetched : Type := Outcome Response JsError.

End Http.

(** ** services/weather-service.js *)

Module WeatherService.
Import ErrorUtils Http.

(** The fields of a processed response object, the [data] of a cache
    entry. Such an object is truthy and [null] is [None], so the tests
    [if (cached)] and [if (staleCache)] are the tests for [Some]. *)
Definition Payload : Type := list (string * json).

Record Cached : Type := {
  data : Payload;
  timestamp : Z
}.

(** [this.cache], the object last handed to the storage service under
    [CONFIG.STORAGE_KEYS.CACHE], and the URLs requested so far, oldest
    first. The storage service is not among the sources: what its [get]
    returns to a new service is an argument of [constructed] below. *)
Record State : Type := {
  cache : gmap string Cached;
  storage : gmap string Cached;
  requested : list string
}.

Definition cacheTimeout : Z := 5 * 60 * 1000.

Definition getCachedData (key : string) (allowStale : bool) (now : Z)
    (st : State) : option Payload :=
  match cache st !! key with
  | None => None
  | Some cached =>
      let isStale := cacheTimeout <? now - timestamp cached in
      if isStale && negb allowStale then None
      else Some (data cached)
  end.

(** [saveCacheToStorage]: only the entries that are not stale are
    written, by [cacheObject[key] = value] on an object literal; under
    the key [__proto__] that assignment sets the prototype of the object
    and writes no entry. *)
Definition saveCacheToStorage (now : Z) (st : State) : State :=
  {| cache := cache st;
     storage :=
       filter (fun kv => kv.1 <> "__proto__"%string
                         /\ now - timestamp kv.2 <= cacheTimeout) (cache st);
     requested := requested st |}.

Definition setCachedData (key : string) (d : Payload) (now : Z) (st : State)
    : State :=
  saveCacheToStorage now
    {| cache := <[key := {| data := d; timestamp := now |}]> (cache st);
       storage := storage st;
       requested := requested st |}.

(** [CONFIG.ERRORS]. *)
Definition ERRORS_NETWORK : string :=
  "Network connection failed. Please check your internet connection.".
Definition ERRORS_API_KEY : string :=
  "Invalid API key. Please check your configuration.".
Definition ERRORS_LOCATION_NOT_FOUND : string :=
  "Location not found. Please try a different search term.".
Definition ERRORS_UNKNOWN : string :=
  "An unexpected error occurred. Please try again.".

Definition handleWeatherError (error : JsError) : JsError :=
  if String.eqb (name error) "AbortError" then Error ERRORS_NETWORK
  else if includes "401" (message error) then Error ERRORS_API_KEY
  else if includes "404" (message error) then Error ERRORS_LOCATION_NOT_FOUND
  else if includes "Failed to fetch" (message error) then Error ERRORS_NETWORK
  else Error (if String.eqb (message error) "" then ERRORS_UNKNOWN
              else message error).

Section Service.

(** [CONFIG.API.KEY] and [CONFIG.API.BASE_URL]. *)
Definition API_KEY : string := "".
Definition BASE_URL : string := "https://api.openweathermap.org/data/2.5".

(** [ENDPOINTS.CURRENT_WEATHER]. Coordinates are given as the text a
    template literal makes of them. *)
Definition CURRENT_WEATHER (lat lon units lang : string) : string :=
  BASE_URL +:+ "/weather?lat=" +:+ lat +:+ "&lon=" +:+ lon +:+ "&units="
  +:+ units +:+ "&lang=" +:+ lang +:+ "&appid=" +:+ API_KEY.

(** [retryRequest(() => fetchWithTimeout(url, ...), attempts, delay)]
    of [utils/api-helpers.js]: from the URL and the requests made so
    far, the way the call settles and the requests made by then. *)
Variable retryRequest : string -> list string -> Fetched * list string.

(** [processCurrentWeatherData]: rounds and copies the fields of the
    response body; when a field it dereferences is missing it throws a
    [TypeError], whose message, which names the field, is what it
    rejects with here. *)
Variable processCurrentWeatherData : json -> Outcome Payload string.

Definition request (url : string) (st : State) : Fetched * State :=
  let '(fetched, log) := retryRequest url (requested st) in
  (fetched, {| cache := cache st; storage := storage st; requested := log |}).

(** The body of the [try] after the cache check, up to
    [processCurrentWeatherData]. *)
Definition fetchCurrentWeather (url : string) (st : State)
    : Outcome Payload JsError * State :=
  let '(fetched, st1) := request url st in
  match fetched with
  | RejectedWith error => (RejectedWith error, st1)
  | Fulfilled response =>
      if negb (ok response) then
        (RejectedWith (Error ("API request failed: " +:+ pretty (status response)
                              +:+ " " +:+ statusText response)), st1)
      else
        match body response with
        | None => (RejectedWith (Error "Unexpected end of JSON input"), st1)
        | Some d =>
            match processCurrentWeatherData d with
            | RejectedWith message => (RejectedWith (TypeError message), st1)
            | Fulfilled processedData => (Fulfilled processedData, st1)
            end
        end
  end.

(** [getCurrentWeather(lat, lon, units, lang)]; [now] is the clock
    when the call starts, [later] the clock once the request has
    settled. *)
Definition getCurrentWeather (lat lon units lang : string) (now later : Z)
    (st : State) : Outcome Payload JsError * State :=
  let cacheKey := "current_" +:+ lat +:+ "_" +:+ lon +:+ "_" +:+ units
                  +:+ "_" +:+ lang in
  match getCachedData cacheKey false now st with
  | Some cached => (Fulfilled cached, st)
  | None =>
      let url := CURRENT_WEATHER lat lon units lang in
      match fetchCurrentWeather url st with
      | (Fulfilled processedData, st1) =>
          (Fulfilled processedData, setCachedData cacheKey processedData later st1)
      | (RejectedWith error, st1) =>
          match getCachedData cacheKey true later st1 with
          | Some staleCache => (Fulfilled staleCache, st1)
          | None => (RejectedWith (handleWeatherError error), st1)
          end
      end
  end.

End Service.

(** *** The cache across a restart *)

(** The fields the constructor sets, on the object that the storage
    service keeps. *)
Definition constructed (kept : gmap string Cached) : State :=
  {| cache := ∅; storage := kept; requested := [] |}.

(** [loadCacheFromStorage]: the entries that are not stale are set in
    [this.cache], over what is there. *)
Definition loadCacheFromStorage (now : Z) (st : State) : State :=
  {| cache := filter (fun kv => now - timestamp kv.2 <= cacheTimeout) (storage st)
              ∪ cache st;
     storage := storage st;
     requested := requested st |}.

End WeatherService.

(** ** services/openMeteo.js *)

Module OpenMeteoService.
Import ErrorUtils Http.

Record Cached : Type := {
  data : json;
  timestamp : Z
}.

(** What a call does besides computing its value. *)
Inductive Event : Type :=
| CacheHas (key : string)
| CacheGet (key : string)
| CacheSet (key : string)
| Fetch (url : string).

(** [this.requestCache] and the events so far, oldest first. *)
Record State : Type := {
  requestCache : gmap string Cached;
  trace : list Event
}.

Definition cacheTimeout : Z := 5 * 60 * 1000.

(** [API_CONFIG.BASE_URL] and [API_CONFIG.API_KEY]. *)
Definition baseUrl : string := "https://api.weatherapi.com/v1".
Definition apiKey : string := "de871f762da24183a6c181748250908".

Definition emit (e : Event) (st : State) : State :=
  {| requestCache := requestCache st; trace := trace st ++ [e] |}.

(** The cache check that opens every method:
    [has(cacheKey)], then [get(cacheKey)] and the age test. *)
Definition checkCache (cacheKey : string) (now : Z) (st : State)
    : option json * State :=
  let st1 := emit (CacheHas cacheKey) st in
  match requestCache st !! cacheKey with
  | None => (None, st1)
  | Some cached =>
      let st2 := emit (CacheGet cacheKey) st1 in
      if now - timestamp cached <? cacheTimeout then (Some (data cached), st2)
      else (None, st2)
  end.

Definition store (cacheKey : string) (d : json) (now : Z) (st : State)
    : State :=
  emit (CacheSet cacheKey)
    {| requestCache := <[cacheKey := {| data := d; timestamp := now |}]> (requestCache st);
       trace := trace st |}.

Section Service.

(** The network: what [fetch(url)] gives. *)
Variable fetch : string -> Fetched.

(** Built-ins on strings. *)
Variable toLowerCase : string -> string.
Variable encodeURIComponent : string -> string.

(** [transformCurrentWeather] and [transformLocationResult]: they copy
    fields of the response; [None] when a field that is dereferenced
    is missing. *)
Variable transformCurrentWeather : json -> option json.
Variable transformLocationResult : json -> json.

(** [await fetch(url)], the [response.ok] test and
    [await response.json()]; on the left the message of the error that
    is thrown. *)
Definition fetchJson (url : string) (what : string) (st : State)
    : Outcome json string * State :=
  let st1 := emit (Fetch url) st in
  match fetch url with
  | RejectedWith error => (RejectedWith (message error), st1)
  | Fulfilled response =>
      if negb (ok response) then
        (RejectedWith (what +:+ " API error: " +:+ pretty (status response)
                       +:+ " " +:+ statusText response), st1)
      else
        match body response with
        | None => (RejectedWith "Unexpected end of JSON input", st1)
        | Some d => (Fulfilled d, st1)
        end
  end.

(** [getCurrentWeather(lat, lon)]; coordinates as the text a template
    literal makes of them. *)
Definition getCurrentWeather (lat lon : string) (now later : Z) (st : State)
    : Outcome json JsError * State :=
  let cacheKey := "current_" +:+ lat +:+ "_" +:+ lon in
  match checkCache cacheKey now st with
  | (Some d, st1) => (Fulfilled d, st1)
  | (None, st1) =>
      let url := baseUrl +:+ "/current.json?key=" +:+ apiKey +:+ "&q="
                 +:+ lat +:+ "," +:+ lon +:+ "&aqi=yes&alerts=yes" in
      let failed msg := Error ("Failed to fetch current weather: " +:+ msg) in
      match fetchJson url "Weather" st1 with
      | (RejectedWith msg, st2) => (RejectedWith (failed msg), st2)
      | (Fulfilled d, st2) =>
          match transformCurrentWeather d with
          | None => (RejectedWith (failed "Cannot read properties of undefined"), st2)
          | Some transformedData =>
              (Fulfilled transformedData, store cacheKey transformedData later st2)
          end
      end
  end.

(** [searchLocations(query)]; an absent [query] is [None]. The value
    [[]] is [JArr []]. *)
Definition searchLocations (query : option string) (now later : Z)
    (st : State) : Outcome json JsError * State :=
  match query with
  | None => (Fulfilled (JArr []), st)
  | Some q =>
      if (String.length q <? 2)%nat then (Fulfilled (JArr []), st)
      else
        let cacheKey := "search_" +:+ toLowerCase q in
        match checkCache cacheKey now st with
        | (Some d, st1) => (Fulfilled d, st1)
        | (None, st1) =>
            let url := baseUrl +:+ "/search.json?key=" +:+ apiKey +:+ "&q="
                       +:+ encodeURIComponent q in
            let failed msg := Error ("Failed to search locations: " +:+ msg) in
            match fetchJson url "Search" st1 with
            | (RejectedWith msg, st2) => (RejectedWith (failed msg), st2)
            | (Fulfilled (JArr items), st2) =>
                let transformedData := JArr (map transformLocationResult items) in
                (Fulfilled transformedData, store cacheKey transformedData later st2)
            | (Fulfilled _, st2) =>
                (RejectedWith (failed "data.map is not a function"), st2)
            end
        end
  end.

End Service.

(** A query that [searchLocations] does not search for: absent, or
    shorter than 2 characters. *)
Definition tooShort (query : option string) : Prop :=
  match query with
  | None => True
  | Some q => (String.length q < 2)%nat
  end.

End OpenMeteoService.

(** ** services/geocoding.js *)

Module GeocodingService.
Import ErrorUtils Http.

Section Service.

Variable fetch : string -> Fetched.
Variable toLowerCase : string -> string.
Variable encodeURIComponent : string -> string.
Variable transformLocationResult : json -> json.

(** [searchLocations(query)]: the guard, then the search of the
    weather service; its state is the state of that service. *)
Definition searchLocations (query : option string) (now later : Z)
    (st : OpenMeteoService.State)
    : Outcome json JsError * OpenMeteoService.State :=
  match query with
  | None => (Fulfilled (JArr []), st)
  | Some q =>
      if (String.length q <? 2)%nat then (Fulfilled (JArr []), st)
      else
        match OpenMeteoService.searchLocations fetch toLowerCase
                encodeURIComponent transformLocationResult query now later st with
        | (Fulfilled results, st1) => (Fulfilled results, st1)
        | (RejectedWith error, st1) =>
            (RejectedWith (Error ("Failed to search locations: " +:+ message error)), st1)
        end
  end.

End Service.

Section Suggestions.

Variable fetch : string -> Fetched.
Variable toLowerCase : string -> string.
Variable encodeURIComponent : string -> string.
Variable transformLocationResult : json -> json.

(** The arrow function of [getLocationSuggestions]:
    [{...location, type: 'search', distance: null}]. *)
Variable asSuggestion : json -> json.

(** [getLocationSuggestions(partialQuery)]. A result of the search that
    is no array has no [slice] with a [map] after it: the [TypeError]
    goes to the [catch]. *)
Definition getLocationSuggestions (partialQuery : option string)
    (now later : Z) (st : OpenMeteoService.State)
    : Outcome json JsError * OpenMeteoService.State :=
  match partialQuery with
  | None => (Fulfilled (JArr []), st)
  | Some q =>
      if (String.length q <? 2)%nat then (Fulfilled (JArr []), st)
      else
        match searchLocations fetch toLowerCase encodeURIComponent
                transformLocationResult partialQuery now later st with
        | (Fulfilled (JArr results), st1) =>
            (Fulfilled (JArr (map asSuggestion (firstn 8 results))), st1)
        | (Fulfilled _, st1) => (Fulfilled (JArr []), st1)
        | (RejectedWith _, st1) => (Fulfilled (JArr []), st1)
        end
  end.

End Suggestions.

(** *** Watching the position *)

Section Watching.

(** A position, as the handlers build it from the browser's. *)
Context {Location : Type}.

(** The fields [watchId], [isWatching] and [lastKnownPosition]; the
    browser's side: the watches it has registered and the next id it
    gives out; and the calls of the callback so far, oldest first, with
    [None] for a call with an error. *)
Record Watcher : Type := {
  watchId : option nat;
  isWatching : bool;
  lastKnownPosition : option Location;
  registered : list nat;
  nextWatchId : nat;
  called : list (option Location)
}.

Definition constructor : Watcher :=
  {| watchId := None; isWatching := false; lastKnownPosition := None;
     registered := []; nextWatchId := 0; called := [] |}.

Definition stopWatchingPosition (w : Watcher) : Watcher :=
  match watchId w with
  | Some id =>
      {| watchId := None; isWatching := false;
         lastKnownPosition := lastKnownPosition w;
         registered := filter (fun i => i <> id) (registered w);
         nextWatchId := nextWatchId w; called := called w |}
  | None => w
  end.

(** [startWatchingPosition(callback, options)] where the browser has
    geolocation. *)
Definition startWatchingPosition (w : Watcher) : Watcher :=
  let w1 := if isWatching w then stopWatchingPosition w else w in
  {| watchId := Some (nextWatchId w1); isWatching := true;
     lastKnownPosition := lastKnownPosition w1;
     registered := registered w1 ++ [nextWatchId w1];
     nextWatchId := S (nextWatchId w1); called := called w1 |}.

(** The browser reports a position, or an error, to the watch [id]:
    the handlers given to [watchPosition] run when the watch is still
    registered. *)
Definition positionReported (id : nat) (location : Location) (w : Watcher)
    : Watcher :=
  if bool_decide (id ∈ registered w) then
    {| watchId := watchId w; isWatching := isWatching w;
       lastKnownPosition := Some location;
       registered := registered w; nextWatchId := nextWatchId w;
       called := called w ++ [Some location] |}
  else w.

Definition errorReported (id : nat) (w : Watcher) : Watcher :=
  if bool_decide (id ∈ registered w) then
    {| watchId := watchId w; isWatching := isWatching w;
       lastKnownPosition := lastKnownPosition w;
       registered := registered w; nextWatchId := nextWatchId w;
       called := called w ++ [None] |}
  else w.

(** What happens to the service, one thing at a time. *)
Inductive Action : Type :=
| Start
| Stop
| Position (id : nat) (location : Location)
| PositionError (id : nat).

Definition act (a : Action) (w : Watcher) : Watcher :=
  match a with
  | Start => startWatchingPosition w
  | Stop => stopWatchingPosition w
  | Position id location => positionReported id location w
  | PositionError id => errorReported id w
  end.

End Watching.

Arguments Watcher : clear implicits.
Arguments Action : clear implicits.

End GeocodingService.

(** ** Sample inputs *)

Module Samples.
Import ErrorUtils.

(** An operation that fails twice and then succeeds. *)
Definition flaky (k : nat) : Settled json JsError :=
  match k with
  | 0%nat => Rejected (NetworkError "connection refused" false)
  | 1%nat => Rejected (APIError "Service Unavailable" (Some 503))
  | _ => Resolved (JStr "sunny")
  end.

(** An operation that always fails with a 404. *)
Definition notFound : JsError := APIError "Not Found" (Some 404).

Definition alwaysNotFound (k : nat) : Settled json JsError := Rejected notFound.

(** The service once [init] has run: on a new database, and after
    [indexedDB.open] has failed. *)
Definition onNewDatabase : CacheService.State :=
  {| CacheService.db := Some (CacheService.createObjectStores ∅);
     CacheService.useLocalStorage := false;
     CacheService.isReady := true;
     CacheService.localStorage := ∅;
     CacheService.faults := [] |}.

Definition afterOpenError : CacheService.State :=
  {| CacheService.db := None;
     CacheService.useLocalStorage := true;
     CacheService.isReady := true;
     CacheService.localStorage := ∅;
     CacheService.faults := [] |}.

(** The service on a new database, with failures of IndexedDB due. *)
Definition withFaults (fs : list bool) : CacheService.State :=
  CacheService.with_faults fs onNewDatabase.

(** A network that is down. *)
Definition offline : JsError := NetworkError "Failed to fetch" true.

Definition retryRequestOffline (url : string) (log : list string)
    : Http.Fetched * list string :=
  (RejectedWith offline, log ++ [url]).

Definition fetchOffline (url : string) : Http.Fetched := RejectedWith offline.

(** A processing step that finds nothing to process. *)
Definition processNothing (body : json)
    : Outcome WeatherService.Payload string :=
  RejectedWith "Cannot read properties of undefined (reading 'name')"%string.

Definition transformNothing (body : json) : option json := None.

(** Stand-ins for [toLowerCase] and [encodeURIComponent], right on the
    lower-case letters. *)
Definition sameText (s : string) : string := s.

(** The weather service with the current weather of one place cached at
    time 1000. *)
Definition sunny : WeatherService.Payload := [("temp", JNum 21)]%string.

Definition weatherCached : WeatherService.State :=
  {| WeatherService.cache :=
       {[ "current_40.7_-74_metric_en"%string :=
            {| WeatherService.data := sunny; WeatherService.timestamp := 1000 |} ]};
     WeatherService.storage := ∅;
     WeatherService.requested := [] |}.

Definition openMeteoCached : OpenMeteoService.State :=
  {| OpenMeteoService.requestCache :=
       {[ "current_40.7_-74"%string :=
            {| OpenMeteoService.data := JObj sunny;
               OpenMeteoService.timestamp := 1000 |} ]};
     OpenMeteoService.trace := [] |}.

(** The double quote. *)
Definition quote : string := String (Ascii.ascii_of_nat 34) "".

(** A stand-in for [JSON.stringify], good for payloads whose strings
    need no escaping. *)
Fixpoint stringify (v : json) : string :=
  match v with
  | JNull => "null"
  | JBool true => "true"
  | JBool false => "false"
  | JNum n => pretty n
  | JStr s => quote +:+ s +:+ quote
  | JArr items => "[" +:+ String.concat "," (map stringify items) +:+ "]"
  | JObj fields =>
      "{" +:+ String.concat ","
                (map (fun kv => quote +:+ fst kv +:+ quote +:+ ":"
                                +:+ stringify (snd kv)) fields) +:+ "}"
  end.

End Samples.

(** ** utils/error.js: messages, severity and the logger *)

Module ErrorHandling.

(** [error.code]: a string on the errors of the application, a number
    on the errors of the Geolocation API. *)
Inductive codeValue : Type :=
| CodeString (s : string)
| CodeNumber (n : Z).

(** A value that was thrown, as the functions below read it; a property
    it does not have is [None]. [toString] is what [error.toString()]
    returns. *)
Record Thrown : Type := {
  name : option string;
  message : option string;
  code : option codeValue;
  status : option Z;
  toString : string
}.

(** An error of the classes of this module, as such a value;
    [Error.prototype.toString] joins the name and the message. *)
Definition ofJsError (e : ErrorUtils.JsError) : Thrown :=
  {| name := Some (ErrorUtils.name e);
     message := Some (ErrorUtils.message e);
     code := if String.eqb (ErrorUtils.code e) "" then None
             else Some (CodeString (ErrorUtils.code e));
     status := ErrorUtils.status e;
     toString := if String.eqb (ErrorUtils.message e) "" then ErrorUtils.name e
                 else (ErrorUtils.name e +:+ ": " +:+ ErrorUtils.message e)%string |}.

(** [ERROR_MESSAGES]. *)
Definition ERROR_MESSAGES : list (string * string) :=
  [("API_ERROR", "Unable to fetch weather data. Please try again.");
   ("API_RATE_LIMIT", "Too many requests. Please wait a moment and try again.");
   ("API_UNAUTHORIZED", "API access denied. Please check your connection.");
   ("API_NOT_FOUND", "Location not found. Please check the location name.");
   ("API_TIMEOUT", "Request timed out. Please check your connection.");
   ("LOCATION_PERMISSION_DENIED",
    "Location access denied. Please enable location permissions.");
   ("LOCATION_UNAVAILABLE", "Unable to determine your location. Please try again.");
   ("LOCATION_TIMEOUT", "Location request timed out. Please try again.");
   ("LOCATION_NOT_SUPPORTED", "Geolocation is not supported by your browser.");
   ("NETWORK_ERROR", "Network error. Please check your internet connection.");
   ("NETWORK_OFFLINE", "You are offline. Some features may not be available.");
   ("CACHE_READ", "Unable to read cached data.");
   ("CACHE_WRITE", "Unable to save data to cache.");
   ("CACHE_FULL", "Storage is full. Some data may not be saved.");
   ("UNKNOWN_ERROR", "An unexpected error occurred. Please try again.");
   ("INVALID_DATA", "Invalid data received. Please refresh the page.");
   ("FEATURE_NOT_SUPPORTED", "This feature is not supported by your browser.")]%string.

(** [ERROR_MESSAGES.KEY] for a key of the table. *)
Definition ERROR_MESSAGE (key : string) : string :=
  default ""%string (CacheService.prop ERROR_MESSAGES key).

(** What [getUserFriendlyMessage] gives: a text; the function found
    under a code that is a name inherited from [Object.prototype]; or a
    [TypeError], thrown when [message] is read as a string and is not
    there. *)
Inductive Answer : Type :=
| Text (s : string)
| InheritedProperty (name : string)
| ThrowsTypeError.

Definition codeTruthy (c : codeValue) : bool :=
  match c with
  | CodeString s => negb (String.eqb s "")
  | CodeNumber n => negb (n =? 0)
  end.

(** [ERROR_MESSAGES[error.code]]; [None] is [undefined]. *)
Definition messageOfCode (c : codeValue) : option Answer :=
  match c with
  | CodeString s =>
      if ownName s then option_map Text (CacheService.prop ERROR_MESSAGES s)
      else Some (InheritedProperty s)
  | CodeNumber _ => None
  end.

Definition nameIs (n : string) (error : Thrown) : bool :=
  match name error with
  | Some m => String.eqb m n
  | None => false
  end.

(** The last step: [error.message || error.toString()], when it is
    shorter than 100 characters. A string is its sequence of characters,
    one [ascii] each, so that [String.length] is [length]. *)
Definition ownMessage (error : Thrown) : Answer :=
  let message :=
    match message error with
    | Some m => if String.eqb m "" then toString error else m
    | None => toString error
    end in
  if (String.length message <? 100)%nat then Text message
  else Text (ERROR_MESSAGE "UNKNOWN_ERROR").

(** The [switch] on [error.status]. *)
Definition messageOfStatus (s : Z) : Answer :=
  if (s =? 401) || (s =? 403) then Text (ERROR_MESSAGE "API_UNAUTHORIZED")
  else if s =? 404 then Text (ERROR_MESSAGE "API_NOT_FOUND")
  else if s =? 429 then Text (ERROR_MESSAGE "API_RATE_LIMIT")
  else if (s =? 500) || (s =? 502) || (s =? 503) || (s =? 504)
       then Text "Server error. Please try again later."
  else Text (ERROR_MESSAGE "API_ERROR").

(** [getUserFriendlyMessage(error)]; [None] is a falsy [error];
    [onLine] is [navigator.onLine]. *)
Definition getUserFriendlyMessage (onLine : bool) (error : option Thrown)
    : Answer :=
  match error with
  | None => Text (ERROR_MESSAGE "UNKNOWN_ERROR")
  | Some error =>
      match match code error with
            | Some c => if codeTruthy c then messageOfCode c else None
            | None => None
            end with
      | Some found => found
      | None =>
          match (if nameIs "TypeError" error
                 then option_map (includes "fetch") (message error)
                 else Some false) with
          | None => ThrowsTypeError
          | Some true => Text (ERROR_MESSAGE "NETWORK_ERROR")
          | Some false =>
              if nameIs "AbortError" error then Text (ERROR_MESSAGE "API_TIMEOUT")
              else
                match code error with
                | Some (CodeNumber 1) => Text (ERROR_MESSAGE "LOCATION_PERMISSION_DENIED")
                | Some (CodeNumber 2) => Text (ERROR_MESSAGE "LOCATION_UNAVAILABLE")
                | Some (CodeNumber 3) => Text (ERROR_MESSAGE "LOCATION_TIMEOUT")
                | _ =>
                    match status error with
                    | Some s =>
                        if s =? 0 then
                          if negb onLine then Text (ERROR_MESSAGE "NETWORK_OFFLINE")
                          else ownMessage error
                        else messageOfStatus s
                    | None =>
                        if negb onLine then Text (ERROR_MESSAGE "NETWORK_OFFLINE")
                        else ownMessage error
                    end
                end
          end
      end
  end.

(** [error.code?.includes(s)]: [undefined] without a code, the test on
    a code that is a string, and a [TypeError] ([None]) on a code that is
    a number, which has no method [includes]. *)
Definition codeIncludes (s : string) (error : Thrown) : option bool :=
  match code error with
  | None => Some false
  | Some (CodeString c) => Some (includes s c)
  | Some (CodeNumber _) => None
  end.

Definition codeIs (s : string) (error : Thrown) : bool :=
  match code error with
  | Some (CodeString c) => String.eqb c s
  | _ => false
  end.

(** [getErrorSeverity(error)], a value of [ERROR_SEVERITY]; [None] is
    the [TypeError]. In [a || b] the test [b] is made only when [a] is
    false. *)
Definition getErrorSeverity (error : option Thrown) : option string :=
  match error with
  | None => Some "medium"%string
  | Some error =>
      if nameIs "SecurityError" error || codeIs "API_UNAUTHORIZED" error
      then Some "critical"%string
      else
        match (if nameIs "NetworkError" error then Some true
               else codeIncludes "NETWORK" error) with
        | None => None
        | Some true => Some "high"%string
        | Some false =>
            match (if nameIs "APIError" error then Some true
                   else codeIncludes "API" error) with
            | None => None
            | Some true => Some "medium"%string
            | Some false =>
                match codeIncludes "CACHE" error with
                | None => None
                | Some true => Some "low"%string
                | Some false =>
                    match codeIncludes "LOCATION" error with
                    | None => None
                    | Some true => Some "low"%string
                    | Some false => Some "medium"%string
                    end
                end
            end
        end
  end.

(** The object that [sanitizeError] returns. *)
Record Sanitized : Type := {
  sanitizedMessage : string;
  sanitizedCode : codeValue;
  sanitizedSeverity : string;
  sanitizedTimestamp : Z;
  canRetry : bool
}.

(** How [sanitizeError(error)] ends. *)
Inductive SanitizeResult : Type :=
| ReturnsNull
| Returns (s : Sanitized)
| ReturnsWithInherited (name : string)
| Throws.

Definition sanitizeError (onLine : bool) (now : Z) (error : option Thrown)
    : SanitizeResult :=
  match error with
  | None => ReturnsNull
  | Some e =>
      match getUserFriendlyMessage onLine error with
      | ThrowsTypeError => Throws
      | InheritedProperty n =>
          match getErrorSeverity error with
          | None => Throws
          | Some _ => ReturnsWithInherited n
          end
      | Text m =>
          match getErrorSeverity error with
          | None => Throws
          | Some severity =>
              Returns
                {| sanitizedMessage := m;
                   sanitizedCode :=
                     match code e with
                     | Some c => if codeTruthy c then c else CodeString "UNKNOWN_ERROR"
                     | None => CodeString "UNKNOWN_ERROR"
                     end;
                   sanitizedSeverity := severity;
                   sanitizedTimestamp := now;
                   canRetry :=
                     negb (codeIs "LOCATION_PERMISSION_DENIED" e
                           || codeIs "API_UNAUTHORIZED" e) |}
          end
      end
  end.

(** *** The logger *)

(** [array.slice(start)]. *)
Definition slice {A : Type} (start : Z) (l : list A) : list A :=
  let len := Z.of_nat (length l) in
  let from := if start <? 0 then Z.max (len + start) 0 else Z.min start len in
  skipn (Z.to_nat from) l.

(** An entry of the log. The fields [stack], [details], [userAgent] and
    [url], which are carried along and never read, are left out. *)
Record LogEntry : Type := {
  timestamp : Z;
  level : string;
  errorName : string;
  errorMessage : string;
  errorCode : option codeValue;
  context : json;
  online : bool;
  severity : string
}.

(** The item [weather-app-error-logs] of [localStorage]: what
    [saveToStorage] wrote, or a text that does not parse. *)
Inductive StoredLogs : Type :=
| Saved (logs : list LogEntry) (timestamp : Z)
| Unreadable.

Record Logger : Type := {
  logs : list LogEntry;
  stored : option StoredLogs
}.

Definition maxLogs : nat := 100.

(** The constructor, on the [localStorage] it finds. *)
Definition constructor (found : option StoredLogs) : Logger :=
  {| logs := []; stored := found |}.

Definition saveToStorage (now : Z) (lg : Logger) : Logger :=
  {| logs := logs lg; stored := Some (Saved (slice (-20) (logs lg)) now) |}.

Definition loadFromStorage (lg : Logger) : Logger :=
  match stored lg with
  | None => lg
  | Some (Saved l _) => {| logs := l; stored := stored lg |}
  | Some Unreadable => {| logs := []; stored := stored lg |}
  end.

(** The [logEntry] of [log]; [None] when [getErrorSeverity] throws. *)
Definition logEntry (onLine : bool) (now : Z) (error : option Thrown)
    (context : json) (level : string) : option LogEntry :=
  match getErrorSeverity error with
  | None => None
  | Some severity =>
      let text (field : Thrown -> option string) (otherwise : string) :=
        match error with
        | Some e =>
            match field e with
            | Some s => if String.eqb s "" then otherwise else s
            | None => otherwise
            end
        | None => otherwise
        end in
      Some {| timestamp := now; level := level;
              errorName := text name "Unknown"%string;
              errorMessage := text message "Unknown error"%string;
              errorCode :=
                match error with
                | Some e =>
                    match code e with
                    | Some c => if codeTruthy c then Some c else None
                    | None => None
                    end
                | None => None
                end;
              context := context; online := onLine; severity := severity |}
  end.

(** [log(error, context, level)]; [None] when it throws, which it does
    before it has changed anything. *)
Definition log (onLine : bool) (now : Z) (error : option Thrown)
    (context : json) (level : string) (lg : Logger) : option Logger :=
  match logEntry onLine now error context level with
  | None => None
  | Some entry =>
      let pushed := logs lg ++ [entry] in
      let kept := if (maxLogs <? length pushed)%nat
                  then slice (- Z.of_nat maxLogs) pushed else pushed in
      Some (saveToStorage now {| logs := kept; stored := stored lg |})
  end.

(** *** [retry], with its logger

    Before it waits, [retry] hands the error to [errorLogger.warn]; what
    the logger throws there leaves the [catch] block and ends [retry]. *)

(** [Number.MAX_SAFE_INTEGER]: a whole number up to it in size is a
    number of JavaScript, and a product or power of such numbers that
    stays within it is computed exactly. *)
Definition MAX_SAFE_INTEGER : Z := 2 ^ 53 - 1.

Definition isSafeInteger (n : Z) : bool := Z.abs n <=? MAX_SAFE_INTEGER.

(** Whether [delay * Math.pow(backoff, attempt)], which the code
    computes in binary64, is the whole number [delay * backoff ^ attempt]:
    it is when the power and the product are safe integers. Beyond them
    the code rounds, and the loop below does not say what it waits
    for. *)
Definition exactWait (delay backoff attempt : Z) : bool :=
  isSafeInteger (backoff ^ attempt) && isSafeInteger (delay * backoff ^ attempt).

Section RetryWithLogger.
Context {V : Type}.

(** The operation: the outcome of its [k]-th invocation; what it
    throws is a value as above, or a falsy value ([None]). *)
Variable fn : nat -> ErrorUtils.Settled V (option Thrown).

(** [navigator.onLine] and the clock when the failure of the attempt
    [k] is logged. *)
Variable whenLogged : Z -> bool * Z.

(** The invocations and waits so far, and the logger. *)
Record RetryWorld : Type := {
  invocations : nat;
  waits : list Z;
  logger : Logger
}.

(** How the call ends: with a value, with the error of the operation,
    with [undefined] ([throw lastError], never assigned), or with the
    [TypeError] of the logger; [Unfinished] is the embedding running out
    of loop budget. *)
Inductive Ended : Type :=
| Return (v : V)
| Throw (e : option Thrown)
| ThrowUndefined
| ThrowTypeError
| Unfinished.

(** The loop of [retry]. [waitTime] is written as the whole number
    [delay * backoff ^ attempt]: it is the number of the code where
    [exactWait] holds, and what is stated of a wait below is stated
    there. *)

(** The second argument of [errorLogger.warn]. *)
Definition attemptContext (attempt retries waitTime : Z) : json :=
  JObj [("type", JStr "retry-attempt"); ("attempt", JNum (attempt + 1));
        ("maxRetries", JNum retries); ("waitTime", JNum waitTime)]%string.

Fixpoint retryLoop (budget : nat) (retries delay backoff : Z)
    (condition : option Thrown -> bool) (attempt : Z)
    (lastError : option (option Thrown)) (w : RetryWorld)
    : Ended * RetryWorld :=
  match budget with
  | O => (Unfinished, w)
  | S budget' =>
      if attempt <=? retries then
        let w1 := {| invocations := S (invocations w); waits := waits w;
                     logger := logger w |} in
        match fn (invocations w) with
        | ErrorUtils.Resolved v => (Return v, w1)
        | ErrorUtils.Rejected error =>
            if (attempt =? retries) || negb (condition error) then
              (Throw error, w1)
            else
              let waitTime := delay * backoff ^ attempt in
              match log (whenLogged attempt).1 (whenLogged attempt).2 error
                      (attemptContext attempt retries waitTime) "warn"
                      (logger w1) with
              | None => (ThrowTypeError, w1)
              | Some logged =>
                  retryLoop budget' retries delay backoff condition
                    (attempt + 1) (Some error)
                    {| invocations := invocations w1;
                       waits := waits w1 ++ [waitTime];
                       logger := logged |}
              end
        end
      else
        (match lastError with
         | Some e => Throw e
         | None => ThrowUndefined
         end, w)
  end.

Definition retry (options : ErrorUtils.Options (option Thrown))
    (w : RetryWorld) : Ended * RetryWorld :=
  let retries := default 3 (ErrorUtils.retries options) in
  let delay := default 1000 (ErrorUtils.delay options) in
  let backoff := default 2 (ErrorUtils.backoff options) in
  let condition := default (fun _ => true) (ErrorUtils.condition options) in
  retryLoop (S (Z.to_nat (retries + 1))) retries delay backoff condition
    0 None w.

End RetryWithLogger.

Arguments Ended : clear implicits.

End ErrorHandling.

(** ** utils/error.js: the circuit breaker *)

Module CircuitBreaker.

Inductive Mode : Type := CLOSED | OPEN | HALF_OPEN.

(** The fields of a breaker, and the calls of [monitor] so far, oldest
    first, each with the [state] and the [failures] it was given. *)
Record t : Type := {
  failureThreshold : Z;
  resetTimeout : Z;
  state : Mode;
  failures : Z;
  nextAttempt : option Z;
  successCount : Z;
  monitored : list (Mode * Z)
}.

(** [option || d] on a number. *)
Definition or_number (option : option Z) (d : Z) : Z :=
  match option with
  | Some n => if n =? 0 then d else n
  | None => d
  end.

Definition constructor (failureThreshold resetTimeout : option Z) : t :=
  {| failureThreshold := or_number failureThreshold 5;
     resetTimeout := or_number resetTimeout 60000;
     state := CLOSED; failures := 0; nextAttempt := None;
     successCount := 0; monitored := [] |}.

Definition onSuccess (b : t) : t :=
  match state b with
  | HALF_OPEN =>
      let successCount := successCount b + 1 in
      if 3 <=? successCount then
        {| failureThreshold := failureThreshold b; resetTimeout := resetTimeout b;
           state := CLOSED; failures := 0; nextAttempt := nextAttempt b;
           successCount := successCount;
           monitored := monitored b ++ [(CLOSED, 0)] |}
      else
        {| failureThreshold := failureThreshold b; resetTimeout := resetTimeout b;
           state := HALF_OPEN; failures := 0; nextAttempt := nextAttempt b;
           successCount := successCount; monitored := monitored b |}
  | _ =>
      {| failureThreshold := failureThreshold b; resetTimeout := resetTimeout b;
         state := CLOSED; failures := 0; nextAttempt := nextAttempt b;
         successCount := successCount b; monitored := monitored b |}
  end.

(** [onFailure()]; [now] is the clock when the operation has failed. *)
Definition onFailure (now : Z) (b : t) : t :=
  let failures := failures b + 1 in
  if failureThreshold b <=? failures then
    {| failureThreshold := failureThreshold b; resetTimeout := resetTimeout b;
       state := OPEN; failures := failures;
       nextAttempt := Some (now + resetTimeout b);
       successCount := successCount b;
       monitored := monitored b ++ [(OPEN, failures)] |}
  else
    {| failureThreshold := failureThreshold b; resetTimeout := resetTimeout b;
       state := state b; failures := failures; nextAttempt := nextAttempt b;
       successCount := successCount b; monitored := monitored b |}.

(** A breaker and the number of times it has invoked the operation. *)
Record World : Type := {
  breaker : t;
  invocations : nat
}.

Section Call.
Context {V E : Type}.

(** The operation, as for [retry]: the outcome of its [k]-th
    invocation. *)
Variable fn : nat -> ErrorUtils.Settled V E.

(** How [call] ends; [ThrowOpen] is the [WeatherAppError] with the
    code [CIRCUIT_BREAKER_OPEN]. *)
Inductive Completion : Type :=
| Return (v : V)
| Throw (e : E)
| ThrowOpen.

(** The test at the head of [call]: [None] when the call is refused.
    A [null] in [this.nextAttempt > Date.now()] counts as [0]. *)
Definition enter (now : Z) (b : t) : option t :=
  match state b with
  | OPEN =>
      if now <? default 0 (nextAttempt b) then None
      else
        Some {| failureThreshold := failureThreshold b;
                resetTimeout := resetTimeout b;
                state := HALF_OPEN; failures := failures b;
                nextAttempt := nextAttempt b;
                successCount := 0; monitored := monitored b |}
  | _ => Some b
  end.

(** [call(...args)], one call at a time; [now] is the clock when it
    starts, [settled] the clock when the operation has settled. *)
Definition call (now settled : Z) (w : World) : Completion * World :=
  match enter now (breaker w) with
  | None => (ThrowOpen, w)
  | Some b =>
      match fn (invocations w) with
      | ErrorUtils.Resolved v =>
          (Return v, {| breaker := onSuccess b; invocations := S (invocations w) |})
      | ErrorUtils.Rejected e =>
          (Throw e, {| breaker := onFailure settled b;
                       invocations := S (invocations w) |})
      end
  end.

(** Calls one after the other, each with its two times. *)
Fixpoint calls (times : list (Z * Z)) (w : World) : list Completion * World :=
  match times with
  | [] => ([], w)
  | (now, settled) :: rest =>
      let '(c, w1) := call now settled w in
      let '(cs, w2) := calls rest w1 in
      (c :: cs, w2)
  end.

End Call.

Arguments Completion : clear implicits.

(** A call that was refused. *)
Definition refused {V E : Type} (c : Completion V E) : bool :=
  match c with
  | ThrowOpen => true
  | _ => false
  end.

(** What holds of a breaker between two calls. *)
Definition consistent (b : t) : Prop :=
  match state b with
  | CLOSED => failures b < failureThreshold b
  | OPEN => failureThreshold b <= failures b /\ is_Some (nextAttempt b)
  | HALF_OPEN =>
      successCount b < 3
      /\ (failures b < failureThreshold b \/ successCount b = 0)
  end.

End CircuitBreaker.

(** ** More sample inputs *)

Module MoreSamples.
Import ErrorUtils.

(** An operation that always succeeds, and one that succeeds once. *)
Definition alwaysSunny (k : nat) : Settled json JsError :=
  Resolved (JStr "sunny").

Definition sunnyOnce (k : nat) : Settled json JsError :=
  match k with
  | 0%nat => Resolved (JStr "sunny")
  | _ => Rejected Samples.notFound
  end.

(** A new breaker with the default options, and a breaker that five
    failures have opened, the last at time 1000. *)
Definition newBreaker : CircuitBreaker.World :=
  {| CircuitBreaker.breaker := CircuitBreaker.constructor None None;
     CircuitBreaker.invocations := 0 |}.

Definition openBreaker : CircuitBreaker.World :=
  {| CircuitBreaker.breaker :=
       {| CircuitBreaker.failureThreshold := 5;
          CircuitBreaker.resetTimeout := 60000;
          CircuitBreaker.state := CircuitBreaker.OPEN;
          CircuitBreaker.failures := 5;
          CircuitBreaker.nextAttempt := Some 61000;
          CircuitBreaker.successCount := 0;
          CircuitBreaker.monitored := [(CircuitBreaker.OPEN, 5)] |};
     CircuitBreaker.invocations := 5 |}.

(** The error of the Geolocation API for a permission that was
    denied. *)
Definition permissionDenied : ErrorHandling.Thrown :=
  {| ErrorHandling.name := Some "GeolocationPositionError"%string;
     ErrorHandling.message := Some "User denied Geolocation"%string;
     ErrorHandling.code := Some (ErrorHandling.CodeNumber 1);
     ErrorHandling.status := None;
     ErrorHandling.toString := "[object GeolocationPositionError]" |}.

(** An operation that fails with that error, and the times of a log:
    online, at time 1000. *)
Definition alwaysDenied (k : nat) : Settled json (option ErrorHandling.Thrown) :=
  Rejected (Some permissionDenied).

Definition onlineAt1000 (attempt : Z) : bool * Z := (true, 1000).

(** [Samples.flaky], throwing the same errors as values. *)
Definition flakyThrown (k : nat) : Settled json (option ErrorHandling.Thrown) :=
  match Samples.flaky k with
  | Resolved v => Resolved v
  | Rejected e => Rejected (Some (ErrorHandling.ofJsError e))
  end.

Definition freshWithLogger : ErrorHandling.RetryWorld :=
  {| ErrorHandling.invocations := 0; ErrorHandling.waits := [];
     ErrorHandling.logger := ErrorHandling.constructor None |}.

(** The 404 of [Samples.notFound] as a value, and an operation that
    always fails with it. *)
Definition notFoundThrown : ErrorHandling.Thrown :=
  ErrorHandling.ofJsError Samples.notFound.

Definition alwaysNotFoundThrown (k : nat)
    : Settled json (option ErrorHandling.Thrown) :=
  Rejected (Some notFoundThrown).

(** A predicate that accepts what is worth a retry: no status (network
    failure, timeout), 429, or a 5xx. *)
Definition transientOnlyThrown (e : option ErrorHandling.Thrown) : bool :=
  match e with
  | Some thrown =>
      match ErrorHandling.status thrown with
      | None => true
      | Some s => (s =? 429) || (500 <=? s)
      end
  | None => true
  end.

(** The [DOMException] of a [fetch] that was aborted by its timeout: its
    [code] is the number 20. An operation that times out twice and then
    succeeds, and one that always times out. *)
Definition timedOut : ErrorHandling.Thrown :=
  {| ErrorHandling.name := Some "AbortError"%string;
     ErrorHandling.message := Some "The user aborted a request."%string;
     ErrorHandling.code := Some (ErrorHandling.CodeNumber 20);
     ErrorHandling.status := None;
     ErrorHandling.toString := "AbortError: The user aborted a request." |}.

Definition timesOutTwice (k : nat)
    : Settled json (option ErrorHandling.Thrown) :=
  match k with
  | 0%nat | 1%nat => Rejected (Some timedOut)
  | _ => Resolved (JStr "sunny")
  end.

Definition alwaysTimesOut (k : nat)
    : Settled json (option ErrorHandling.Thrown) :=
  Rejected (Some timedOut).

(** Entries written at time 1000: the weather under [k], with the ten
    minutes of its type; the weather under [old], with 5 ms to live; a
    setting; and the weather under a key that has the name of its type in
    it. *)
Definition live : CacheService.Entry.t :=
  CacheService.cacheEntry Samples.stringify "k" (JStr "v") "weather" None 1000.

Definition stale : CacheService.Entry.t :=
  CacheService.cacheEntry Samples.stringify "old" (JStr "w") "weather"
    (Some (Fin 5)) 1000.

Definition theme : CacheService.Entry.t :=
  CacheService.cacheEntry Samples.stringify "theme" (JStr "dark") "settings"
    None 1000.

Definition paris : CacheService.Entry.t :=
  CacheService.cacheEntry Samples.stringify "weather_paris" (JStr "rain")
    "weather" None 1000.

(** The service on a database that holds the first three, next to an
    item of [localStorage] that is not the cache's. *)
Definition stockedStores : gmap string (gmap string CacheService.Entry.t) :=
  <["weather-data"%string := {[ "k"%string := live; "old"%string := stale ]}]>
    (<["app-settings"%string := {[ "theme"%string := theme ]}]>
       (CacheService.createObjectStores ∅)).

Definition stocked : CacheService.State :=
  {| CacheService.db := Some stockedStores;
     CacheService.useLocalStorage := false;
     CacheService.isReady := true;
     CacheService.localStorage :=
       {[ "theme"%string := CacheService.Corrupt "dark" ]};
     CacheService.faults := [] |}.

(** The service on [localStorage], which holds the three weather
    entries, an item under a key of the cache that does not parse, and
    the item that is not the cache's. *)
Definition stockedFallback : CacheService.State :=
  {| CacheService.db := None;
     CacheService.useLocalStorage := true;
     CacheService.isReady := true;
     CacheService.localStorage :=
       {[ "cache_k"%string := CacheService.Stringified live;
          "cache_old"%string := CacheService.Stringified stale;
          "cache_weather_paris"%string := CacheService.Stringified paris;
          "cache_bad"%string := CacheService.Corrupt "{";
          "theme"%string := CacheService.Corrupt "dark" ]};
     CacheService.faults := [] |}.

(** A logger that has logged the 404 a hundred times. *)
Definition full : ErrorHandling.Logger :=
  Nat.iter 100
    (fun lg =>
       default lg
         (ErrorHandling.log true 1000 (Some notFoundThrown) JNull "error" lg))
    (ErrorHandling.constructor None).

(** The options of the schedule: three retries, 1000 ms, doubled. *)
Definition threeRetries : Options (option ErrorHandling.Thrown) :=
  {| retries := Some 3; delay := Some 1000; backoff := Some 2;
     condition := None |}.

End MoreSamples.

(** * Properties *)

(** ** The cache service on IndexedDB *)

Section CacheOnIndexedDB.
Import CacheService.
Variable JSON_stringify : json -> string.

Lemma with_faults_nil (st : State) : faults st = [] -> with_faults [] st = st.
Proof. destruct st; simpl; intros ->; reflexivity. Qed.

Lemma with_db_same (d : gmap string (gmap string Entry.t)) (st : State) :
  db st = Some d -> with_db (Some d) st = st.
Proof. destruct st; simpl; intros ->; reflexivity. Qed.

Lemma getStore_is_a_store (type : string) : In (getStore type) storeNames.
Proof.
  unfold getStore, stores, storeNames. cbn [prop map snd].
  repeat (destruct (String.eqb _ type); [simpl; auto 10|]).
  simpl; auto 10.
Qed.

(** Every type other than ["weather"], ["locations"], ["images"] and
    ["settings"] is kept in the store of ["weather"]. *)
Lemma getStore_unlisted (type : string) :
  prop stores type = None -> getStore type = getStore "weather".
Proof. unfold getStore. intros ->. reflexivity. Qed.

(** A transaction on a healthy database runs its request on the store. *)
Lemma transaction_runs {A : Type} (d : gmap string (gmap string Entry.t))
    (st : State) (name : string) (os os' : gmap string Entry.t) (a : A)
    (op : gmap string Entry.t -> A * gmap string Entry.t) :
  onIndexedDB d st -> d !! name = Some os -> op os = (a, os') ->
  transaction name op st = Some (Some a, with_db (Some (<[name := os']> d)) st).
Proof.
  intros (Hready & Hfb & Hdb & Hfaults & Hstores) Hos Hop.
  unfold transaction. rewrite Hfaults. simpl tail.
  rewrite (with_faults_nil st Hfaults), Hdb, Hos, Hop. reflexivity.
Qed.

Lemma transaction_reads {A : Type} (d : gmap string (gmap string Entry.t))
    (st : State) (name : string) (os : gmap string Entry.t) (a : A)
    (op : gmap string Entry.t -> A * gmap string Entry.t) :
  onIndexedDB d st -> d !! name = Some os -> op os = (a, os) ->
  transaction name op st = Some (Some a, st).
Proof.
  intros Hst Hos Hop. rewrite (transaction_runs d st name os os a op Hst Hos Hop).
  rewrite (insert_id d name os Hos).
  destruct Hst as (_ & _ & Hdb & _). rewrite (with_db_same d st Hdb). reflexivity.
Qed.

Lemma onIndexedDB_with_db (d : gmap string (gmap string Entry.t)) (st : State)
    (name : string) (os : gmap string Entry.t) :
  onIndexedDB d st ->
  onIndexedDB (<[name := os]> d) (with_db (Some (<[name := os]> d)) st).
Proof.
  intros (Hready & Hfb & Hdb & Hfaults & Hstores).
  repeat split; try assumption.
  intros n Hn. destruct (decide (name = n)) as [->|Hne].
  - rewrite lookup_insert_eq. eauto.
  - rewrite lookup_insert_ne by assumption. auto.
Qed.

(** [set] on IndexedDB puts the entry in the store of its type, under its
    key. *)
Lemma set_on_IndexedDB (d : gmap string (gmap string Entry.t)) (st : State)
    (key : string) (v : json) (type : string) (customTTL : option num) (now : Z) :
  onIndexedDB d st ->
  exists os,
    d !! getStore type = Some os
    /\ set JSON_stringify key v type customTTL now st
       = Some (tt, with_db
                     (Some (<[getStore type :=
                              <[key := cacheEntry JSON_stringify key v type customTTL now]> os]> d))
                     st).
Proof.
  intros Hst.
  pose proof Hst as (Hready & Hfb & Hdb & Hfaults & Hstores).
  destruct (Hstores (getStore type) (getStore_is_a_store type)) as [os Hos].
  exists os. split; [assumption|].
  unfold set, bind, waitForReady, reads. rewrite Hready, Hfb.
  erewrite transaction_runs; [reflexivity | eassumption | eassumption | reflexivity].
Qed.

(** [get] on IndexedDB: a miss, a lazy eviction, or a hit. *)
Lemma get_on_IndexedDB (d : gmap string (gmap string Entry.t)) (st : State)
    (key type : string) (now : Z) (os : gmap string Entry.t) :
  onIndexedDB d st -> d !! getStore type = Some os ->
  get key type now st
  = match os !! key with
    | None => Some (JNull, st)
    | Some e =>
        if isExpired now e then
          Some (JNull, with_db (Some (<[getStore type := base.delete key os]> d)) st)
        else Some (Entry.data e, st)
    end.
Proof.
  intros Hst Hos. pose proof Hst as (Hready & Hfb & Hdb & Hfaults & Hstores).
  unfold get, bind, waitForReady, reads. rewrite Hready, Hfb.
  rewrite (transaction_reads d st (getStore type) os (os !! key) (getRequest key)
             Hst Hos eq_refl).
  destruct (os !! key) as [e|]; [|reflexivity].
  destruct (isExpired now e); [|reflexivity].
  unfold delete, bind, waitForReady, reads. rewrite Hready, Hfb.
  rewrite (transaction_runs d st (getStore type) os (base.delete key os) tt
             (deleteRequest key) Hst Hos eq_refl).
  reflexivity.
Qed.

End CacheOnIndexedDB.

(** ** Initialisation *)

Section Initialisation.
Import CacheService.

Lemma createObjectStores_keeps (names : list string) :
  forall (d : gmap string (gmap string Entry.t)) (name : string),
    is_Some (d !! name) ->
    is_Some (foldl (fun d storeName =>
                      match d !! storeName with
                      | Some _ => d
                      | None => <[storeName := ∅]> d
                      end) d names !! name).
Proof.
  induction names as [|n rest IH]; intros d name Hin; [exact Hin|].
  simpl. apply IH. destruct (d !! n) eqn:Hn; [exact Hin|].
  destruct (decide (n = name)) as [->|Hne].
  - rewrite lookup_insert_eq. eauto.
  - rewrite lookup_insert_ne by exact Hne. exact Hin.
Qed.

Lemma createObjectStores_adds (names : list string) :
  forall (d : gmap string (gmap string Entry.t)) (name : string),
    In name names ->
    is_Some (foldl (fun d storeName =>
                      match d !! storeName with
                      | Some _ => d
                      | None => <[storeName := ∅]> d
                      end) d names !! name).
Proof.
  induction names as [|n rest IH]; intros d name Hin; [destruct Hin|].
  simpl. destruct Hin as [->|Hin]; [|apply IH; exact Hin].
  apply createObjectStores_keeps.
  destruct (d !! name) eqn:Hn; [eauto|]. rewrite lookup_insert_eq. eauto.
Qed.

(** After [onupgradeneeded] the database has every store of
    [this.stores]. *)
Lemma createObjectStores_has_stores (d : gmap string (gmap string Entry.t))
    (name : string) :
  In name storeNames -> is_Some (createObjectStores d !! name).
Proof. apply createObjectStores_adds. Qed.

End Initialisation.

(** ** Time to live *)

Section TimeToLive.
Import CacheService.
Variable JSON_stringify : json -> string.

(** The defaults of the table are [Infinity] or above zero. *)
Lemma expirationTimes_values (type : string) (n : num) :
  prop expirationTimes type = Some n ->
  n = Infinity \/ exists m, n = Fin m /\ 0 < m.
Proof.
  unfold expirationTimes, expirationTimes_weather. cbn [prop].
  repeat (destruct (String.eqb _ type);
          [intros [= <-]; first [left; reflexivity | right; eexists; split; [reflexivity | lia]]|]).
  discriminate.
Qed.

Lemma chooseTTL_default (type : string) (customTTL : option num) :
  isFalsy customTTL = true ->
  chooseTTL type customTTL
  = default expirationTimes_weather (prop expirationTimes type).
Proof.
  intros Hfalsy. unfold chooseTTL.
  assert (or_else customTTL (prop expirationTimes type) = prop expirationTimes type)
    as ->.
  { destruct customTTL as [n|]; [|reflexivity]. simpl in Hfalsy. simpl.
    destruct (truthy n); [discriminate | reflexivity]. }
  destruct (prop expirationTimes type) as [n|] eqn:Hn; [|reflexivity].
  destruct (expirationTimes_values type n Hn) as [->|(m & -> & Hm)];
    [reflexivity|].
  simpl. destruct m; [lia | reflexivity | reflexivity].
Qed.

Lemma chooseTTL_custom (type : string) (n : num) :
  truthy n = true -> chooseTTL type (Some n) = n.
Proof. intros H. unfold chooseTTL. simpl. rewrite H. rewrite H. reflexivity. Qed.


(** A [customTTL] that is not below zero gives a time to live above
    zero. *)
Lemma chooseTTL_positive (type : string) (customTTL : option num) :
  isNegative customTTL = false ->
  chooseTTL type customTTL = Infinity
  \/ exists m, chooseTTL type customTTL = Fin m /\ 0 < m.
Proof.
  intros Hsign. destruct (isFalsy customTTL) eqn:Hfalsy.
  - rewrite chooseTTL_default by assumption.
    destruct (prop expirationTimes type) as [n|] eqn:Hn.
    + exact (expirationTimes_values type n Hn).
    + right. exists (10 * 60 * 1000). split; [reflexivity | lia].
  - destruct customTTL as [n|]; [|discriminate]. simpl in Hfalsy.
    rewrite chooseTTL_custom by (destruct (truthy n); [reflexivity | discriminate]).
    destruct n as [m|]; [|left; reflexivity].
    right. exists m. split; [reflexivity|].
    simpl in Hsign. apply Z.ltb_ge in Hsign.
    destruct m; [discriminate | lia | lia].
Qed.

(** An entry written with a [customTTL] that is not below zero is not
    expired at the time it is written. *)
Lemma cacheEntry_live_when_written (key : string) (v : json) (type : string)
    (customTTL : option num) (now : Z) :
  isNegative customTTL = false ->
  isExpired now (cacheEntry JSON_stringify key v type customTTL now) = false.
Proof.
  intros Hsign. unfold isExpired, cacheEntry. cbn [Entry.expires].
  destruct (chooseTTL_positive type customTTL Hsign) as [->|(m & -> & Hm)];
    simpl; [reflexivity | apply Z.ltb_ge; lia].
Qed.



End TimeToLive.



(** ** The sweep *)

Section SweepProperties.
Import CacheService.
Context {A : Type}.
Variable doomed : string -> A -> bool.

(** The loop of the sweep, started on any map [m0] and run over [m]:
    it counts the doomed records of [m] and takes them out of [m0]. *)
Lemma sweep_from (m0 m : gmap string A) :
  map_fold (fun k x '(cleaned, m') =>
              if doomed k x then (cleaned + 1, base.delete k m')
              else (cleaned, m'))
           (0, m0) m
  = (Z.of_nat (size (filter (fun kv => doomed kv.1 kv.2 = true) m)),
     m0 ∖ filter (fun kv => doomed kv.1 kv.2 = true) m).
Proof.
  revert m.
  apply (map_fold_weak_ind
           (fun r m =>
              r = (Z.of_nat (size (filter (fun kv => doomed kv.1 kv.2 = true) m)),
                   m0 ∖ filter (fun kv => doomed kv.1 kv.2 = true) m))).
  - rewrite map_filter_empty, map_size_empty, map_difference_empty. reflexivity.
  - intros i x m r Hfresh ->.
    destruct (doomed i x) eqn:Hd.
    + rewrite map_filter_insert_True by exact Hd.
      rewrite map_size_insert_None
        by (apply map_lookup_filter_None; left; exact Hfresh).
      f_equal; [lia|].
      apply map_eq. intros j. rewrite lookup_difference.
      destruct (decide (i = j)) as [->|Hne].
      * rewrite lookup_insert_eq, lookup_delete_eq. reflexivity.
      * rewrite lookup_insert_ne, lookup_delete_ne by exact Hne.
        rewrite lookup_difference. reflexivity.
    + rewrite map_filter_insert_False by (simpl; rewrite Hd; discriminate).
      rewrite delete_id by exact Hfresh. reflexivity.
Qed.

(** The sweep deletes exactly the doomed records and returns how many
    they were. *)
Lemma sweep_spec (m : gmap string A) :
  sweep doomed m
  = (Z.of_nat (size (filter (fun kv => doomed kv.1 kv.2 = true) m)),
     filter (fun kv => doomed kv.1 kv.2 = false) m).
Proof.
  unfold sweep. rewrite sweep_from. f_equal.
  apply map_eq. intros i. rewrite lookup_difference, !map_lookup_filter.
  destruct (m !! i) as [x|]; simpl; [|reflexivity].
  destruct (doomed i x) eqn:Hd.
  - rewrite option_guard_True by reflexivity.
    rewrite option_guard_False by discriminate. reflexivity.
  - rewrite option_guard_False by discriminate.
    rewrite option_guard_True by reflexivity. reflexivity.
Qed.

Lemma nothing_doomed_after_sweep (m : gmap string A) :
  filter (fun kv => doomed kv.1 kv.2 = true)
    (filter (fun kv => doomed kv.1 kv.2 = false) m) = ∅.
Proof.
  apply map_empty. intros i. rewrite !map_lookup_filter.
  destruct (m !! i) as [x|]; simpl; [|reflexivity].
  destruct (doomed i x) eqn:Hd.
  - rewrite option_guard_False by discriminate. reflexivity.
  - rewrite option_guard_True by reflexivity. simpl.
    rewrite option_guard_False by (rewrite Hd; discriminate). reflexivity.
Qed.

(** A second sweep finds nothing to delete. *)
Lemma sweep_again (m : gmap string A) :
  sweep doomed (sweep doomed m).2 = (0, (sweep doomed m).2).
Proof.
  rewrite (sweep_spec m). simpl. rewrite sweep_spec.
  rewrite nothing_doomed_after_sweep, map_size_empty. f_equal.
  apply map_filter_id. intros i x Hx. apply map_lookup_filter_Some in Hx.
  destruct Hx as [_ Hx]. exact Hx.
Qed.

End SweepProperties.

(** ** Cleanup *)

Section CleanupProperties.
Import CacheService.

Lemma expiredCount_liveOnly (now : Z) (os : gmap string Entry.t) :
  expiredCount now (liveOnly now os) = 0.
Proof.
  unfold expiredCount, liveOnly.
  rewrite (nothing_doomed_after_sweep (fun _ e => isExpired now e) os).
  rewrite map_size_empty. reflexivity.
Qed.

Lemma cleanupStore_on_IndexedDB (d : gmap string (gmap string Entry.t))
    (st : State) (name : string) (os : gmap string Entry.t) (now : Z) :
  onIndexedDB d st -> d !! name = Some os ->
  cleanupStore name now st
  = Some (Some (expiredCount now os),
          with_db (Some (<[name := liveOnly now os]> d)) st).
Proof.
  intros Hst Hos. unfold cleanupStore.
  apply (transaction_runs d st name os (liveOnly now os)); [assumption..|].
  apply (sweep_spec (fun _ e => isExpired now e)).
Qed.

Lemma expiredIn_ext (names : list string) (now : Z)
    (d d' : gmap string (gmap string Entry.t)) :
  (forall n, In n names -> d' !! n = d !! n) ->
  expiredIn names now d' = expiredIn names now d.
Proof.
  induction names as [|name rest IH]; intros Hsame; [reflexivity|].
  simpl. rewrite (Hsame name) by (left; reflexivity).
  rewrite IH; [reflexivity|]. intros n Hn. apply Hsame. right. exact Hn.
Qed.

Lemma expiredIn_swept (names : list string) (now : Z)
    (d d' : gmap string (gmap string Entry.t)) :
  (forall n, In n names -> d' !! n = liveOnly now <$> d !! n) ->
  expiredIn names now d' = 0.
Proof.
  induction names as [|name rest IH]; intros Hswept; [reflexivity|].
  simpl. rewrite (Hswept name) by (left; reflexivity).
  rewrite IH by (intros n Hn; apply Hswept; right; exact Hn).
  destruct (d !! name) as [os|]; simpl.
  - rewrite expiredCount_liveOnly. reflexivity.
  - unfold expiredCount. rewrite map_filter_empty, map_size_empty. reflexivity.
Qed.

(** The loop over the stores: every store named is left with its live
    entries only, the others are not touched, and [totalCleaned] grows by
    the number of entries that were expired. *)
Lemma cleanupStores_on_IndexedDB (now : Z) :
  forall (names : list string), NoDup names ->
    (forall n, In n names -> In n storeNames) ->
    forall (d : gmap string (gmap string Entry.t)) (st : State) (total : Z),
      onIndexedDB d st ->
      exists d' st',
        cleanupStores names now total st
        = Some (Some (total + expiredIn names now d), st')
        /\ onIndexedDB d' st'
        /\ (forall n, In n names -> d' !! n = liveOnly now <$> d !! n)
        /\ (forall n, ~ In n names -> d' !! n = d !! n).
Proof.
  induction names as [|name rest IH]; intros Hnodup Hnames d st total Hst.
  - exists d, st. simpl. unfold ret. rewrite Z.add_0_r.
    split; [reflexivity|]. split; [exact Hst|]. split; [intros n []|reflexivity].
  - apply NoDup_cons in Hnodup as [Hfresh Hnodup].
    pose proof Hst as (_ & _ & _ & _ & Hstores).
    destruct (Hstores name (Hnames name (or_introl eq_refl))) as [os Hos].
    destruct (IH Hnodup (fun n Hn => Hnames n (or_intror Hn))
                (<[name := liveOnly now os]> d)
                (with_db (Some (<[name := liveOnly now os]> d)) st)
                (total + expiredCount now os)
                (onIndexedDB_with_db d st name (liveOnly now os) Hst))
      as (d' & st' & Hrun & Hst' & Hswept & Hkept).
    exists d', st'. split; [|split; [exact Hst'|split]].
    + cbn [cleanupStores]. unfold bind at 1.
      rewrite (cleanupStore_on_IndexedDB d st name os now Hst Hos).
      rewrite Hrun. do 3 f_equal. cbn [expiredIn foldr].
      rewrite Hos. simpl default.
      fold (expiredIn rest now (<[name := liveOnly now os]> d)).
      fold (expiredIn rest now d).
      rewrite (expiredIn_ext rest now d (<[name := liveOnly now os]> d)); [lia|].
      intros n Hn. apply lookup_insert_ne. intros ->.
      apply Hfresh. apply list_elem_of_In. exact Hn.
    + intros n [<-|Hn].
      * rewrite Hkept by (intros Hin; apply Hfresh; apply list_elem_of_In; exact Hin).
        rewrite lookup_insert_eq, Hos. reflexivity.
      * rewrite (Hswept n Hn). rewrite lookup_insert_ne; [reflexivity|].
        intros ->. apply Hfresh. apply list_elem_of_In. exact Hn.
    + intros n Hn. rewrite Hkept by (intros Hin; apply Hn; right; exact Hin).
      apply lookup_insert_ne. intros ->. apply Hn. left. reflexivity.
Qed.

Lemma storeNames_NoDup : NoDup storeNames.
Proof.
  unfold storeNames, stores. simpl. compute_done.
Qed.

(** On IndexedDB the sweep over all stores deletes exactly the expired
    entries and counts them, and a second sweep at the same time counts
    none; but the call itself has no value: [cleanupExpiredEntries]
    returns [undefined], the first time and the second. *)
Lemma cleanup_on_IndexedDB (d : gmap string (gmap string Entry.t))
    (st : State) (now : Z) :
  onIndexedDB d st ->
  exists d1 st1 st2,
    cleanupStores storeNames now 0 st = Some (Some (expiredIn storeNames now d), st1)
    /\ onIndexedDB d1 st1
    /\ (forall n, In n storeNames -> d1 !! n = liveOnly now <$> d !! n)
    /\ cleanupStores storeNames now 0 st1 = Some (Some 0, st2)
    /\ cleanupExpiredEntries now st = Some (None, st1)
    /\ cleanupExpiredEntries now st1 = Some (None, st2).
Proof.
  intros Hst.
  destruct (cleanupStores_on_IndexedDB now storeNames storeNames_NoDup
              (fun n Hn => Hn) d st 0 Hst)
    as (d1 & st1 & Hrun1 & Hst1 & Hswept & _).
  destruct (cleanupStores_on_IndexedDB now storeNames storeNames_NoDup
              (fun n Hn => Hn) d1 st1 0 Hst1)
    as (d2 & st2 & Hrun2 & Hst2 & _ & _).
  rewrite (expiredIn_swept storeNames now d d1 Hswept) in Hrun2.
  rewrite Z.add_0_l in Hrun1. rewrite Z.add_0_l in Hrun2.
  exists d1, st1, st2.
  split; [exact Hrun1|]. split; [exact Hst1|]. split; [exact Hswept|].
  split; [exact Hrun2|]. split.
  - unfold cleanupExpiredEntries, bind, waitForReady, reads.
    destruct Hst as (-> & -> & _). rewrite Hrun1. reflexivity.
  - unfold cleanupExpiredEntries, bind, waitForReady, reads.
    destruct Hst1 as (-> & -> & _). rewrite Hrun2. reflexivity.
Qed.

Lemma cleanupExpiredEntries_on_localStorage (st : State) (now : Z) :
  onLocalStorage st ->
  cleanupExpiredEntries now st
  = Some (Some (sweep (doomedItem now) (localStorage st)).1,
          with_localStorage (sweep (doomedItem now) (localStorage st)).2 st).
Proof.
  intros (Hready & Hfb).
  unfold cleanupExpiredEntries, cleanupLocalStorage, bind, waitForReady, reads,
    modify, ret.
  rewrite Hready, Hfb.
  destruct (sweep (doomedItem now) (localStorage st)) as [cleaned ls'].
  reflexivity.
Qed.

(** On [localStorage] the call returns the number of items it removed,
    and a second call at the same time returns [0] and changes
    nothing. *)
Lemma cleanup_on_localStorage (st : State) (now : Z) :
  onLocalStorage st ->
  exists cleaned st1,
    cleanupExpiredEntries now st = Some (Some cleaned, st1)
    /\ cleaned
       = Z.of_nat (size (filter (fun kv => doomedItem now kv.1 kv.2 = true)
                           (localStorage st)))
    /\ localStorage st1
       = filter (fun kv => doomedItem now kv.1 kv.2 = false) (localStorage st)
    /\ cleanupExpiredEntries now st1 = Some (Some 0, st1).
Proof.
  intros Hst.
  exists (sweep (doomedItem now) (localStorage st)).1,
         (with_localStorage (sweep (doomedItem now) (localStorage st)).2 st).
  split; [apply cleanupExpiredEntries_on_localStorage; exact Hst|].
  split; [rewrite sweep_spec; reflexivity|].
  split; [rewrite sweep_spec; reflexivity|].
  rewrite cleanupExpiredEntries_on_localStorage
    by (destruct Hst as (Hready & Hfb); split; assumption).
  cbn [localStorage with_localStorage]. rewrite sweep_again. reflexivity.
Qed.

(** When [indexedDB.open] succeeds on a new database, [init] ends with
    the service ready on IndexedDB. *)
Lemma init_on_new_database (onDisk : gmap string (gmap string Entry.t))
    (ls : gmap string item) (now : Z) :
  exists d st,
    init (OpenSuccess true onDisk) now (constructed ls []) = Some (tt, st)
    /\ onIndexedDB d st.
Proof.
  assert (onIndexedDB (createObjectStores onDisk)
            {| db := Some (createObjectStores onDisk); useLocalStorage := false;
               isReady := true; localStorage := ls; faults := [] |}) as Hst.
  { repeat split. intros name Hname.
    apply createObjectStores_has_stores. exact Hname. }
  destruct (cleanup_on_IndexedDB _ _ now Hst)
    as (d1 & st1 & st2 & _ & Hst1 & _ & _ & Hclean & _).
  exists d1, st1. split; [|exact Hst1].
  change (init (OpenSuccess true onDisk) now (constructed ls []))
    with (bind (cleanupExpiredEntries now) (fun _ => ret tt)
            {| db := Some (createObjectStores onDisk); useLocalStorage := false;
               isReady := true; localStorage := ls; faults := [] |}).
  unfold bind. rewrite Hclean. reflexivity.
Qed.

End CleanupProperties.

(** C7 at a failing input. One entry is written at time 1000 with the 10
    minutes of its type and the cleanup runs at time 700000, when the
    entry is expired. On IndexedDB the entry is deleted, but the call
    returns [undefined] where the specification has the number 1, and a
    second call returns [undefined] where the specification has 0. On
    [localStorage] the same calls return 1 and 0. *)
Theorem C7_cleanup_returns_undefined_on_IndexedDB :
  let written :=
    CacheService.set Samples.stringify "k" (JStr "v") "weather" None 1000 in
  let once :=
    CacheService.bind written
      (fun _ => CacheService.cleanupExpiredEntries 700000) in
  let twice :=
    CacheService.bind written
      (fun _ => CacheService.bind (CacheService.cleanupExpiredEntries 700000)
                  (fun _ => CacheService.cleanupExpiredEntries 700000)) in
  option_map fst (once Samples.onNewDatabase) = Some None
  /\ option_map fst (twice Samples.onNewDatabase) = Some None
  /\ option_map fst
       (CacheService.bind once (fun _ => CacheService.get "k" "weather" 1000)
          Samples.onNewDatabase)
     = Some JNull
  /\ option_map fst (once Samples.afterOpenError) = Some (Some 1)
  /\ option_map fst (twice Samples.afterOpenError) = Some (Some 0).
Proof. repeat split; vm_compute; reflexivity. Qed.

(** ** Reading back what was written, on IndexedDB *)

Section ReadBackOnIndexedDB.
Import CacheService.
Variable JSON_stringify : json -> string.

(** A [get] at the time of the [set] returns the value written. *)
Lemma get_after_set_on_IndexedDB (d : gmap string (gmap string Entry.t))
    (st : State) (key : string) (v : json) (type : string)
    (customTTL : option num) (now : Z) :
  onIndexedDB d st -> isNegative customTTL = false ->
  exists st1,
    set JSON_stringify key v type customTTL now st = Some (tt, st1)
    /\ get key type now st1 = Some (v, st1).
Proof.
  intros Hst Hsign.
  destruct (set_on_IndexedDB JSON_stringify d st key v type customTTL now Hst)
    as (os & Hos & Hset).
  eexists. split; [exact Hset|].
  erewrite get_on_IndexedDB;
    [| apply onIndexedDB_with_db; exact Hst | apply lookup_insert_eq].
  rewrite lookup_insert_eq.
  rewrite (cacheEntry_live_when_written JSON_stringify) by exact Hsign.
  reflexivity.
Qed.

(** A [get] after the expiry returns [null] and deletes the entry: the
    store of the type has no entry under the key any more, and it has
    one entry fewer. *)
Lemma get_after_expiry_on_IndexedDB (d : gmap string (gmap string Entry.t))
    (st : State) (key : string) (v : json) (type : string)
    (customTTL : option num) (now later t : Z) :
  onIndexedDB d st ->
  Entry.expires (cacheEntry JSON_stringify key v type customTTL now) = At t ->
  t < later ->
  exists st1 d1 os1 st2 d2 os2,
    set JSON_stringify key v type customTTL now st = Some (tt, st1)
    /\ onIndexedDB d1 st1 /\ d1 !! getStore type = Some os1
    /\ get key type later st1 = Some (JNull, st2)
    /\ onIndexedDB d2 st2 /\ d2 !! getStore type = Some os2
    /\ d2 = <[getStore type := os2]> d1
    /\ os2 !! key = None
    /\ size os1 = S (size os2)
    /\ get key type later st2 = Some (JNull, st2).
Proof.
  intros Hst Hexp Hlater.
  destruct (set_on_IndexedDB JSON_stringify d st key v type customTTL now Hst)
    as (os & Hos & Hset).
  set (e := cacheEntry JSON_stringify key v type customTTL now) in *.
  set (os1 := <[key := e]> os) in *.
  set (d1 := <[getStore type := os1]> d) in *.
  set (st1 := with_db (Some d1) st) in *.
  assert (onIndexedDB d1 st1) as Hst1 by (apply onIndexedDB_with_db; exact Hst).
  assert (d1 !! getStore type = Some os1) as Hos1 by apply lookup_insert_eq.
  assert (isExpired later e = true) as Hexpired.
  { unfold isExpired. rewrite Hexp. apply Z.ltb_lt. exact Hlater. }
  set (os2 := base.delete key os1).
  set (d2 := <[getStore type := os2]> d1).
  set (st2 := with_db (Some d2) st1).
  assert (onIndexedDB d2 st2) as Hst2 by (apply onIndexedDB_with_db; exact Hst1).
  assert (d2 !! getStore type = Some os2) as Hos2 by apply lookup_insert_eq.
  exists st1, d1, os1, st2, d2, os2.
  split; [exact Hset|]. split; [exact Hst1|]. split; [exact Hos1|].
  split.
  { rewrite (get_on_IndexedDB d1 st1 key type later os1 Hst1 Hos1).
    unfold os1 at 1. rewrite lookup_insert_eq, Hexpired. reflexivity. }
  split; [exact Hst2|]. split; [exact Hos2|]. split; [reflexivity|].
  split; [apply lookup_delete_eq|].
  split.
  { assert (is_Some (os1 !! key)) as Hin
      by (unfold os1; rewrite lookup_insert_eq; eauto).
    unfold os2. rewrite (map_size_delete_Some key os1 Hin).
    pose proof (map_size_ne_0_lookup_2 os1 key Hin). lia. }
  rewrite (get_on_IndexedDB d2 st2 key type later os2 Hst2 Hos2).
  unfold os2. rewrite lookup_delete_eq. reflexivity.
Qed.

(** The types ["location"], ["forecast"], ["search"], ["image"] and
    ["setting"] of the expiry table are not names in [this.stores]: their
    entries go to the store of ["weather"]. *)
Lemma documented_types_share_one_store :
  getStore "forecast" = getStore "weather"
  /\ getStore "location" = getStore "weather"
  /\ getStore "search" = getStore "weather"
  /\ getStore "image" = getStore "weather"
  /\ getStore "setting" = getStore "weather".
Proof. repeat split; reflexivity. Qed.

(** Two types that share a store share its keys: what is written under
    one type is what is read under the other. *)
Lemma one_store_one_entry_per_key (d : gmap string (gmap string Entry.t))
    (st : State) (key : string) (x y : json) (type1 type2 : string) (now : Z) :
  onIndexedDB d st -> getStore type1 = getStore type2 ->
  exists st1 st2,
    set JSON_stringify key x type1 None now st = Some (tt, st1)
    /\ set JSON_stringify key y type2 None now st1 = Some (tt, st2)
    /\ get key type1 now st2 = Some (y, st2).
Proof.
  intros Hst Hsame.
  destruct (set_on_IndexedDB JSON_stringify d st key x type1 None now Hst)
    as (os & Hos & Hset1).
  eexists.
  destruct (get_after_set_on_IndexedDB _ _ key y type2 None now
              (onIndexedDB_with_db d st (getStore type1)
                 (<[key := cacheEntry JSON_stringify key x type1 None now]> os)
                 Hst) eq_refl)
    as (st2 & Hset2 & Hget).
  exists st2. split; [exact Hset1|]. split; [exact Hset2|].
  unfold get, delete in *. rewrite Hsame. exact Hget.
Qed.

End ReadBackOnIndexedDB.

(** C3 at a failing input. The value [x] is written under key ["a"] with
    type ["weather"], then [y] under the same key with type
    ["location"]. Both types resolve to the store ["weather-data"], so
    the second write replaces the first: the read with type ["weather"]
    returns [y], and after [clearType("weather")] the read with type
    ["location"] returns [null]. *)
Theorem C3_location_and_weather_collide :
  let x := JStr "x" in
  let y := JStr "y" in
  let writes :=
    CacheService.bind
      (CacheService.set Samples.stringify "a" x "weather" None 1000)
      (fun _ => CacheService.set Samples.stringify "a" y "location" None 1000) in
  CacheService.getStore "location" = "weather-data"%string
  /\ option_map fst
       (CacheService.bind writes (fun _ => CacheService.get "a" "weather" 1000)
          Samples.onNewDatabase)
     = Some y
  /\ option_map fst
       (CacheService.bind writes
          (fun _ => CacheService.bind (CacheService.clearType "weather")
                      (fun _ => CacheService.get "a" "location" 1000))
          Samples.onNewDatabase)
     = Some JNull.
Proof. repeat split; vm_compute; reflexivity. Qed.

(** ** Statistics on IndexedDB *)

Section StatsOnIndexedDB.
Import CacheService.
Variable JSON_stringify : json -> string.

(** The cursor of [getStoreStats] counts every entry once, and the
    expired ones as expired. *)
Lemma getStoreStats_counts (now : Z) (os : gmap string Entry.t) :
  let s := map_fold (fun _ e s => countEntry now e s) noStoreStats os in
  StoreStats.entries s = Z.of_nat (size os)
  /\ StoreStats.expired s = expiredCount now os.
Proof.
  unfold expiredCount.
  apply (map_fold_weak_ind
           (fun s m =>
              StoreStats.entries s = Z.of_nat (size m)
              /\ StoreStats.expired s
                 = Z.of_nat (size (filter (fun kv => isExpired now kv.2 = true) m)))).
  - rewrite map_filter_empty, map_size_empty. split; reflexivity.
  - intros i e m s Hfresh [Hentries Hexpired]. cbn [countEntry StoreStats.entries
      StoreStats.expired]. rewrite Hentries, Hexpired.
    rewrite map_size_insert_None by exact Hfresh. split; [lia|].
    destruct (isExpired now e) eqn:He.
    + rewrite map_filter_insert_True by exact He.
      rewrite map_size_insert_None
        by (apply map_lookup_filter_None; left; exact Hfresh).
      lia.
    + rewrite map_filter_insert_False by (simpl; rewrite He; discriminate).
      rewrite delete_id by exact Hfresh. lia.
Qed.

Lemma collectStats_on_IndexedDB (d : gmap string (gmap string Entry.t))
    (st : State) (now : Z) :
  onIndexedDB d st ->
  forall (tbl : list (string * string)) (acc : Stats.t),
    (forall n, In n (map snd tbl) -> In n storeNames) ->
    exists stats,
      collectStats tbl now acc st = Some (stats, st)
      /\ Stats.totalEntries stats
         = Stats.totalEntries acc + entriesIn (map snd tbl) d
      /\ Stats.expiredEntries stats
         = Stats.expiredEntries acc + expiredIn (map snd tbl) now d.
Proof.
  intros Hst. pose proof Hst as (_ & _ & _ & _ & Hstores).
  induction tbl as [|[key name] rest IH]; intros acc Hnames.
  - exists acc. simpl. unfold ret. repeat split; lia.
  - destruct (Hstores name (Hnames name (or_introl eq_refl))) as [os Hos].
    destruct (getStoreStats_counts now os) as [Hentries Hexpired].
    destruct (IH (addStoreStats key
                    (map_fold (fun _ e s => countEntry now e s) noStoreStats os)
                    acc)
                 (fun n Hn => Hnames n (or_intror Hn)))
      as (stats & Hrun & Htotal & Hexp).
    exists stats. split; [|split].
    + cbn [collectStats]. unfold bind at 1. unfold getStoreStats.
      rewrite (transaction_reads d st name os
                 (map_fold (fun _ e s => countEntry now e s) noStoreStats os)
                 (fun os => (map_fold (fun _ e s => countEntry now e s)
                               noStoreStats os, os))
                 Hst Hos eq_refl).
      exact Hrun.
    + rewrite Htotal. cbn [addStoreStats Stats.totalEntries map snd entriesIn foldr].
      rewrite Hentries, Hos. simpl. fold (entriesIn (map snd rest) d). lia.
    + rewrite Hexp. cbn [addStoreStats Stats.expiredEntries map snd expiredIn foldr].
      rewrite Hexpired, Hos. simpl. fold (expiredIn (map snd rest) now d). lia.
Qed.

(** [getStats] changes nothing, and its totals are the numbers of entries
    and of expired entries in the four stores. *)
Lemma getStats_on_IndexedDB (d : gmap string (gmap string Entry.t))
    (st : State) (now : Z) :
  onIndexedDB d st ->
  exists stats,
    getStats JSON_stringify now st = Some (stats, st)
    /\ Stats.totalEntries stats = entriesIn storeNames d
    /\ Stats.expiredEntries stats = expiredIn storeNames now d.
Proof.
  intros Hst.
  destruct (collectStats_on_IndexedDB d st now Hst stores
              {| Stats.stores := []; Stats.totalEntries := 0;
                 Stats.totalSize := 0; Stats.expiredEntries := 0 |}
              (fun n Hn => Hn))
    as (stats & Hrun & Htotal & Hexp).
  exists stats. split; [|split; assumption].
  unfold getStats, bind, waitForReady, reads.
  destruct Hst as (-> & -> & _). exact Hrun.
Qed.

Lemma entriesIn_insert (names : list string) :
  NoDup names ->
  forall (d : gmap string (gmap string Entry.t)) (name : string)
         (os os' : gmap string Entry.t),
    In name names -> d !! name = Some os ->
    entriesIn names (<[name := os']> d)
    = entriesIn names d - Z.of_nat (size os) + Z.of_nat (size os').
Proof.
  assert (forall (names : list string) (d : gmap string (gmap string Entry.t))
                 (name : string) (os' : gmap string Entry.t),
             ~ In name names ->
             entriesIn names (<[name := os']> d) = entriesIn names d) as Hout.
  { induction names0 as [|n rest IH]; intros d name os' Hnot; [reflexivity|].
    simpl. rewrite lookup_insert_ne by (intros ->; apply Hnot; left; reflexivity).
    fold (entriesIn rest (<[name := os']> d)). fold (entriesIn rest d).
    rewrite IH by (intros Hin; apply Hnot; right; exact Hin). reflexivity. }
  induction names as [|n rest IH]; intros Hnodup d name os os' Hin Hos;
    [destruct Hin|].
  apply NoDup_cons in Hnodup as [Hfresh Hnodup].
  simpl. fold (entriesIn rest (<[name := os']> d)). fold (entriesIn rest d).
  destruct Hin as [->|Hin].
  - rewrite lookup_insert_eq, Hos. simpl.
    rewrite Hout by (intros Hin; apply Hfresh; apply list_elem_of_In; exact Hin).
    lia.
  - rewrite lookup_insert_ne
      by (intros ->; apply Hfresh; apply list_elem_of_In; exact Hin).
    rewrite (IH Hnodup d name os os' Hin Hos). lia.
Qed.

End StatsOnIndexedDB.

Section EvictionAndStats.
Import CacheService.
Variable JSON_stringify : json -> string.

(** After the [get] that finds an entry expired, [getStats] counts one
    entry fewer than before it. *)
Lemma stats_after_eviction (d : gmap string (gmap string Entry.t))
    (st : State) (key : string) (v : json) (type : string)
    (customTTL : option num) (now later t : Z) :
  onIndexedDB d st ->
  Entry.expires (cacheEntry JSON_stringify key v type customTTL now) = At t ->
  t < later ->
  exists st1 st2 before after,
    set JSON_stringify key v type customTTL now st = Some (tt, st1)
    /\ getStats JSON_stringify later st1 = Some (before, st1)
    /\ get key type later st1 = Some (JNull, st2)
    /\ getStats JSON_stringify later st2 = Some (after, st2)
    /\ Stats.totalEntries after = Stats.totalEntries before - 1.
Proof.
  intros Hst Hexp Hlater.
  destruct (get_after_expiry_on_IndexedDB JSON_stringify d st key v type
              customTTL now later t Hst Hexp Hlater)
    as (st1 & d1 & os1 & st2 & d2 & os2 & Hset & Hst1 & Hos1 & Hget & Hst2
        & Hos2 & -> & Hgone & Hsize & _).
  destruct (getStats_on_IndexedDB JSON_stringify d1 st1 later Hst1)
    as (before & Hb & Hbt & _).
  destruct (getStats_on_IndexedDB JSON_stringify _ st2 later Hst2)
    as (after & Ha & Hat & _).
  exists st1, st2, before, after.
  split; [exact Hset|]. split; [exact Hb|]. split; [exact Hget|].
  split; [exact Ha|].
  rewrite Hat, Hbt.
  rewrite (entriesIn_insert storeNames storeNames_NoDup d1 (getStore type) os1 os2
             (getStore_is_a_store type) Hos1).
  lia.
Qed.

End EvictionAndStats.

(** ** The cache service on localStorage *)

Section CacheOnLocalStorage.
Import CacheService.
Variable JSON_stringify : json -> string.

(** When [indexedDB.open] fails, [init] ends with the service ready and
    on [localStorage], whose content it leaves as it is. *)
Lemma init_after_open_error (ls : gmap string item) (fs : list bool) (now : Z) :
  init OpenError now (constructed ls fs)
  = Some (tt, {| db := None; useLocalStorage := true; isReady := true;
                 localStorage := ls; faults := fs |}).
Proof. reflexivity. Qed.

Lemma set_on_localStorage (st : State) (key : string) (v : json)
    (type : string) (customTTL : option num) (now : Z) :
  onLocalStorage st ->
  set JSON_stringify key v type customTTL now st
  = setLocalStorage key (cacheEntry JSON_stringify key v type customTTL now) st.
Proof.
  intros (Hready & Hfb). unfold set, bind, waitForReady, reads.
  rewrite Hready, Hfb. reflexivity.
Qed.

Lemma get_on_localStorage (st : State) (key type : string) (now : Z) :
  onLocalStorage st -> get key type now st = getLocalStorage key now st.
Proof.
  intros (Hready & Hfb). unfold get, bind, waitForReady, reads.
  rewrite Hready, Hfb. reflexivity.
Qed.

Lemma delete_on_localStorage (st : State) (key type : string) :
  onLocalStorage st -> delete key type st = deleteLocalStorage key st.
Proof.
  intros (Hready & Hfb). unfold delete, bind, waitForReady, reads.
  rewrite Hready, Hfb. reflexivity.
Qed.

Lemma clearType_on_localStorage (st : State) (type : string) :
  onLocalStorage st -> clearType type st = clearLocalStorageType type st.
Proof.
  intros (Hready & Hfb). unfold clearType, bind, waitForReady, reads.
  rewrite Hready, Hfb. reflexivity.
Qed.

Lemma clearAll_on_localStorage (st : State) :
  onLocalStorage st -> clearAll st = clearAllLocalStorage st.
Proof.
  intros (Hready & Hfb). unfold clearAll, bind, waitForReady, reads.
  rewrite Hready, Hfb. reflexivity.
Qed.

(** What [getLocalStorage] does with the item it finds. *)
Lemma getLocalStorage_found (st : State) (key : string) (now : Z) (e : Entry.t) :
  localStorage st !! cacheKey key = Some (Stringified e) ->
  getLocalStorage key now st
  = if isExpired now (reparse e) then
      Some (JNull,
            with_localStorage (base.delete (cacheKey key) (localStorage st)) st)
    else Some (Entry.data e, st).
Proof.
  intros Hitem. unfold getLocalStorage, bind, reads, modify, ret.
  rewrite Hitem. cbn [JSON_parse].
  destruct (isExpired now (reparse e)); reflexivity.
Qed.

(** With an expiry that is a time, a [get] at the time of the [set]
    returns the value written. *)
Lemma get_after_set_on_localStorage (st : State) (key : string) (v : json)
    (type : string) (customTTL : option num) (now n : Z) :
  onLocalStorage st ->
  chooseTTL type customTTL = Fin n -> 0 <= n ->
  exists st1,
    set JSON_stringify key v type customTTL now st = Some (tt, st1)
    /\ get key type now st1 = Some (v, st1).
Proof.
  intros Hst Httl Hn. rewrite set_on_localStorage by exact Hst.
  eexists. split; [reflexivity|].
  rewrite get_on_localStorage by (destruct Hst; split; assumption).
  erewrite getLocalStorage_found by apply lookup_insert_eq.
  unfold isExpired, reparse, cacheEntry. cbn [Entry.expires Entry.data].
  rewrite Httl. cbn [expiresAt].
  replace (now + n <? now) with false by (symmetry; apply Z.ltb_ge; lia).
  reflexivity.
Qed.

(** With the expiry [Infinity] the entry comes back from [localStorage]
    with the expiry [null], which every time after 0 is later than: the
    [get] at the time of the [set] returns [null] and removes the
    item. *)
Lemma never_expiring_entry_is_lost_on_localStorage (st : State) (key : string)
    (v : json) (type : string) (customTTL : option num) (now : Z) :
  onLocalStorage st ->
  chooseTTL type customTTL = Infinity -> 0 < now ->
  exists st1 st2,
    set JSON_stringify key v type customTTL now st = Some (tt, st1)
    /\ get key type now st1 = Some (JNull, st2)
    /\ localStorage st2 !! cacheKey key = None.
Proof.
  intros Hst Httl Hnow. rewrite set_on_localStorage by exact Hst.
  eexists _, _. split; [reflexivity|].
  rewrite get_on_localStorage by (destruct Hst; split; assumption).
  erewrite getLocalStorage_found by apply lookup_insert_eq.
  unfold isExpired, reparse, cacheEntry. cbn [Entry.expires Entry.data].
  rewrite Httl. cbn [expiresAt].
  replace (0 <? now) with true by (symmetry; apply Z.ltb_lt; lia).
  split; [reflexivity|]. apply lookup_delete_eq.
Qed.

End CacheOnLocalStorage.

(** C1 at a failing input. [indexedDB.open] has failed and the service is
    on [localStorage]. A setting is written, type ["setting"], whose time
    to live is [Infinity]; the [get] that follows at once returns [null]
    where the specification has the value written. The same two calls on
    IndexedDB return the value. *)
Theorem C1_setting_is_lost_on_localStorage :
  let writeThenRead :=
    CacheService.bind
      (CacheService.set Samples.stringify "theme" (JStr "dark") "setting" None 1000)
      (fun _ => CacheService.get "theme" "setting" 1000) in
  CacheService.init CacheService.OpenError 1000
    (CacheService.constructed ∅ [])
  = Some (tt, Samples.afterOpenError)
  /\ option_map fst (writeThenRead Samples.afterOpenError) = Some JNull
  /\ option_map fst (writeThenRead Samples.onNewDatabase) = Some (JStr "dark").
Proof. repeat split; vm_compute; reflexivity. Qed.

(** ** Failures of IndexedDB *)

Section BackendFailures.
Import CacheService.
Variable JSON_stringify : json -> string.

(** A transaction always settles, as a success or as a failure, and
    leaves the flags of the service as they are. *)
Lemma transaction_settles {A : Type} (name : string)
    (op : gmap string Entry.t -> A * gmap string Entry.t) (st : State) :
  exists r st',
    transaction name op st = Some (r, st')
    /\ isReady st' = isReady st
    /\ useLocalStorage st' = useLocalStorage st.
Proof.
  unfold transaction.
  destruct (match faults st with b :: _ => b | [] => false end).
  - eexists _, _. repeat split; reflexivity.
  - cbn [db with_faults].
    destruct (db st) as [d|]; [|eexists _, _; repeat split; reflexivity].
    destruct (d !! name) as [os|]; [|eexists _, _; repeat split; reflexivity].
    destruct (op os) as [a os']. eexists _, _. repeat split; reflexivity.
Qed.

(** A transaction whose failure is due fails. *)
Lemma transaction_fails {A : Type} (name : string)
    (op : gmap string Entry.t -> A * gmap string Entry.t) (st : State)
    (rest : list bool) :
  faults st = true :: rest ->
  transaction name op st = Some (None, with_faults rest st).
Proof. intros Hfaults. unfold transaction. rewrite Hfaults. reflexivity. Qed.

(** Every public method completes once the service is ready, whatever
    IndexedDB does. *)
Lemma set_completes (st : State) (key : string) (v : json) (type : string)
    (customTTL : option num) (now : Z) :
  isReady st = true ->
  is_Some (set JSON_stringify key v type customTTL now st).
Proof.
  intros Hready. unfold set, bind, waitForReady, reads. rewrite Hready.
  destruct (useLocalStorage st); [eexists; reflexivity|].
  destruct (transaction_settles (getStore type)
              (put (cacheEntry JSON_stringify key v type customTTL now)) st)
    as (r & st' & -> & _).
  destruct r; eexists; reflexivity.
Qed.

Lemma delete_completes (st : State) (key type : string) :
  isReady st = true -> is_Some (delete key type st).
Proof.
  intros Hready. unfold delete, bind, waitForReady, reads. rewrite Hready.
  destruct (useLocalStorage st); [eexists; reflexivity|].
  destruct (transaction_settles (getStore type) (deleteRequest key) st)
    as (r & st' & -> & _).
  eexists; reflexivity.
Qed.

Lemma getLocalStorage_completes (st : State) (key : string) (now : Z) :
  is_Some (getLocalStorage key now st).
Proof.
  unfold getLocalStorage, bind, reads, modify, ret.
  destruct (localStorage st !! cacheKey key) as [i|]; [|eexists; reflexivity].
  destruct (JSON_parse i) as [e|]; [|eexists; reflexivity].
  destruct (isExpired now e); eexists; reflexivity.
Qed.

Lemma get_completes (st : State) (key type : string) (now : Z) :
  isReady st = true -> is_Some (get key type now st).
Proof.
  intros Hready. unfold get, bind, waitForReady, reads. rewrite Hready.
  destruct (useLocalStorage st) eqn:Hfb; [apply getLocalStorage_completes|].
  destruct (transaction_settles (getStore type) (getRequest key) st)
    as (r & st' & -> & Hready' & Hfb').
  destruct r as [[e|]|].
  - destruct (isExpired now e); [|eexists; reflexivity].
    destruct (delete_completes st' key type) as [[[] st''] Hdel];
      [congruence|].
    fold (bind (delete key type) (fun _ => ret JNull) st').
    unfold bind. rewrite Hdel. eexists; reflexivity.
  - eexists; reflexivity.
  - apply getLocalStorage_completes.
Qed.

Lemma clearType_completes (st : State) (type : string) :
  isReady st = true -> is_Some (clearType type st).
Proof.
  intros Hready. unfold clearType, bind, waitForReady, reads. rewrite Hready.
  destruct (useLocalStorage st); [eexists; reflexivity|].
  destruct (transaction_settles (getStore type) clear st) as (r & st' & -> & _).
  eexists; reflexivity.
Qed.

Lemma clearStores_completes (names : list string) :
  forall st, is_Some (clearStores names st).
Proof.
  induction names as [|name rest IH]; intros st; [eexists; reflexivity|].
  cbn [clearStores]. unfold bind.
  destruct (transaction_settles name clear st) as (r & st' & -> & _).
  apply IH.
Qed.

Lemma clearAll_completes (st : State) :
  isReady st = true -> is_Some (clearAll st).
Proof.
  intros Hready. unfold clearAll, bind, waitForReady, reads. rewrite Hready.
  destruct (useLocalStorage st); [eexists; reflexivity|].
  apply clearStores_completes.
Qed.

(** What each method does when the database is open and its request
    fails. *)
Lemma set_when_request_fails (st : State) (rest : list bool) (key : string)
    (v : json) (type : string) (customTTL : option num) (now : Z) :
  isReady st = true -> useLocalStorage st = false -> faults st = true :: rest ->
  set JSON_stringify key v type customTTL now st
  = setLocalStorage key (cacheEntry JSON_stringify key v type customTTL now)
      (with_faults rest st).
Proof.
  intros Hready Hfb Hfaults. unfold set, bind, waitForReady, reads.
  rewrite Hready, Hfb, (transaction_fails _ _ st rest Hfaults). reflexivity.
Qed.

Lemma get_when_request_fails (st : State) (rest : list bool) (key type : string)
    (now : Z) :
  isReady st = true -> useLocalStorage st = false -> faults st = true :: rest ->
  get key type now st = getLocalStorage key now (with_faults rest st).
Proof.
  intros Hready Hfb Hfaults. unfold get, bind, waitForReady, reads.
  rewrite Hready, Hfb, (transaction_fails _ _ st rest Hfaults). reflexivity.
Qed.

Lemma delete_when_request_fails (st : State) (rest : list bool)
    (key type : string) :
  isReady st = true -> useLocalStorage st = false -> faults st = true :: rest ->
  delete key type st = Some (tt, with_faults rest st).
Proof.
  intros Hready Hfb Hfaults. unfold delete, bind, waitForReady, reads.
  rewrite Hready, Hfb, (transaction_fails _ _ st rest Hfaults). reflexivity.
Qed.

Lemma clearType_when_request_fails (st : State) (rest : list bool)
    (type : string) :
  isReady st = true -> useLocalStorage st = false -> faults st = true :: rest ->
  clearType type st = Some (tt, with_faults rest st).
Proof.
  intros Hready Hfb Hfaults. unfold clearType, bind, waitForReady, reads.
  rewrite Hready, Hfb, (transaction_fails _ _ st rest Hfaults). reflexivity.
Qed.

(** [clearAll] makes one request per store. A store whose request fails
    is left as it is, every other store is emptied; [localStorage] is
    not touched. *)
Lemma clearStores_with_faults (names : list string) :
  NoDup names ->
  forall (st : State) (d : gmap string (gmap string Entry.t)),
    db st = Some d ->
    (forall name, In name names -> is_Some (d !! name)) ->
    exists d',
      clearStores names st
      = Some (tt, {| db := Some d'; useLocalStorage := useLocalStorage st;
                     isReady := isReady st; localStorage := localStorage st;
                     faults := skipn (length names) (faults st) |})
      /\ (forall (i : nat) (name : string),
             names !! i = Some name ->
             d' !! name = if nth i (faults st) false then d !! name else Some ∅)
      /\ (forall name, ~ In name names -> d' !! name = d !! name).
Proof.
  induction 1 as [|name rest Hfresh Hnodup IH]; intros st d Hdb Hstores.
  - exists d. cbn [clearStores length skipn]. unfold ret. split.
    + destruct st; cbn in *. subst. reflexivity.
    + split; [|reflexivity]. intros i name Hi. destruct i; discriminate.
  - cbn [clearStores]. unfold bind, transaction. cbn [db with_faults].
    rewrite Hdb.
    destruct (Hstores name (or_introl eq_refl)) as [os Hos].
    assert (Hskip : skipn (length (name :: rest)) (faults st)
                    = skipn (length rest) (tail (faults st))).
    { destruct (faults st); [destruct (length rest); reflexivity | reflexivity]. }
    rewrite Hskip.
    destruct (match faults st with b :: _ => b | [] => false end) eqn:Hfailed.
    + destruct (IH (with_faults (tail (faults st)) st) d Hdb
                  (fun n Hn => Hstores n (or_intror Hn)))
        as (d' & Hrun & Hat & Hothers).
      exists d'. split; [exact Hrun|]. split.
      * intros i n Hi. destruct i as [|i].
        -- injection Hi as <-. cbn [nth].
           replace (nth 0 (faults st) false) with true
             by (destruct (faults st); [discriminate | symmetry; exact Hfailed]).
           apply Hothers. rewrite <- list_elem_of_In. exact Hfresh.
        -- rewrite (Hat i n Hi). cbn [faults with_faults].
           destruct (faults st); [destruct i; reflexivity | reflexivity].
      * intros n Hn. apply Hothers. intros Hin. apply Hn. right. exact Hin.
    + rewrite Hos. cbn [clear].
      destruct (IH (with_db (Some (<[name := ∅]> d))
                      (with_faults (tail (faults st)) st))
                  (<[name := ∅]> d) eq_refl) as (d' & Hrun & Hat & Hothers).
      { intros n Hn. destruct (decide (n = name)) as [->|Hne].
        - rewrite lookup_insert_eq. eauto.
        - rewrite lookup_insert_ne by congruence.
          apply Hstores. right. exact Hn. }
      exists d'. split; [exact Hrun|]. split.
      * intros i n Hi. destruct i as [|i].
        -- injection Hi as <-.
           replace (nth 0 (faults st) false) with false
             by (destruct (faults st); [reflexivity | symmetry; exact Hfailed]).
           rewrite (Hothers name) by (rewrite <- list_elem_of_In; exact Hfresh).
           apply lookup_insert_eq.
        -- rewrite (Hat i n Hi). cbn [faults with_faults with_db].
           assert (n <> name) as Hne.
           { intros ->. apply Hfresh.
             apply (list_elem_of_lookup_2 _ i). exact Hi. }
           rewrite lookup_insert_ne by congruence.
           destruct (faults st); [destruct i; reflexivity | reflexivity].
      * intros n Hn. rewrite (Hothers n) by (intros Hin; apply Hn; right; exact Hin).
        apply lookup_insert_ne. intros ->. apply Hn. left. reflexivity.
Qed.

Lemma clearAll_when_requests_fail (st : State)
    (d : gmap string (gmap string Entry.t)) :
  isReady st = true -> useLocalStorage st = false -> db st = Some d ->
  (forall name, In name storeNames -> is_Some (d !! name)) ->
  exists d',
    clearAll st
    = Some (tt, {| db := Some d'; useLocalStorage := false; isReady := true;
                   localStorage := localStorage st;
                   faults := skipn 4 (faults st) |})
    /\ (forall (i : nat) (name : string),
           storeNames !! i = Some name ->
           d' !! name = if nth i (faults st) false then d !! name else Some ∅).
Proof.
  intros Hready Hfb Hdb Hstores. unfold clearAll, bind, waitForReady, reads.
  rewrite Hready, Hfb.
  destruct (clearStores_with_faults storeNames storeNames_NoDup st d Hdb Hstores)
    as (d' & Hrun & Hat & _).
  exists d'. rewrite Hrun, Hready, Hfb. split; [reflexivity | exact Hat].
Qed.

(** C4, as the code has it. No public method raises when IndexedDB
    fails: once the service is ready each of them completes. When the
    database cannot be opened the service is ready on [localStorage],
    every method is its [localStorage] counterpart, and a [get] at the
    time of a [set] whose expiry is a time returns the value written.
    When the database is open and the request of a call fails, [set]
    writes the entry to [localStorage] and [get] reads from
    [localStorage], while [delete] and [clearType] change neither store;
    [clearAll], which makes one request per store, leaves a store whose
    request fails as it is and empties the others, and does not touch
    [localStorage]. All this for a type whose name is not inherited from
    [Object.prototype]. *)
Theorem C4_backend_failures_are_not_propagated :
  (forall st key v type customTTL now,
      isReady st = true ->
      ownName type = true ->
      is_Some (set JSON_stringify key v type customTTL now st)
      /\ is_Some (get key type now st)
      /\ is_Some (delete key type st)
      /\ is_Some (clearType type st)
      /\ is_Some (clearAll st))
  /\ (forall ls fs now,
         exists st,
           init OpenError now (constructed ls fs) = Some (tt, st)
           /\ onLocalStorage st /\ localStorage st = ls)
  /\ (forall st key v type customTTL now,
         onLocalStorage st ->
         ownName type = true ->
         set JSON_stringify key v type customTTL now st
         = setLocalStorage key (cacheEntry JSON_stringify key v type customTTL now) st
         /\ get key type now st = getLocalStorage key now st
         /\ delete key type st = deleteLocalStorage key st
         /\ clearType type st = clearLocalStorageType type st
         /\ clearAll st = clearAllLocalStorage st)
  /\ (forall st key v type customTTL now n,
         onLocalStorage st ->
         ownName type = true ->
         chooseTTL type customTTL = Fin n -> 0 <= n ->
         exists st1,
           set JSON_stringify key v type customTTL now st = Some (tt, st1)
           /\ get key type now st1 = Some (v, st1))
  /\ (forall st rest key v type customTTL now,
         isReady st = true -> useLocalStorage st = false ->
         ownName type = true ->
         faults st = true :: rest ->
         set JSON_stringify key v type customTTL now st
         = setLocalStorage key (cacheEntry JSON_stringify key v type customTTL now)
             (with_faults rest st)
         /\ get key type now st = getLocalStorage key now (with_faults rest st)
         /\ delete key type st = Some (tt, with_faults rest st)
         /\ clearType type st = Some (tt, with_faults rest st))
  /\ (forall st d,
         isReady st = true -> useLocalStorage st = false -> db st = Some d ->
         (forall name, In name storeNames -> is_Some (d !! name)) ->
         exists d',
           clearAll st
           = Some (tt, {| db := Some d'; useLocalStorage := false;
                          isReady := true; localStorage := localStorage st;
                          faults := skipn 4 (faults st) |})
           /\ (forall (i : nat) (name : string),
                  storeNames !! i = Some name ->
                  d' !! name
                  = if nth i (faults st) false then d !! name else Some ∅)).
Proof.
  split; [|split; [|split; [|split; [|split]]]].
  - intros st key v type customTTL now Hready _.
    split; [apply set_completes; exact Hready|].
    split; [apply get_completes; exact Hready|].
    split; [apply delete_completes; exact Hready|].
    split; [apply clearType_completes; exact Hready|].
    apply clearAll_completes; exact Hready.
  - intros ls fs now. eexists. split; [apply init_after_open_error|].
    repeat split.
  - intros st key v type customTTL now Hst _.
    split; [apply set_on_localStorage; exact Hst|].
    split; [apply get_on_localStorage; exact Hst|].
    split; [apply delete_on_localStorage; exact Hst|].
    split; [apply clearType_on_localStorage; exact Hst|].
    apply clearAll_on_localStorage; exact Hst.
  - intros st key v type customTTL now n Hst _ Httl Hn.
    exact (get_after_set_on_localStorage JSON_stringify st key v type customTTL
             now n Hst Httl Hn).
  - intros st rest key v type customTTL now Hready Hfb _ Hfaults.
    split; [apply set_when_request_fails; assumption|].
    split; [apply get_when_request_fails; assumption|].
    split; [apply delete_when_request_fails; assumption|].
    apply clearType_when_request_fails; assumption.
  - intros st d Hready Hfb Hdb Hstores.
    apply clearAll_when_requests_fail; assumption.
Qed.

End BackendFailures.

(** C4 at samples: after a failed open, a write and the read that
    follows it; with the database open and entries in it, a [delete]
    whose request fails, which leaves the entry where it is; [clearAll]
    when the request on the first store fails, which leaves the weather
    and empties the settings; and [clearAll] on [localStorage]. *)
Lemma C4_backend_failures_are_not_propagated_witness :
  (exists st1,
      CacheService.set Samples.stringify "k" (JStr "v") "weather" None 1000
        Samples.afterOpenError
      = Some (tt, st1)
      /\ CacheService.get "k" "weather" 1000 st1 = Some (JStr "v", st1))
  /\ (CacheService.delete "k" "weather"
        (CacheService.with_faults [true] MoreSamples.stocked)
      = Some (tt, MoreSamples.stocked)
      /\ CacheService.get "k" "weather" 2000 MoreSamples.stocked
         = Some (JStr "v", MoreSamples.stocked))
  /\ (exists d',
         CacheService.clearAll
           (CacheService.with_faults [true] MoreSamples.stocked)
         = Some (tt, CacheService.with_db (Some d') MoreSamples.stocked)
         /\ d' !! "weather-data"%string
            = Some {[ "k"%string := MoreSamples.live;
                      "old"%string := MoreSamples.stale ]}
         /\ d' !! "app-settings"%string = Some ∅)
  /\ is_Some (CacheService.clearAll Samples.afterOpenError).
Proof.
  pose proof (C4_backend_failures_are_not_propagated Samples.stringify)
    as (Hcompletes & _ & _ & Hreadback & Hfails & HclearAll).
  split; [|split; [|split]].
  - apply (Hreadback Samples.afterOpenError "k" (JStr "v") "weather" None 1000
             (10 * 60 * 1000)).
    + split; reflexivity.
    + reflexivity.
    + reflexivity.
    + lia.
  - split; [|vm_compute; reflexivity].
    apply (Hfails (CacheService.with_faults [true] MoreSamples.stocked) []
             "k" (JStr "v") "weather" None 1000);
      reflexivity.
  - destruct (HclearAll (CacheService.with_faults [true] MoreSamples.stocked)
                MoreSamples.stockedStores)
      as (d' & Hclear & Hstores).
    + reflexivity.
    + reflexivity.
    + reflexivity.
    + intros name Hin. cbn in Hin.
      repeat (destruct Hin as [<-|Hin]; [eexists; vm_compute; reflexivity|]).
      destruct Hin.
    + exists d'. split; [exact Hclear|]. split.
      * rewrite (Hstores 0%nat "weather-data"%string eq_refl).
        vm_compute. reflexivity.
      * exact (Hstores 3%nat "app-settings"%string eq_refl).
  - apply (Hcompletes Samples.afterOpenError "k" (JStr "v") "weather" None 1000);
      reflexivity.
Defined.

(** C4 as stated does not hold. With the database open and every request
    failing, a [set] goes to [localStorage], the [delete] that follows
    changes nothing there, and the [get] after it still returns the value:
    [delete] has not fallen back to [localStorage], where its counterpart
    would have removed the item. And when only the request of the [set]
    fails, the [get] that follows reads IndexedDB and returns [null]. *)
Lemma C4_counterexample_delete_does_not_fall_back :
  let written :=
    CacheService.set Samples.stringify "k" (JStr "v") "weather" None 1000 in
  option_map fst
    (CacheService.bind written
       (fun _ => CacheService.bind (CacheService.delete "k" "weather")
                   (fun _ => CacheService.get "k" "weather" 1000))
       (Samples.withFaults [true; true; true]))
  = Some (JStr "v")
  /\ option_map fst
       (CacheService.bind written
          (fun _ => CacheService.bind (CacheService.deleteLocalStorage "k")
                      (fun _ => CacheService.get "k" "weather" 1000))
          (Samples.withFaults [true; true]))
     = Some JNull
  /\ option_map fst
       (CacheService.bind written (fun _ => CacheService.get "k" "weather" 1000)
          (Samples.withFaults [true]))
     = Some JNull.
Proof. repeat split; vm_compute; reflexivity. Qed.

(** ** The request caches of the services *)

Section RequestCaches.
Variable JSON_stringify : json -> string.



(** C8. When the request cache holds, under the key of the call, an
    entry younger than the 5 minutes of [cacheTimeout],
    [getCurrentWeather] returns the payload of that entry and makes no
    request: the weather service leaves its state, and with it the list of
    requests, as it is; the WeatherAPI service looks the key up and reads
    it, and neither fetches nor writes. *)
Theorem C8_fresh_hit_makes_no_request :
  (forall retryRequest processCurrentWeatherData
          (lat lon units lang : string) (now later : Z)
          (st : WeatherService.State) (cached : WeatherService.Cached),
      WeatherService.cache st
        !! ("current_" +:+ lat +:+ "_" +:+ lon +:+ "_" +:+ units +:+ "_" +:+ lang)
      = Some cached ->
      now - WeatherService.timestamp cached < WeatherService.cacheTimeout ->
      WeatherService.getCurrentWeather retryRequest processCurrentWeatherData
        lat lon units lang now later st
      = (Fulfilled (WeatherService.data cached), st))
  /\ (forall fetch transformCurrentWeather (lat lon : string) (now later : Z)
             (st : OpenMeteoService.State) (cached : OpenMeteoService.Cached),
         OpenMeteoService.requestCache st !! ("current_" +:+ lat +:+ "_" +:+ lon)
         = Some cached ->
         now - OpenMeteoService.timestamp cached < OpenMeteoService.cacheTimeout ->
         OpenMeteoService.getCurrentWeather fetch transformCurrentWeather
           lat lon now later st
         = (Fulfilled (OpenMeteoService.data cached),
            {| OpenMeteoService.requestCache := OpenMeteoService.requestCache st;
               OpenMeteoService.trace :=
                 OpenMeteoService.trace st
                 ++ [OpenMeteoService.CacheHas ("current_" +:+ lat +:+ "_" +:+ lon);
                     OpenMeteoService.CacheGet ("current_" +:+ lat +:+ "_" +:+ lon)] |})).
Proof.
  split.
  - intros retryRequest process lat lon units lang now later st cached Hhit Hfresh.
    unfold WeatherService.getCurrentWeather, WeatherService.getCachedData.
    rewrite Hhit.
    replace (WeatherService.cacheTimeout <? now - WeatherService.timestamp cached)
      with false by (symmetry; apply Z.ltb_ge; lia).
    reflexivity.
  - intros fetch transform lat lon now later st cached Hhit Hfresh.
    unfold OpenMeteoService.getCurrentWeather, OpenMeteoService.checkCache.
    rewrite Hhit.
    replace (now - OpenMeteoService.timestamp cached <? OpenMeteoService.cacheTimeout)
      with true by (symmetry; apply Z.ltb_lt; exact Hfresh).
    unfold OpenMeteoService.emit. cbn [OpenMeteoService.requestCache
      OpenMeteoService.trace]. rewrite <- app_assoc. reflexivity.
Qed.

(** C10. For a query that is absent or shorter than 2 characters,
    [searchLocations] returns the empty array and leaves the state as it
    is, no event added: no lookup in the request cache, no write to it,
    no request. This holds for the WeatherAPI service and for the
    geocoding service in front of it. *)
Theorem C10_short_query_searches_nothing :
  forall fetch toLowerCase encodeURIComponent transformLocationResult
         (query : option string) (now later : Z) (st : OpenMeteoService.State),
    OpenMeteoService.tooShort query ->
    OpenMeteoService.searchLocations fetch toLowerCase encodeURIComponent
      transformLocationResult query now later st
    = (Fulfilled (JArr []), st)
    /\ GeocodingService.searchLocations fetch toLowerCase encodeURIComponent
         transformLocationResult query now later st
       = (Fulfilled (JArr []), st).
Proof.
  intros fetch toLowerCase encodeURIComponent transform query now later st Hshort.
  unfold OpenMeteoService.searchLocations, GeocodingService.searchLocations.
  destruct query as [q|]; [|split; reflexivity].
  simpl in Hshort.
  replace (String.length q <? 2)%nat with true
    by (symmetry; apply Nat.ltb_lt; exact Hshort).
  split; reflexivity.
Qed.

End RequestCaches.



(** C8 at samples: the weather cached at time 1000 is asked for at time
    2000, with the network down. *)
Lemma C8_fresh_hit_makes_no_request_witness :
  WeatherService.getCurrentWeather Samples.retryRequestOffline
    Samples.processNothing "40.7" "-74" "metric" "en" 2000 3000
    Samples.weatherCached
  = (Fulfilled Samples.sunny, Samples.weatherCached)
  /\ OpenMeteoService.getCurrentWeather Samples.fetchOffline
       Samples.transformNothing "40.7" "-74" 2000 3000 Samples.openMeteoCached
     = (Fulfilled (JObj Samples.sunny),
        {| OpenMeteoService.requestCache :=
             OpenMeteoService.requestCache Samples.openMeteoCached;
           OpenMeteoService.trace :=
             [OpenMeteoService.CacheHas "current_40.7_-74";
              OpenMeteoService.CacheGet "current_40.7_-74"] |}).
Proof.
  split.
  - apply (proj1 C8_fresh_hit_makes_no_request Samples.retryRequestOffline
             Samples.processNothing "40.7" "-74" "metric" "en" 2000 3000
             Samples.weatherCached
             {| WeatherService.data := Samples.sunny;
                WeatherService.timestamp := 1000 |}).
    + reflexivity.
    + unfold WeatherService.cacheTimeout. simpl. lia.
  - apply (proj2 C8_fresh_hit_makes_no_request Samples.fetchOffline
             Samples.transformNothing "40.7" "-74" 2000 3000
             Samples.openMeteoCached
             {| OpenMeteoService.data := JObj Samples.sunny;
                OpenMeteoService.timestamp := 1000 |}).
    + reflexivity.
    + unfold OpenMeteoService.cacheTimeout. simpl. lia.
Defined.

(** C10 at samples: the query ["x"] and no query at all. *)
Lemma C10_short_query_searches_nothing_witness :
  (OpenMeteoService.searchLocations Samples.fetchOffline Samples.sameText
     Samples.sameText (fun r => r) (Some "x"%string) 2000 3000
     Samples.openMeteoCached
   = (Fulfilled (JArr []), Samples.openMeteoCached)
   /\ GeocodingService.searchLocations Samples.fetchOffline Samples.sameText
        Samples.sameText (fun r => r) (Some "x"%string) 2000 3000
        Samples.openMeteoCached
      = (Fulfilled (JArr []), Samples.openMeteoCached))
  /\ (OpenMeteoService.searchLocations Samples.fetchOffline Samples.sameText
        Samples.sameText (fun r => r) None 2000 3000 Samples.openMeteoCached
      = (Fulfilled (JArr []), Samples.openMeteoCached)
      /\ GeocodingService.searchLocations Samples.fetchOffline Samples.sameText
           Samples.sameText (fun r => r) None 2000 3000 Samples.openMeteoCached
         = (Fulfilled (JArr []), Samples.openMeteoCached)).
Proof.
  split.
  - apply (C10_short_query_searches_nothing Samples.fetchOffline Samples.sameText
             Samples.sameText (fun r => r) (Some "x"%string) 2000 3000
             Samples.openMeteoCached).
    simpl. lia.
  - apply (C10_short_query_searches_nothing Samples.fetchOffline Samples.sameText
             Samples.sameText (fun r => r) None 2000 3000
             Samples.openMeteoCached).
    exact I.
Defined.

(** The sample states are the states in which [init] leaves the service:
    on a new database, and when the database cannot be opened. *)
Lemma sample_states_come_from_init :
  CacheService.init (CacheService.OpenSuccess true ∅) 1000
    (CacheService.constructed ∅ [])
  = Some (tt, Samples.onNewDatabase)
  /\ CacheService.init CacheService.OpenError 1000
       (CacheService.constructed ∅ [])
     = Some (tt, Samples.afterOpenError).
Proof. split; vm_compute; reflexivity. Qed.

(** * Further properties of the cache service *)

Section MoreOnIndexedDB.
Import CacheService.
Variable JSON_stringify : json -> string.

Lemma delete_on_IndexedDB (d : gmap string (gmap string Entry.t)) (st : State)
    (key type : string) (os : gmap string Entry.t) :
  onIndexedDB d st -> d !! getStore type = Some os ->
  delete key type st
  = Some (tt, with_db (Some (<[getStore type := base.delete key os]> d)) st).
Proof.
  intros Hst Hos. pose proof Hst as (Hready & Hfb & _).
  unfold delete, bind, waitForReady, reads. rewrite Hready, Hfb.
  rewrite (transaction_runs d st (getStore type) os (base.delete key os) tt
             (deleteRequest key) Hst Hos eq_refl).
  reflexivity.
Qed.

Lemma clearType_on_IndexedDB (d : gmap string (gmap string Entry.t))
    (st : State) (type : string) (os : gmap string Entry.t) :
  onIndexedDB d st -> d !! getStore type = Some os ->
  clearType type st
  = Some (tt, with_db (Some (<[getStore type := ∅]> d)) st).
Proof.
  intros Hst Hos. pose proof Hst as (Hready & Hfb & _).
  unfold clearType, bind, waitForReady, reads. rewrite Hready, Hfb.
  rewrite (transaction_runs d st (getStore type) os ∅ tt clear Hst Hos eq_refl).
  reflexivity.
Qed.

(** What a [get] returns, read off the store. *)
Lemma get_value_on_IndexedDB (d : gmap string (gmap string Entry.t))
    (st : State) (key type : string) (now : Z) (os : gmap string Entry.t) :
  onIndexedDB d st -> d !! getStore type = Some os ->
  option_map fst (get key type now st)
  = Some (match os !! key with
          | Some e => if isExpired now e then JNull else Entry.data e
          | None => JNull
          end).
Proof.
  intros Hst Hos. rewrite (get_on_IndexedDB d st key type now os Hst Hos).
  destruct (os !! key) as [e|]; [|reflexivity].
  destruct (isExpired now e); reflexivity.
Qed.

(** A [get] while the entry lives returns the value written. *)
Lemma live_entry_is_read_back (d : gmap string (gmap string Entry.t))
    (st : State) (key : string) (v : json) (type : string)
    (customTTL : option num) (now later : Z) :
  onIndexedDB d st ->
  match chooseTTL type customTTL with
  | Fin n => later <= now + n
  | Infinity => True
  end ->
  exists st1,
    set JSON_stringify key v type customTTL now st = Some (tt, st1)
    /\ get key type later st1 = Some (v, st1).
Proof.
  intros Hst Hlive.
  destruct (set_on_IndexedDB JSON_stringify d st key v type customTTL now Hst)
    as (os & Hos & Hset).
  eexists. split; [exact Hset|].
  erewrite get_on_IndexedDB;
    [| apply onIndexedDB_with_db; exact Hst | apply lookup_insert_eq].
  rewrite lookup_insert_eq.
  unfold isExpired, cacheEntry. cbn [Entry.expires Entry.data].
  destruct (chooseTTL type customTTL) as [n|]; cbn [expiresAt]; [|reflexivity].
  replace (now + n <? later) with false by (symmetry; apply Z.ltb_ge; lia).
  reflexivity.
Qed.

(** X1. On IndexedDB an entry is read back for as long as it lives: a
    [get] with the key and type of the [set], at any time up to and
    including the expiry, returns the value written and changes nothing;
    an entry whose time to live is [Infinity] is read back at any
    time. *)
Theorem X1_entry_is_read_back_until_its_expiry :
  forall (d : gmap string (gmap string Entry.t)) (st : State) (key : string)
         (v : json) (type : string) (customTTL : option num) (now later : Z),
    onIndexedDB d st ->
    ownName type = true ->
    match chooseTTL type customTTL with
    | Fin n => later <= now + n
    | Infinity => True
    end ->
    exists st1,
      set JSON_stringify key v type customTTL now st = Some (tt, st1)
      /\ get key type later st1 = Some (v, st1).
Proof.
  intros d st key v type customTTL now later Hst _ Hlive.
  exact (live_entry_is_read_back d st key v type customTTL now later Hst Hlive).
Qed.

(** X2. On IndexedDB the first [get] after the expiry returns [null] and
    deletes the entry: [getStats] then counts one entry fewer, and the
    next [get] returns [null] again and changes nothing. *)
Theorem X2_expired_entry_is_evicted_by_the_read :
  forall (d : gmap string (gmap string Entry.t)) (st : State) (key : string)
         (v : json) (type : string) (customTTL : option num)
         (now later n : Z),
    onIndexedDB d st ->
    ownName type = true ->
    chooseTTL type customTTL = Fin n -> now + n < later ->
    exists st1 st2 before after,
      set JSON_stringify key v type customTTL now st = Some (tt, st1)
      /\ getStats JSON_stringify later st1 = Some (before, st1)
      /\ get key type later st1 = Some (JNull, st2)
      /\ getStats JSON_stringify later st2 = Some (after, st2)
      /\ Stats.totalEntries after = Stats.totalEntries before - 1
      /\ get key type later st2 = Some (JNull, st2).
Proof.
  intros d st key v type customTTL now later n Hst _ Httl Hlater.
  assert (Entry.expires (cacheEntry JSON_stringify key v type customTTL now)
          = At (now + n)) as Hexp.
  { unfold cacheEntry. cbn [Entry.expires]. rewrite Httl. reflexivity. }
  destruct (stats_after_eviction JSON_stringify d st key v type customTTL now
              later (now + n) Hst Hexp Hlater)
    as (st1 & st2 & before & after & Hset & Hb & Hget & Ha & Hcount).
  destruct (get_after_expiry_on_IndexedDB JSON_stringify d st key v type
              customTTL now later (now + n) Hst Hexp Hlater)
    as (st1' & d1 & os1 & st2' & d2 & os2 & Hset' & _ & _ & Hget' & _ & _ & _
        & _ & _ & Hagain).
  rewrite Hset in Hset'. injection Hset' as <-.
  rewrite Hget in Hget'. injection Hget' as <-.
  exists st1, st2, before, after. repeat split; assumption.
Qed.

(** X3. On IndexedDB a second [set] under the same key and type replaces
    the entry: [getStats] counts as many entries after it as before it,
    and a [get] while the second entry lives returns the second value. *)
Theorem X3_second_set_overwrites :
  forall (d : gmap string (gmap string Entry.t)) (st : State) (key : string)
         (v1 v2 : json) (type : string) (ttl1 ttl2 : option num)
         (now1 now2 later : Z),
    onIndexedDB d st ->
    ownName type = true ->
    match chooseTTL type ttl2 with
    | Fin n => later <= now2 + n
    | Infinity => True
    end ->
    exists st1 st2 before after,
      set JSON_stringify key v1 type ttl1 now1 st = Some (tt, st1)
      /\ getStats JSON_stringify later st1 = Some (before, st1)
      /\ set JSON_stringify key v2 type ttl2 now2 st1 = Some (tt, st2)
      /\ getStats JSON_stringify later st2 = Some (after, st2)
      /\ Stats.totalEntries after = Stats.totalEntries before
      /\ get key type later st2 = Some (v2, st2).
Proof.
  intros d st key v1 v2 type ttl1 ttl2 now1 now2 later Hst _ Hlive.
  destruct (set_on_IndexedDB JSON_stringify d st key v1 type ttl1 now1 Hst)
    as (os & Hos & Hset1).
  set (e1 := cacheEntry JSON_stringify key v1 type ttl1 now1) in *.
  set (d1 := <[getStore type := <[key := e1]> os]> d) in *.
  set (st1 := with_db (Some d1) st) in *.
  assert (onIndexedDB d1 st1) as Hst1 by (apply onIndexedDB_with_db; exact Hst).
  assert (d1 !! getStore type = Some (<[key := e1]> os)) as Hos1
    by apply lookup_insert_eq.
  destruct (live_entry_is_read_back d1 st1 key v2 type ttl2 now2 later Hst1
              Hlive) as (st2 & Hset2 & Hget).
  destruct (set_on_IndexedDB JSON_stringify d1 st1 key v2 type ttl2 now2 Hst1)
    as (os1 & Hos1' & Hset2').
  rewrite Hos1 in Hos1'. injection Hos1' as <-.
  rewrite Hset2 in Hset2'. injection Hset2' as ->.
  set (e2 := cacheEntry JSON_stringify key v2 type ttl2 now2) in *.
  destruct (getStats_on_IndexedDB JSON_stringify d1 st1 later Hst1)
    as (before & Hb & Hbt & _).
  destruct (getStats_on_IndexedDB JSON_stringify _ _ later
              (onIndexedDB_with_db d1 st1 (getStore type)
                 (<[key := e2]> (<[key := e1]> os)) Hst1))
    as (after & Ha & Hat & _).
  exists st1. eexists. exists before, after.
  split; [exact Hset1|]. split; [exact Hb|]. split; [exact Hset2|].
  split; [exact Ha|]. split; [|exact Hget].
  rewrite Hat, Hbt.
  rewrite (entriesIn_insert storeNames storeNames_NoDup d1 (getStore type)
             (<[key := e1]> os) (<[key := e2]> (<[key := e1]> os))
             (getStore_is_a_store type) Hos1).
  rewrite (map_size_insert_Some key e2 (<[key := e1]> os))
    by (rewrite lookup_insert_eq; eauto).
  lia.
Qed.

End MoreOnIndexedDB.

Section DeleteAndClearOnIndexedDB.
Import CacheService.
Variable JSON_stringify : json -> string.

(** The loop of [clearAll] over stores of a healthy database: every store
    named is left empty and the others are not touched. *)
Lemma clearStores_on_IndexedDB :
  forall (names : list string), NoDup names ->
    (forall n, In n names -> In n storeNames) ->
    forall (d : gmap string (gmap string Entry.t)) (st : State),
      onIndexedDB d st ->
      exists d' st',
        clearStores names st = Some (tt, st')
        /\ onIndexedDB d' st'
        /\ (forall n, In n names -> d' !! n = Some ∅)
        /\ (forall n, ~ In n names -> d' !! n = d !! n).
Proof.
  induction names as [|name rest IH]; intros Hnodup Hnames d st Hst.
  - exists d, st. split; [reflexivity|]. split; [exact Hst|].
    split; [intros n []|reflexivity].
  - apply NoDup_cons in Hnodup as [Hfresh Hnodup].
    pose proof Hst as (_ & _ & _ & _ & Hstores).
    destruct (Hstores name (Hnames name (or_introl eq_refl))) as [os Hos].
    destruct (IH Hnodup (fun n Hn => Hnames n (or_intror Hn))
                (<[name := ∅]> d) (with_db (Some (<[name := ∅]> d)) st)
                (onIndexedDB_with_db d st name ∅ Hst))
      as (d' & st' & Hrun & Hst' & Hcleared & Hkept).
    exists d', st'. split; [|split; [exact Hst'|split]].
    + cbn [clearStores]. unfold bind at 1.
      rewrite (transaction_runs d st name os ∅ tt clear Hst Hos eq_refl).
      exact Hrun.
    + intros n [<-|Hn]; [|exact (Hcleared n Hn)].
      rewrite Hkept by (intros Hin; apply Hfresh; apply list_elem_of_In; exact Hin).
      apply lookup_insert_eq.
    + intros n Hn. rewrite Hkept by (intros Hin; apply Hn; right; exact Hin).
      apply lookup_insert_ne. intros ->. apply Hn. left. reflexivity.
Qed.

(** X4. On IndexedDB [delete] removes the entry of its key in the store
    of its type and nothing else: the [get] with that key and type then
    returns [null], every other [get] returns what it returned before, and
    a second [delete] changes nothing. *)
Theorem X4_delete_removes_one_entry :
  forall (d : gmap string (gmap string Entry.t)) (st : State)
         (key type : string),
    onIndexedDB d st ->
    ownName type = true ->
    exists st1,
      delete key type st = Some (tt, st1)
      /\ (forall now, get key type now st1 = Some (JNull, st1))
      /\ (forall key' type' now,
             ownName type' = true ->
             key' <> key \/ getStore type' <> getStore type ->
             option_map fst (get key' type' now st1)
             = option_map fst (get key' type' now st))
      /\ delete key type st1 = Some (tt, st1).
Proof.
  intros d st key type Hst _.
  pose proof Hst as (_ & _ & _ & _ & Hstores).
  destruct (Hstores (getStore type) (getStore_is_a_store type)) as [os Hos].
  set (os1 := base.delete key os).
  set (d1 := <[getStore type := os1]> d).
  set (st1 := with_db (Some d1) st).
  assert (onIndexedDB d1 st1) as Hst1 by (apply onIndexedDB_with_db; exact Hst).
  assert (d1 !! getStore type = Some os1) as Hos1 by apply lookup_insert_eq.
  exists st1. split; [exact (delete_on_IndexedDB d st key type os Hst Hos)|].
  split; [|split].
  - intros now. rewrite (get_on_IndexedDB d1 st1 key type now os1 Hst1 Hos1).
    unfold os1. rewrite lookup_delete_eq. reflexivity.
  - intros key' type' now _ Hother.
    destruct (Hstores (getStore type') (getStore_is_a_store type')) as [os' Hos'].
    rewrite (get_value_on_IndexedDB d st key' type' now os' Hst Hos').
    destruct (decide (getStore type' = getStore type)) as [Heq|Hne].
    + rewrite Heq in Hos'. rewrite Hos in Hos'. injection Hos' as <-.
      assert (d1 !! getStore type' = Some os1) as Hos1' by (rewrite Heq; exact Hos1).
      rewrite (get_value_on_IndexedDB d1 st1 key' type' now os1 Hst1 Hos1').
      unfold os1. destruct Hother as [Hkey|Hstore]; [|contradiction].
      rewrite lookup_delete_ne by (intros ->; apply Hkey; reflexivity).
      reflexivity.
    + assert (d1 !! getStore type' = Some os') as Hos1'.
      { unfold d1. rewrite lookup_insert_ne by (intros Heq; apply Hne; symmetry; exact Heq).
        exact Hos'. }
      rewrite (get_value_on_IndexedDB d1 st1 key' type' now os' Hst1 Hos1').
      reflexivity.
  - rewrite (delete_on_IndexedDB d1 st1 key type os1 Hst1 Hos1).
    unfold os1 at 1. rewrite delete_delete_eq. fold os1.
    rewrite (insert_id d1 (getStore type) os1 Hos1).
    destruct Hst1 as (_ & _ & Hdb1 & _). rewrite (with_db_same d1 st1 Hdb1).
    reflexivity.
Qed.

(** X5. On IndexedDB [clearType] empties the store of its type and leaves
    the other stores alone: every [get] with a type of that store returns
    [null], and a [get] with a type of another store returns what it
    returned before. *)
Theorem X5_clearType_empties_one_store :
  forall (d : gmap string (gmap string Entry.t)) (st : State) (type : string),
    onIndexedDB d st ->
    ownName type = true ->
    exists st1,
      clearType type st = Some (tt, st1)
      /\ (forall key type' now,
             ownName type' = true ->
             getStore type' = getStore type ->
             get key type' now st1 = Some (JNull, st1))
      /\ (forall key type' now,
             ownName type' = true ->
             getStore type' <> getStore type ->
             option_map fst (get key type' now st1)
             = option_map fst (get key type' now st)).
Proof.
  intros d st type Hst _.
  pose proof Hst as (_ & _ & _ & _ & Hstores).
  destruct (Hstores (getStore type) (getStore_is_a_store type)) as [os Hos].
  set (d1 := <[getStore type := ∅]> d).
  set (st1 := with_db (Some d1) st).
  assert (onIndexedDB d1 st1) as Hst1 by (apply onIndexedDB_with_db; exact Hst).
  exists st1. split; [exact (clearType_on_IndexedDB d st type os Hst Hos)|].
  split.
  - intros key type' now _ Heq.
    assert (d1 !! getStore type' = Some ∅) as Hos1
      by (rewrite Heq; apply lookup_insert_eq).
    rewrite (get_on_IndexedDB d1 st1 key type' now ∅ Hst1 Hos1).
    rewrite lookup_empty. reflexivity.
  - intros key type' now _ Hne.
    destruct (Hstores (getStore type') (getStore_is_a_store type')) as [os' Hos'].
    assert (d1 !! getStore type' = Some os') as Hos1.
    { unfold d1. rewrite lookup_insert_ne by (intros Heq; apply Hne; symmetry; exact Heq).
      exact Hos'. }
    rewrite (get_value_on_IndexedDB d st key type' now os' Hst Hos').
    rewrite (get_value_on_IndexedDB d1 st1 key type' now os' Hst1 Hos1).
    reflexivity.
Qed.

(** X6. On IndexedDB [clearAll] empties every store: afterwards every
    [get] returns [null] and [getStats] counts no entry at all. *)
Theorem X6_clearAll_empties_every_store :
  forall (d : gmap string (gmap string Entry.t)) (st : State),
    onIndexedDB d st ->
    exists st1,
      clearAll st = Some (tt, st1)
      /\ (forall key type now,
             ownName type = true -> get key type now st1 = Some (JNull, st1))
      /\ (forall now,
             exists stats,
               getStats JSON_stringify now st1 = Some (stats, st1)
               /\ Stats.totalEntries stats = 0
               /\ Stats.expiredEntries stats = 0).
Proof.
  intros d st Hst.
  destruct (clearStores_on_IndexedDB storeNames storeNames_NoDup
              (fun n Hn => Hn) d st Hst)
    as (d1 & st1 & Hrun & Hst1 & Hcleared & _).
  exists st1. split; [|split].
  - unfold clearAll, bind, waitForReady, reads.
    destruct Hst as (-> & -> & _). exact Hrun.
  - intros key type now _.
    rewrite (get_on_IndexedDB d1 st1 key type now ∅ Hst1
               (Hcleared _ (getStore_is_a_store type))).
    rewrite lookup_empty. reflexivity.
  - intros now.
    destruct (getStats_on_IndexedDB JSON_stringify d1 st1 now Hst1)
      as (stats & Hstats & Htotal & Hexpired).
    exists stats. split; [exact Hstats|]. rewrite Htotal, Hexpired.
    assert (forall names, (forall n, In n names -> In n storeNames) ->
              entriesIn names d1 = 0 /\ expiredIn names now d1 = 0) as Hzero.
    { induction names as [|n rest IH]; intros Hnames; [split; reflexivity|].
      destruct (IH (fun m Hm => Hnames m (or_intror Hm))) as [He Hx].
      unfold entriesIn, expiredIn in *. cbn [foldr].
      rewrite (Hcleared n (Hnames n (or_introl eq_refl))). simpl default.
      rewrite He, Hx. unfold expiredCount.
      rewrite map_filter_empty, map_size_empty. split; reflexivity. }
    exact (Hzero storeNames (fun n Hn => Hn)).
Qed.

End DeleteAndClearOnIndexedDB.

Section StatisticsAndCleanup.
Import CacheService.
Variable JSON_stringify : json -> string.

(** A store is its expired entries and its live ones. *)
Lemma size_expired_and_live (now : Z) (os : gmap string Entry.t) :
  Z.of_nat (size os) = expiredCount now os + Z.of_nat (size (liveOnly now os)).
Proof.
  unfold expiredCount, liveOnly.
  rewrite <- (map_filter_union_complement (fun kv => isExpired now kv.2 = true) os) at 1.
  rewrite map_size_disj_union by apply map_disjoint_filter_complement.
  rewrite Nat2Z.inj_add. do 3 f_equal.
  apply map_filter_ext. intros i e _. simpl.
  destruct (isExpired now e); split; congruence.
Qed.

Lemma expiredIn_bounds (names : list string) (now : Z)
    (d : gmap string (gmap string Entry.t)) :
  0 <= expiredIn names now d <= entriesIn names d.
Proof.
  induction names as [|name rest IH]; simpl; [lia|].
  pose proof (size_expired_and_live now (default ∅ (d !! name))) as Hsplit.
  unfold expiredCount in *. lia.
Qed.

Lemma entriesIn_swept (names : list string) (now : Z)
    (d d' : gmap string (gmap string Entry.t)) :
  (forall n, In n names -> d' !! n = liveOnly now <$> d !! n) ->
  entriesIn names d' = entriesIn names d - expiredIn names now d.
Proof.
  induction names as [|name rest IH]; intros Hswept; [reflexivity|].
  simpl. rewrite (Hswept name) by (left; reflexivity).
  rewrite IH by (intros n Hn; apply Hswept; right; exact Hn).
  destruct (d !! name) as [os|]; simpl.
  - pose proof (size_expired_and_live now os). lia.
  - unfold expiredCount. rewrite map_filter_empty, map_size_empty. lia.
Qed.

(** The keys of the report are the keys of [this.stores], in order. *)
Lemma collectStats_keys (d : gmap string (gmap string Entry.t)) (now : Z) :
  forall (tbl : list (string * string)) (st : State) (acc : Stats.t),
    onIndexedDB d st ->
    (forall n, In n (map snd tbl) -> In n storeNames) ->
    exists stats,
      collectStats tbl now acc st = Some (stats, st)
      /\ map fst (Stats.stores stats) = map fst (Stats.stores acc) ++ map fst tbl.
Proof.
  induction tbl as [|[key name] rest IH]; intros st acc Hst Hnames.
  - exists acc. split; [reflexivity|]. simpl. rewrite app_nil_r. reflexivity.
  - pose proof Hst as (_ & _ & Hdb & _ & Hstores).
    destruct (Hstores name (Hnames name (or_introl eq_refl))) as [os Hos].
    destruct (IH st (addStoreStats key
                (map_fold (fun _ e s => countEntry now e s) noStoreStats os) acc)
                Hst (fun n Hn => Hnames n (or_intror Hn)))
      as (stats & Hrun & Hkeys).
    exists stats. split.
    + cbn [collectStats]. unfold bind at 1. unfold getStoreStats.
      rewrite (transaction_reads d st name os _
                 (fun os => (map_fold (fun _ e s => countEntry now e s) noStoreStats os, os))
                 Hst Hos eq_refl).
      exact Hrun.
    + rewrite Hkeys. cbn [addStoreStats Stats.stores map fst].
      rewrite map_app, <- app_assoc. reflexivity.
Qed.

(** X7. On IndexedDB [getStats] only reads: the report has one line per
    cache type of [this.stores], in their order, the expired entries it
    counts are between none and all of the entries, and nothing is
    changed - the expired entries stay in the database. *)
Theorem X7_getStats_only_reads :
  forall (d : gmap string (gmap string Entry.t)) (st : State) (now : Z),
    onIndexedDB d st ->
    exists stats,
      getStats JSON_stringify now st = Some (stats, st)
      /\ map fst (Stats.stores stats)
         = ["weather"; "locations"; "images"; "settings"]%string
      /\ 0 <= Stats.expiredEntries stats <= Stats.totalEntries stats.
Proof.
  intros d st now Hst.
  destruct (getStats_on_IndexedDB JSON_stringify d st now Hst)
    as (stats & Hstats & Htotal & Hexpired).
  exists stats. split; [exact Hstats|]. split.
  - pose proof Hst as (Hready & Hfb & _).
    unfold getStats, bind, waitForReady, reads in Hstats.
    rewrite Hready, Hfb in Hstats.
    destruct (collectStats_keys d now stores st
                {| Stats.stores := []; Stats.totalEntries := 0;
                   Stats.totalSize := 0; Stats.expiredEntries := 0 |}
                Hst (fun n Hn => Hn))
      as (stats' & Hrun & Hkeys).
    rewrite Hrun in Hstats. injection Hstats as <-. rewrite Hkeys. reflexivity.
  - rewrite Htotal, Hexpired. apply expiredIn_bounds.
Qed.

(** X8. On IndexedDB [cleanupExpiredEntries] is not seen by the readers:
    every [get] at the time of the cleanup returns what it would have
    returned without it, while [getStats] then counts no expired entry and
    as many entries fewer as were expired. *)
Theorem X8_cleanup_removes_only_what_get_would_not_return :
  forall (d : gmap string (gmap string Entry.t)) (st : State) (now : Z),
    onIndexedDB d st ->
    exists st1 before after,
      getStats JSON_stringify now st = Some (before, st)
      /\ cleanupExpiredEntries now st = Some (None, st1)
      /\ getStats JSON_stringify now st1 = Some (after, st1)
      /\ Stats.expiredEntries after = 0
      /\ Stats.totalEntries after
         = Stats.totalEntries before - Stats.expiredEntries before
      /\ forall key type,
           ownName type = true ->
           option_map fst (get key type now st1)
           = option_map fst (get key type now st).
Proof.
  intros d st now Hst.
  destruct (cleanup_on_IndexedDB d st now Hst)
    as (d1 & st1 & st2 & _ & Hst1 & Hswept & _ & Hclean & _).
  destruct (getStats_on_IndexedDB JSON_stringify d st now Hst)
    as (before & Hbefore & Htotal & Hexpired).
  destruct (getStats_on_IndexedDB JSON_stringify d1 st1 now Hst1)
    as (after & Hafter & Htotal1 & Hexpired1).
  exists st1, before, after.
  split; [exact Hbefore|]. split; [exact Hclean|]. split; [exact Hafter|].
  split; [|split].
  - rewrite Hexpired1. exact (expiredIn_swept storeNames now d d1 Hswept).
  - rewrite Htotal1, Htotal, Hexpired.
    exact (entriesIn_swept storeNames now d d1 Hswept).
  - intros key type _.
    pose proof Hst as (_ & _ & _ & _ & Hstores).
    destruct (Hstores (getStore type) (getStore_is_a_store type)) as [os Hos].
    assert (d1 !! getStore type = Some (liveOnly now os)) as Hos1
      by (rewrite (Hswept _ (getStore_is_a_store type)), Hos; reflexivity).
    rewrite (get_value_on_IndexedDB d st key type now os Hst Hos).
    rewrite (get_value_on_IndexedDB d1 st1 key type now (liveOnly now os) Hst1 Hos1).
    f_equal. unfold liveOnly. rewrite map_lookup_filter.
    destruct (os !! key) as [e|]; simpl; [|reflexivity].
    destruct (isExpired now e) eqn:He.
    + rewrite option_guard_False by discriminate. reflexivity.
    + rewrite option_guard_True by reflexivity. simpl. rewrite He. reflexivity.
Qed.

End StatisticsAndCleanup.

(** * Further properties of initialisation and of the fallback *)

Section Frames.
Import CacheService.
Variable JSON_stringify : json -> string.

Lemma cacheKey_startsWith (key : string) :
  startsWith "cache_" (cacheKey key) = true.
Proof.
  unfold startsWith, cacheKey. simpl.
  destruct key; reflexivity.
Qed.

Lemma otherItemsKept_refl (st : State) : otherItemsKept st st.
Proof. intros k _. reflexivity. Qed.

Lemma otherItemsKept_trans (st1 st2 st3 : State) :
  otherItemsKept st1 st2 -> otherItemsKept st2 st3 -> otherItemsKept st1 st3.
Proof. intros H12 H23 k Hk. rewrite (H23 k Hk). exact (H12 k Hk). Qed.

Lemma otherItemsKept_same (st st' : State) :
  localStorage st' = localStorage st -> otherItemsKept st st'.
Proof. intros Hsame k _. rewrite Hsame. reflexivity. Qed.

(** A transaction settles and touches neither the flags nor
    [localStorage]. *)
Lemma transaction_frame {A : Type} (name : string)
    (op : gmap string Entry.t -> A * gmap string Entry.t) (st : State) :
  exists r st',
    transaction name op st = Some (r, st')
    /\ isReady st' = isReady st
    /\ useLocalStorage st' = useLocalStorage st
    /\ localStorage st' = localStorage st.
Proof.
  unfold transaction.
  destruct (match faults st with b :: _ => b | [] => false end).
  - eexists _, _. repeat split; reflexivity.
  - cbn [db with_faults].
    destruct (db st) as [d|]; [|eexists _, _; repeat split; reflexivity].
    destruct (d !! name) as [os|]; [|eexists _, _; repeat split; reflexivity].
    destruct (op os) as [a os']. eexists _, _. repeat split; reflexivity.
Qed.

Lemma setLocalStorage_frame (st : State) (key : string) (e : Entry.t) :
  exists st',
    setLocalStorage key e st = Some (tt, st')
    /\ isReady st' = isReady st
    /\ useLocalStorage st' = useLocalStorage st
    /\ otherItemsKept st st'.
Proof.
  eexists. split; [reflexivity|]. split; [reflexivity|]. split; [reflexivity|].
  intros k Hk. cbn [localStorage with_localStorage].
  apply lookup_insert_ne. intros <-. rewrite cacheKey_startsWith in Hk.
  discriminate.
Qed.

Lemma deleteLocalStorage_frame (st : State) (key : string) :
  exists st',
    deleteLocalStorage key st = Some (tt, st')
    /\ isReady st' = isReady st
    /\ useLocalStorage st' = useLocalStorage st
    /\ otherItemsKept st st'.
Proof.
  eexists. split; [reflexivity|]. split; [reflexivity|]. split; [reflexivity|].
  intros k Hk. cbn [localStorage with_localStorage].
  apply lookup_delete_ne. intros <-. rewrite cacheKey_startsWith in Hk.
  discriminate.
Qed.

Lemma getLocalStorage_frame (st : State) (key : string) (now : Z) :
  exists r st',
    getLocalStorage key now st = Some (r, st')
    /\ isReady st' = isReady st
    /\ useLocalStorage st' = useLocalStorage st
    /\ otherItemsKept st st'.
Proof.
  unfold getLocalStorage, bind, reads, modify, ret.
  destruct (localStorage st !! cacheKey key) as [i|];
    [|eexists _, _; repeat split; try reflexivity; apply otherItemsKept_refl].
  destruct (JSON_parse i) as [e|];
    [|eexists _, _; repeat split; try reflexivity; apply otherItemsKept_refl].
  destruct (isExpired now e);
    [|eexists _, _; repeat split; try reflexivity; apply otherItemsKept_refl].
  eexists _, _. split; [reflexivity|]. split; [reflexivity|]. split; [reflexivity|].
  intros k Hk. cbn [localStorage with_localStorage].
  apply lookup_delete_ne. intros <-. rewrite cacheKey_startsWith in Hk.
  discriminate.
Qed.

Lemma filter_keeps_other_items (P : string -> bool) (ls : gmap string item)
    (k : string) :
  startsWith "cache_" k = false ->
  filter (fun kv : string * item => startsWith "cache_" kv.1 && P kv.1 = false) ls !! k
  = ls !! k.
Proof.
  intros Hk. rewrite map_lookup_filter.
  destruct (ls !! k) as [i|]; [|reflexivity]. simpl.
  rewrite option_guard_True by (rewrite Hk; reflexivity). reflexivity.
Qed.

Lemma clearLocalStorageType_frame (st : State) (type : string) :
  exists st',
    clearLocalStorageType type st = Some (tt, st')
    /\ isReady st' = isReady st
    /\ useLocalStorage st' = useLocalStorage st
    /\ otherItemsKept st st'.
Proof.
  eexists. split; [reflexivity|]. split; [reflexivity|]. split; [reflexivity|].
  intros k Hk. cbn [localStorage with_localStorage].
  exact (filter_keeps_other_items (includes type) (localStorage st) k Hk).
Qed.

Lemma clearAllLocalStorage_frame (st : State) :
  exists st',
    clearAllLocalStorage st = Some (tt, st')
    /\ isReady st' = isReady st
    /\ useLocalStorage st' = useLocalStorage st
    /\ otherItemsKept st st'.
Proof.
  eexists. split; [reflexivity|]. split; [reflexivity|]. split; [reflexivity|].
  intros k Hk. cbn [localStorage with_localStorage].
  rewrite map_lookup_filter.
  destruct (localStorage st !! k) as [i|]; [|reflexivity]. simpl.
  rewrite option_guard_True by exact Hk. reflexivity.
Qed.

Lemma cleanupLocalStorage_frame (st : State) (now : Z) :
  exists r st',
    cleanupLocalStorage now st = Some (r, st')
    /\ isReady st' = isReady st
    /\ useLocalStorage st' = useLocalStorage st
    /\ otherItemsKept st st'.
Proof.
  unfold cleanupLocalStorage, bind, reads, modify, ret.
  rewrite sweep_spec.
  eexists _, _. split; [reflexivity|]. split; [reflexivity|]. split; [reflexivity|].
  intros k Hk. cbn [localStorage with_localStorage].
  rewrite map_lookup_filter.
  destruct (localStorage st !! k) as [i|]; [|reflexivity]. simpl.
  rewrite option_guard_True by (unfold doomedItem; rewrite Hk; reflexivity).
  reflexivity.
Qed.

Lemma set_frame (st : State) (key : string) (v : json) (type : string)
    (customTTL : option num) (now : Z) :
  isReady st = true ->
  exists st',
    set JSON_stringify key v type customTTL now st = Some (tt, st')
    /\ isReady st' = true
    /\ useLocalStorage st' = useLocalStorage st
    /\ otherItemsKept st st'.
Proof.
  intros Hready. unfold set, bind, waitForReady, reads. rewrite Hready.
  destruct (useLocalStorage st) eqn:Hfb.
  - destruct (setLocalStorage_frame st key
                (cacheEntry JSON_stringify key v type customTTL now))
      as (st' & -> & Hr & Hf & Hk).
    exists st'. rewrite Hr, Hf. auto.
  - destruct (transaction_frame (getStore type)
                (put (cacheEntry JSON_stringify key v type customTTL now)) st)
      as (r & st1 & -> & Hr1 & Hf1 & Hls1).
    destruct r as [[]|].
    + exists st1. rewrite Hr1, Hf1. repeat split; auto.
      apply otherItemsKept_same. exact Hls1.
    + destruct (setLocalStorage_frame st1 key
                  (cacheEntry JSON_stringify key v type customTTL now))
        as (st' & -> & Hr & Hf & Hk).
      exists st'. rewrite Hr, Hf, Hr1, Hf1. repeat split; auto.
      apply (otherItemsKept_trans st st1 st'); [|exact Hk].
      apply otherItemsKept_same. exact Hls1.
Qed.

Lemma delete_frame (st : State) (key type : string) :
  isReady st = true ->
  exists st',
    delete key type st = Some (tt, st')
    /\ isReady st' = true
    /\ useLocalStorage st' = useLocalStorage st
    /\ otherItemsKept st st'.
Proof.
  intros Hready. unfold delete, bind, waitForReady, reads. rewrite Hready.
  destruct (useLocalStorage st) eqn:Hfb.
  - destruct (deleteLocalStorage_frame st key) as (st' & -> & Hr & Hf & Hk).
    exists st'. rewrite Hr, Hf. auto.
  - destruct (transaction_frame (getStore type) (deleteRequest key) st)
      as (r & st1 & -> & Hr1 & Hf1 & Hls1).
    exists st1. rewrite Hr1, Hf1. repeat split; auto.
    apply otherItemsKept_same. exact Hls1.
Qed.

Lemma get_frame (st : State) (key type : string) (now : Z) :
  isReady st = true ->
  exists r st',
    get key type now st = Some (r, st')
    /\ isReady st' = true
    /\ useLocalStorage st' = useLocalStorage st
    /\ otherItemsKept st st'.
Proof.
  intros Hready. unfold get, bind, waitForReady, reads. rewrite Hready.
  destruct (useLocalStorage st) eqn:Hfb.
  - destruct (getLocalStorage_frame st key now) as (r & st' & -> & Hr & Hf & Hk).
    exists r, st'. rewrite Hr, Hf. auto.
  - destruct (transaction_frame (getStore type) (getRequest key) st)
      as (r & st1 & -> & Hr1 & Hf1 & Hls1).
    destruct r as [[e|]|].
    + destruct (isExpired now e).
      * destruct (delete_frame st1 key type) as (st' & Hdel & Hr & Hf & Hk);
          [rewrite Hr1; exact Hready|].
        unfold ret. fold (bind (delete key type) (fun _ => ret JNull) st1).
        unfold bind. rewrite Hdel.
        exists JNull, st'. rewrite Hf, Hf1. repeat split; auto.
        apply (otherItemsKept_trans st st1 st'); [|exact Hk].
        apply otherItemsKept_same. exact Hls1.
      * exists (Entry.data e), st1. rewrite Hr1, Hf1. repeat split; auto.
        apply otherItemsKept_same. exact Hls1.
    + exists JNull, st1. rewrite Hr1, Hf1. repeat split; auto.
      apply otherItemsKept_same. exact Hls1.
    + destruct (getLocalStorage_frame st1 key now) as (r & st' & -> & Hr & Hf & Hk).
      exists r, st'. rewrite Hr, Hf, Hr1, Hf1. repeat split; auto.
      apply (otherItemsKept_trans st st1 st'); [|exact Hk].
      apply otherItemsKept_same. exact Hls1.
Qed.

Lemma clearType_frame (st : State) (type : string) :
  isReady st = true ->
  exists st',
    clearType type st = Some (tt, st')
    /\ isReady st' = true
    /\ useLocalStorage st' = useLocalStorage st
    /\ otherItemsKept st st'.
Proof.
  intros Hready. unfold clearType, bind, waitForReady, reads. rewrite Hready.
  destruct (useLocalStorage st) eqn:Hfb.
  - destruct (clearLocalStorageType_frame st type) as (st' & -> & Hr & Hf & Hk).
    exists st'. rewrite Hr, Hf. auto.
  - destruct (transaction_frame (getStore type) clear st)
      as (r & st1 & -> & Hr1 & Hf1 & Hls1).
    exists st1. rewrite Hr1, Hf1. repeat split; auto.
    apply otherItemsKept_same. exact Hls1.
Qed.

Lemma clearStores_frame (names : list string) :
  forall st,
    exists st',
      clearStores names st = Some (tt, st')
      /\ isReady st' = isReady st
      /\ useLocalStorage st' = useLocalStorage st
      /\ localStorage st' = localStorage st.
Proof.
  induction names as [|name rest IH]; intros st.
  - exists st. repeat split; reflexivity.
  - cbn [clearStores]. unfold bind.
    destruct (transaction_frame name clear st) as (r & st1 & -> & Hr1 & Hf1 & Hls1).
    destruct (IH st1) as (st' & -> & Hr & Hf & Hls).
    exists st'. rewrite Hr, Hf, Hls. auto.
Qed.

Lemma clearAll_frame (st : State) :
  isReady st = true ->
  exists st',
    clearAll st = Some (tt, st')
    /\ isReady st' = true
    /\ useLocalStorage st' = useLocalStorage st
    /\ otherItemsKept st st'.
Proof.
  intros Hready. unfold clearAll, bind, waitForReady, reads. rewrite Hready.
  destruct (useLocalStorage st) eqn:Hfb.
  - destruct (clearAllLocalStorage_frame st) as (st' & -> & Hr & Hf & Hk).
    exists st'. rewrite Hr, Hf. auto.
  - destruct (clearStores_frame storeNames st) as (st' & -> & Hr & Hf & Hls).
    exists st'. rewrite Hr, Hf. repeat split; auto.
    apply otherItemsKept_same. exact Hls.
Qed.

Lemma cleanupStores_frame (now : Z) (names : list string) :
  forall st total,
    exists r st',
      cleanupStores names now total st = Some (r, st')
      /\ isReady st' = isReady st
      /\ useLocalStorage st' = useLocalStorage st
      /\ localStorage st' = localStorage st.
Proof.
  induction names as [|name rest IH]; intros st total.
  - eexists _, st. repeat split; reflexivity.
  - cbn [cleanupStores]. unfold bind, cleanupStore.
    destruct (transaction_frame name (sweep (fun _ e => isExpired now e)) st)
      as (r & st1 & -> & Hr1 & Hf1 & Hls1).
    destruct r as [cleaned|].
    + destruct (IH st1 (total + cleaned)) as (r & st' & -> & Hr & Hf & Hls).
      exists r, st'. rewrite Hr, Hf, Hls. auto.
    + eexists _, st1. split; [reflexivity|]. auto.
Qed.

Lemma cleanupExpiredEntries_frame (st : State) (now : Z) :
  isReady st = true ->
  exists r st',
    cleanupExpiredEntries now st = Some (r, st')
    /\ isReady st' = true
    /\ useLocalStorage st' = useLocalStorage st
    /\ otherItemsKept st st'.
Proof.
  intros Hready. unfold cleanupExpiredEntries, bind, waitForReady, reads.
  rewrite Hready.
  destruct (useLocalStorage st) eqn:Hfb.
  - destruct (cleanupLocalStorage_frame st now) as (r & st' & -> & Hr & Hf & Hk).
    eexists _, st'. split; [reflexivity|]. rewrite Hr, Hf. auto.
  - destruct (cleanupStores_frame now storeNames st 0) as (r & st' & -> & Hr & Hf & Hls).
    eexists _, st'. split; [reflexivity|]. rewrite Hr, Hf. repeat split; auto.
    apply otherItemsKept_same. exact Hls.
Qed.

(** X9. [init] always ends with the service ready, whatever
    [indexedDB.open] does and whatever fails afterwards: the service is on
    [localStorage] exactly when the database could not be opened, the
    items that other code keeps in [localStorage] are as they were, and
    every later [get] and [set] completes. *)
Theorem X9_init_always_leaves_the_service_ready :
  forall (r : OpenResult) (ls : gmap string item) (fs : list bool) (now : Z),
    exists st,
      init r now (constructed ls fs) = Some (tt, st)
      /\ isReady st = true
      /\ useLocalStorage st
         = match r with OpenError => true | OpenSuccess _ _ => false end
      /\ otherItemsKept (constructed ls fs) st
      /\ (forall key type later, is_Some (get key type later st))
      /\ (forall key v type customTTL later,
             is_Some (set JSON_stringify key v type customTTL later st)).
Proof.
  intros r ls fs now.
  assert (exists st,
            init r now (constructed ls fs) = Some (tt, st)
            /\ isReady st = true
            /\ useLocalStorage st
               = match r with OpenError => true | OpenSuccess _ _ => false end
            /\ otherItemsKept (constructed ls fs) st)
    as (st & Hinit & Hready & Hfb & Hkept).
  { destruct r as [|upgradeneeded onDisk].
    - eexists. split; [reflexivity|]. split; [reflexivity|]. split; [reflexivity|].
      intros k _. reflexivity.
    - unfold init. cbn [openDatabase]. unfold bind at 1 2. unfold modify at 1 2.
      set (st0 := with_isReady true (with_db _ (constructed ls fs))).
      destruct (cleanupExpiredEntries_frame st0 now eq_refl)
        as (res & st' & Hrun & Hr & Hf & Hk).
      exists st'. unfold bind. rewrite Hrun.
      split; [reflexivity|]. split; [exact Hr|]. split; [exact Hf|].
      exact Hk. }
  exists st. split; [exact Hinit|]. split; [exact Hready|].
  split; [exact Hfb|]. split; [exact Hkept|]. split.
  - intros key type later.
    destruct (get_frame st key type later Hready) as (res & st' & -> & _).
    eexists; reflexivity.
  - intros key v type customTTL later.
    destruct (set_frame st key v type customTTL later Hready) as (st' & -> & _).
    eexists; reflexivity.
Qed.

(** X10. No method of the cache touches an item of [localStorage] whose
    key does not start with [cache_], on IndexedDB or on the fallback,
    whether the database fails or not; and no method changes the backend
    the service runs on. *)
Theorem X10_items_of_other_code_are_never_touched :
  forall (st st' : State) (key type : string) (v : json)
         (customTTL : option num) (now : Z),
    set JSON_stringify key v type customTTL now st = Some (tt, st')
    \/ (exists r, get key type now st = Some (r, st'))
    \/ delete key type st = Some (tt, st')
    \/ clearType type st = Some (tt, st')
    \/ clearAll st = Some (tt, st')
    \/ (exists r, cleanupExpiredEntries now st = Some (r, st')) ->
    otherItemsKept st st' /\ useLocalStorage st' = useLocalStorage st.
Proof.
  intros st st' key type v customTTL now Hrun.
  assert (isReady st = true) as Hready.
  { destruct (isReady st) eqn:Hr; [reflexivity|].
    unfold set, get, delete, clearType, clearAll, cleanupExpiredEntries,
      bind, waitForReady in Hrun.
    rewrite Hr in Hrun.
    destruct Hrun as [H|[[r H]|[H|[H|[H|[r H]]]]]]; discriminate. }
  destruct Hrun as [H|[[r H]|[H|[H|[H|[r H]]]]]].
  - destruct (set_frame st key v type customTTL now Hready) as (st1 & Hrun & _ & Hf & Hk).
    rewrite Hrun in H. injection H as <-. split; assumption.
  - destruct (get_frame st key type now Hready) as (r1 & st1 & Hrun & _ & Hf & Hk).
    rewrite Hrun in H. injection H as _ <-. split; assumption.
  - destruct (delete_frame st key type Hready) as (st1 & Hrun & _ & Hf & Hk).
    rewrite Hrun in H. injection H as <-. split; assumption.
  - destruct (clearType_frame st type Hready) as (st1 & Hrun & _ & Hf & Hk).
    rewrite Hrun in H. injection H as <-. split; assumption.
  - destruct (clearAll_frame st Hready) as (st1 & Hrun & _ & Hf & Hk).
    rewrite Hrun in H. injection H as <-. split; assumption.
  - destruct (cleanupExpiredEntries_frame st now Hready) as (r1 & st1 & Hrun & _ & Hf & Hk).
    rewrite Hrun in H. injection H as _ <-. split; assumption.
Qed.

End Frames.

Section MoreOnLocalStorage.
Import CacheService.
Variable JSON_stringify : json -> string.

(** What a [get] returns on the fallback, read off [localStorage]. *)
Lemma get_value_on_localStorage (st : State) (key type : string) (now : Z) :
  onLocalStorage st ->
  option_map fst (get key type now st)
  = Some (match localStorage st !! cacheKey key with
          | Some i =>
              match JSON_parse i with
              | Some e => if isExpired now e then JNull else Entry.data e
              | None => JNull
              end
          | None => JNull
          end).
Proof.
  intros Hst. rewrite (get_on_localStorage st key type now Hst).
  unfold getLocalStorage, bind, reads, modify, ret.
  destruct (localStorage st !! cacheKey key) as [i|]; [|reflexivity].
  destruct (JSON_parse i) as [e|]; [|reflexivity].
  destruct (isExpired now e); reflexivity.
Qed.

(** A [get] that finds no item changes nothing. *)
Lemma get_nothing_on_localStorage (st : State) (key type : string) (now : Z) :
  onLocalStorage st -> localStorage st !! cacheKey key = None ->
  get key type now st = Some (JNull, st).
Proof.
  intros Hst Hnone. rewrite (get_on_localStorage st key type now Hst).
  unfold getLocalStorage, bind, reads. rewrite Hnone. reflexivity.
Qed.

Lemma onLocalStorage_with_localStorage (ls : gmap string item) (st : State) :
  onLocalStorage st -> onLocalStorage (with_localStorage ls st).
Proof. intros [Hready Hfb]. split; assumption. Qed.

(** The [forEach] of [getLocalStorageStats] counts as expired what the
    [forEach] of [cleanupLocalStorage] removes. *)
Lemma getLocalStorageStats_counts (now : Z) (ls : gmap string item) :
  StoreStats.expired (map_fold (countItem JSON_stringify now) noStoreStats ls)
  = Z.of_nat (size (filter (fun kv => doomedItem now kv.1 kv.2 = true) ls)).
Proof.
  apply (map_fold_weak_ind
           (fun s m =>
              StoreStats.expired s
              = Z.of_nat (size (filter (fun kv => doomedItem now kv.1 kv.2 = true) m)))).
  - rewrite map_filter_empty, map_size_empty. reflexivity.
  - intros k i m s Hfresh Hexpired.
    destruct (doomedItem now k i) eqn:Hdoomed.
    + rewrite map_filter_insert_True by exact Hdoomed.
      rewrite map_size_insert_None
        by (apply map_lookup_filter_None; left; exact Hfresh).
      unfold doomedItem in Hdoomed. unfold countItem.
      destruct (startsWith "cache_" k); [|discriminate].
      destruct i as [e|raw]; cbn [JSON_parse andb] in *.
      * rewrite Hdoomed. cbn [StoreStats.expired]. lia.
      * cbn [StoreStats.expired]. lia.
    + rewrite map_filter_insert_False by (simpl; rewrite Hdoomed; discriminate).
      rewrite delete_id by exact Hfresh.
      unfold doomedItem in Hdoomed. unfold countItem.
      destruct (startsWith "cache_" k); [|exact Hexpired].
      destruct i as [e|raw]; cbn [JSON_parse andb] in *; [|discriminate].
      rewrite Hdoomed. cbn [StoreStats.expired]. lia.
Qed.

Lemma getStats_on_localStorage (st : State) (now : Z) :
  onLocalStorage st ->
  exists stats,
    getStats JSON_stringify now st = Some (stats, st)
    /\ Stats.expiredEntries stats
       = Z.of_nat (size (filter (fun kv => doomedItem now kv.1 kv.2 = true)
                           (localStorage st))).
Proof.
  intros [Hready Hfb].
  unfold getStats, getLocalStorageStats, bind, waitForReady, reads, ret.
  rewrite Hready, Hfb. eexists. split; [reflexivity|].
  cbn [Stats.expiredEntries]. apply getLocalStorageStats_counts.
Qed.

(** X11. On [localStorage] the cache type plays no part in where an
    entry is kept: what [set] wrote under one type is read back by [get]
    under every type, and [delete] under any type removes it. *)
Theorem X11_the_type_is_ignored_on_localStorage :
  forall (st : State) (key : string) (v : json) (type : string)
         (customTTL : option num) (now later n : Z),
    onLocalStorage st ->
    ownName type = true ->
    chooseTTL type customTTL = Fin n -> later <= now + n ->
    exists st1,
      set JSON_stringify key v type customTTL now st = Some (tt, st1)
      /\ (forall type', get key type' later st1 = Some (v, st1))
      /\ (forall type',
             exists st2,
               delete key type' st1 = Some (tt, st2)
               /\ forall type'' t, get key type'' t st2 = Some (JNull, st2)).
Proof.
  intros st key v type customTTL now later n Hst _ Httl Hlive.
  rewrite set_on_localStorage by exact Hst.
  eexists. split; [reflexivity|].
  set (st1 := with_localStorage _ st).
  assert (onLocalStorage st1) as Hst1
    by (apply onLocalStorage_with_localStorage; exact Hst).
  split.
  - intros type'. rewrite (get_on_localStorage st1 key type' later Hst1).
    erewrite getLocalStorage_found by apply lookup_insert_eq.
    unfold isExpired, reparse, cacheEntry. cbn [Entry.expires Entry.data].
    rewrite Httl. cbn [expiresAt].
    replace (now + n <? later) with false by (symmetry; apply Z.ltb_ge; lia).
    reflexivity.
  - intros type'. rewrite (delete_on_localStorage st1 key type' Hst1).
    eexists. split; [reflexivity|]. intros type'' t.
    apply get_nothing_on_localStorage.
    + apply onLocalStorage_with_localStorage. exact Hst1.
    + apply lookup_delete_eq.
Qed.

(** X13. On [localStorage] [clearType] goes by the text of the key, not
    by the type the entry was written with: the entries whose key
    [cache_<key>] contains the type's name are gone, and every other
    entry is read as before. *)
Theorem X13_clearType_on_localStorage_goes_by_the_key :
  forall (st : State) (type : string),
    onLocalStorage st ->
    exists st1,
      clearType type st = Some (tt, st1)
      /\ forall key type' now,
           if includes type (cacheKey key)
           then get key type' now st1 = Some (JNull, st1)
           else option_map fst (get key type' now st1)
                = option_map fst (get key type' now st).
Proof.
  intros st type Hst. rewrite (clearType_on_localStorage st type Hst).
  eexists. split; [reflexivity|].
  set (ls1 := filter _ (localStorage st)).
  assert (onLocalStorage (with_localStorage ls1 st)) as Hst1
    by (apply onLocalStorage_with_localStorage; exact Hst).
  assert (forall key,
            ls1 !! cacheKey key
            = if includes type (cacheKey key) then None
              else localStorage st !! cacheKey key) as Hlookup.
  { intros key. unfold ls1. rewrite map_lookup_filter.
    generalize (cacheKey_startsWith key). generalize (cacheKey key).
    intros k Hk.
    destruct (localStorage st !! k) as [i|]; cbn [mbind option_bind fst].
    - rewrite Hk. cbn [andb].
      destruct (includes type k).
      + rewrite option_guard_False by discriminate. reflexivity.
      + rewrite option_guard_True by reflexivity. reflexivity.
    - destruct (includes type k); reflexivity. }
  intros key type' now. specialize (Hlookup key).
  destruct (includes type (cacheKey key)).
  - apply get_nothing_on_localStorage; [exact Hst1|exact Hlookup].
  - rewrite (get_value_on_localStorage _ key type' now Hst1).
    rewrite (get_value_on_localStorage st key type' now Hst).
    cbn [localStorage with_localStorage]. rewrite Hlookup. reflexivity.
Qed.

(** X14. On [localStorage] [clearAll] removes every item of the cache:
    afterwards no key with the prefix [cache_] is left, every [get]
    returns [null], and [getStats] counts nothing as expired. *)
Theorem X14_clearAll_on_localStorage :
  forall (st : State),
    onLocalStorage st ->
    exists st1,
      clearAll st = Some (tt, st1)
      /\ (forall k, startsWith "cache_" k = true -> localStorage st1 !! k = None)
      /\ (forall key type now, get key type now st1 = Some (JNull, st1))
      /\ (forall now,
             exists stats,
               getStats JSON_stringify now st1 = Some (stats, st1)
               /\ Stats.expiredEntries stats = 0).
Proof.
  intros st Hst. rewrite (clearAll_on_localStorage st Hst).
  eexists. split; [reflexivity|].
  set (ls1 := filter _ (localStorage st)).
  assert (onLocalStorage (with_localStorage ls1 st)) as Hst1
    by (apply onLocalStorage_with_localStorage; exact Hst).
  assert (forall k, startsWith "cache_" k = true -> ls1 !! k = None) as Hgone.
  { intros k Hk. unfold ls1. apply map_lookup_filter_None. right.
    intros i _. simpl. rewrite Hk. discriminate. }
  split; [exact Hgone|]. split.
  - intros key type now. apply get_nothing_on_localStorage; [exact Hst1|].
    apply Hgone. apply cacheKey_startsWith.
  - intros now.
    destruct (getStats_on_localStorage _ now Hst1) as (stats & Hstats & Hexpired).
    exists stats. split; [exact Hstats|]. rewrite Hexpired.
    cbn [localStorage with_localStorage].
    replace (filter (fun kv : string * item => doomedItem now kv.1 kv.2 = true) ls1)
      with (∅ : gmap string item); [rewrite map_size_empty; reflexivity|].
    symmetry. apply map_empty. intros k. apply map_lookup_filter_None.
    destruct (startsWith "cache_" k) eqn:Hk.
    + left. apply Hgone. exact Hk.
    + right. intros i _. simpl. unfold doomedItem. rewrite Hk. discriminate.
Qed.

(** X15. On [localStorage] [cleanupExpiredEntries] returns the number of
    items [getStats] counted as expired, removes every text that does not
    parse, and is not seen by the readers: every [get] at the time of the
    cleanup returns what it would have returned without it. Afterwards
    [getStats] counts nothing as expired and a second cleanup returns
    [0]. *)
Theorem X15_cleanup_on_localStorage_matches_the_statistics :
  forall (st : State) (now : Z),
    onLocalStorage st ->
    exists cleaned st1 before after,
      getStats JSON_stringify now st = Some (before, st)
      /\ cleanupExpiredEntries now st = Some (Some cleaned, st1)
      /\ cleaned = Stats.expiredEntries before
      /\ (forall key raw,
             localStorage st !! cacheKey key = Some (Corrupt raw) ->
             localStorage st1 !! cacheKey key = None /\ 1 <= cleaned)
      /\ (forall key type,
             option_map fst (get key type now st1)
             = option_map fst (get key type now st))
      /\ getStats JSON_stringify now st1 = Some (after, st1)
      /\ Stats.expiredEntries after = 0
      /\ cleanupExpiredEntries now st1 = Some (Some 0, st1).
Proof.
  intros st now Hst.
  destruct (cleanup_on_localStorage st now Hst)
    as (cleaned & st1 & Hclean & Hcount & Hls1 & Hagain).
  assert (onLocalStorage st1) as Hst1.
  { rewrite cleanupExpiredEntries_on_localStorage in Hclean by exact Hst.
    injection Hclean as _ <-. apply onLocalStorage_with_localStorage. exact Hst. }
  destruct (getStats_on_localStorage st now Hst) as (before & Hbefore & Hexpired).
  destruct (getStats_on_localStorage st1 now Hst1) as (after & Hafter & Hexpired1).
  exists cleaned, st1, before, after.
  split; [exact Hbefore|]. split; [exact Hclean|].
  split; [rewrite Hexpired; exact Hcount|]. split; [|split].
  - intros key raw Hcorrupt.
    assert (doomedItem now (cacheKey key) (Corrupt raw) = true) as Hdoomed
      by (unfold doomedItem; rewrite cacheKey_startsWith; reflexivity).
    split.
    + rewrite Hls1. apply map_lookup_filter_None. right.
      intros i Hi. rewrite Hcorrupt in Hi. injection Hi as <-. simpl.
      rewrite Hdoomed. discriminate.
    + rewrite Hcount.
      assert (filter (fun kv : string * item => doomedItem now kv.1 kv.2 = true)
                (localStorage st) !! cacheKey key = Some (Corrupt raw)) as Hin
        by (apply map_lookup_filter_Some; split; [exact Hcorrupt|exact Hdoomed]).
      destruct (size (filter (fun kv : string * item => doomedItem now kv.1 kv.2 = true)
                        (localStorage st))) eqn:Hsize; [|lia].
      apply map_size_empty_inv in Hsize. rewrite Hsize in Hin.
      rewrite lookup_empty in Hin. discriminate.
  - intros key type.
    rewrite (get_value_on_localStorage st1 key type now Hst1).
    rewrite (get_value_on_localStorage st key type now Hst).
    f_equal. rewrite Hls1, map_lookup_filter.
    generalize (cacheKey_startsWith key). generalize (cacheKey key).
    intros k Hk.
    destruct (localStorage st !! k) as [i|]; cbn [mbind option_bind fst snd];
      [|reflexivity].
    unfold doomedItem. rewrite Hk. cbn [andb].
    destruct (JSON_parse i) as [e|] eqn:Hparse.
    + destruct (isExpired now e) eqn:He.
      * rewrite option_guard_False by discriminate. reflexivity.
      * rewrite option_guard_True by reflexivity. cbn [mbind option_bind].
        rewrite Hparse, He. reflexivity.
    + rewrite option_guard_False by discriminate. reflexivity.
  - split; [exact Hafter|]. split; [|exact Hagain].
    rewrite Hexpired1, Hls1.
    rewrite (nothing_doomed_after_sweep (doomedItem now) (localStorage st)).
    rewrite map_size_empty. reflexivity.
Qed.

End MoreOnLocalStorage.

Section StoresOnIndexedDB.
Import CacheService.
Variable JSON_stringify : json -> string.

(** X12. On IndexedDB one key under two types that are kept in
    different stores is two entries: both values are read back, each
    under its type. *)
Theorem X12_types_of_different_stores_do_not_collide :
  forall (d : gmap string (gmap string Entry.t)) (st : State) (key : string)
         (v1 v2 : json) (type1 type2 : string) (ttl1 ttl2 : option num)
         (now1 now2 later : Z),
    onIndexedDB d st ->
    ownName type1 = true -> ownName type2 = true ->
    getStore type1 <> getStore type2 ->
    match chooseTTL type1 ttl1 with
    | Fin n => later <= now1 + n
    | Infinity => True
    end ->
    match chooseTTL type2 ttl2 with
    | Fin n => later <= now2 + n
    | Infinity => True
    end ->
    exists st1 st2,
      set JSON_stringify key v1 type1 ttl1 now1 st = Some (tt, st1)
      /\ set JSON_stringify key v2 type2 ttl2 now2 st1 = Some (tt, st2)
      /\ get key type1 later st2 = Some (v1, st2)
      /\ get key type2 later st2 = Some (v2, st2).
Proof.
  intros d st key v1 v2 type1 type2 ttl1 ttl2 now1 now2 later Hst _ _ Hne
    Hlive1 Hlive2.
  destruct (set_on_IndexedDB JSON_stringify d st key v1 type1 ttl1 now1 Hst)
    as (os1 & Hos1 & Hset1).
  set (e1 := cacheEntry JSON_stringify key v1 type1 ttl1 now1) in *.
  set (d1 := <[getStore type1 := <[key := e1]> os1]> d) in *.
  set (st1 := with_db (Some d1) st) in *.
  assert (onIndexedDB d1 st1) as Hst1 by (apply onIndexedDB_with_db; exact Hst).
  destruct (set_on_IndexedDB JSON_stringify d1 st1 key v2 type2 ttl2 now2 Hst1)
    as (os2 & Hos2 & Hset2).
  set (e2 := cacheEntry JSON_stringify key v2 type2 ttl2 now2) in *.
  set (d2 := <[getStore type2 := <[key := e2]> os2]> d1) in *.
  set (st2 := with_db (Some d2) st1) in *.
  assert (onIndexedDB d2 st2) as Hst2 by (apply onIndexedDB_with_db; exact Hst1).
  exists st1, st2. split; [exact Hset1|]. split; [exact Hset2|]. split.
  - assert (d2 !! getStore type1 = Some (<[key := e1]> os1)) as Hfound.
    { unfold d2. rewrite lookup_insert_ne by (intros Heq; apply Hne; symmetry; exact Heq).
      unfold d1. apply lookup_insert_eq. }
    rewrite (get_on_IndexedDB d2 st2 key type1 later _ Hst2 Hfound).
    rewrite lookup_insert_eq.
    unfold isExpired, e1, cacheEntry. cbn [Entry.expires Entry.data].
    destruct (chooseTTL type1 ttl1) as [n|]; cbn [expiresAt]; [|reflexivity].
    replace (now1 + n <? later) with false by (symmetry; apply Z.ltb_ge; lia).
    reflexivity.
  - assert (d2 !! getStore type2 = Some (<[key := e2]> os2)) as Hfound
      by apply lookup_insert_eq.
    rewrite (get_on_IndexedDB d2 st2 key type2 later _ Hst2 Hfound).
    rewrite lookup_insert_eq.
    unfold isExpired, e2, cacheEntry. cbn [Entry.expires Entry.data].
    destruct (chooseTTL type2 ttl2) as [n|]; cbn [expiresAt]; [|reflexivity].
    replace (now2 + n <? later) with false by (symmetry; apply Z.ltb_ge; lia).
    reflexivity.
Qed.

End StoresOnIndexedDB.

(** * The circuit breaker *)

Section BreakerProperties.
Import CircuitBreaker.
Context {V E : Type}.
Variable fn : nat -> ErrorUtils.Settled V E.

Ltac breaker_fields :=
  cbn [state failures failureThreshold resetTimeout nextAttempt successCount
       monitored fst snd breaker invocations refused].

(** Failures below the threshold are counted and change nothing
    else. *)
Lemma calls_below_the_threshold :
  forall (times : list (Z * Z)) (w : World),
    state (breaker w) = CLOSED ->
    failures (breaker w) + Z.of_nat (length times) < failureThreshold (breaker w) ->
    (forall i, (i < length times)%nat ->
       exists e, fn (invocations w + i)%nat = ErrorUtils.Rejected e) ->
    let w1 := (calls fn times w).2 in
    state (breaker w1) = CLOSED
    /\ failures (breaker w1) = failures (breaker w) + Z.of_nat (length times)
    /\ failureThreshold (breaker w1) = failureThreshold (breaker w)
    /\ resetTimeout (breaker w1) = resetTimeout (breaker w)
    /\ invocations w1 = (invocations w + length times)%nat.
Proof.
  induction times as [|[now settled] rest IH]; intros w Hclosed Hbelow Hfail.
  - cbn. repeat split; try exact Hclosed; lia.
  - destruct (Hfail 0%nat ltac:(cbn; lia)) as (e & Hfn).
    rewrite Nat.add_0_r in Hfn. cbn [length] in Hbelow.
    set (b1 := {| failureThreshold := failureThreshold (breaker w);
                  resetTimeout := resetTimeout (breaker w);
                  state := CLOSED; failures := failures (breaker w) + 1;
                  nextAttempt := nextAttempt (breaker w);
                  successCount := successCount (breaker w);
                  monitored := monitored (breaker w) |}).
    set (w1 := {| breaker := b1; invocations := S (invocations w) |}).
    assert (call fn now settled w = (Throw e, w1)) as Hcall.
    { unfold call, enter. rewrite Hclosed, Hfn. unfold onFailure.
      replace (failureThreshold (breaker w) <=? failures (breaker w) + 1)
        with false by (symmetry; apply Z.leb_gt; lia).
      rewrite Hclosed. reflexivity. }
    specialize (IH w1). cbv zeta in IH |- *. cbn [calls]. rewrite Hcall.
    destruct (calls fn rest w1) as [cs w2] eqn:Hrest. cbn [snd] in *.
    destruct IH as (H1 & H2 & H3 & H4 & H5).
    + reflexivity.
    + cbn [w1 b1 breaker failures failureThreshold]. lia.
    + intros i Hi. destruct (Hfail (S i) ltac:(cbn; lia)) as (e' & Hfn').
      exists e'. rewrite <- Hfn'. cbn [w1 invocations]. f_equal. lia.
    + cbn [w1 b1 breaker invocations failures failureThreshold resetTimeout]
        in H2, H3, H4, H5.
      cbn [length]. repeat split; [exact H1 | lia | exact H3 | exact H4 | lia].
Qed.

(** One call keeps a breaker consistent. *)
Lemma call_keeps_consistent (now settled : Z) (w : World) :
  0 < failureThreshold (breaker w) ->
  consistent (breaker w) ->
  let r := call fn now settled w in
  consistent (breaker r.2)
  /\ failureThreshold (breaker r.2) = failureThreshold (breaker w)
  /\ invocations r.2 = (invocations w + if refused r.1 then 0 else 1)%nat.
Proof.
  intros Hpos Hok. cbv zeta. unfold call, enter, consistent in *.
  destruct (state (breaker w)) eqn:Hstate.
  - destruct (fn (invocations w)) as [v|e]; breaker_fields.
    + unfold onSuccess. rewrite Hstate. breaker_fields.
      split; [exact Hpos|]. split; [reflexivity|lia].
    + unfold onFailure.
      destruct (failureThreshold (breaker w) <=? failures (breaker w) + 1) eqn:Hle;
        breaker_fields.
      * apply Z.leb_le in Hle. split; [split; [lia|eauto]|].
        split; [reflexivity|lia].
      * apply Z.leb_gt in Hle. rewrite Hstate.
        split; [lia|]. split; [reflexivity|lia].
  - destruct Hok as [Hfailed Hnext].
    destruct (now <? default 0 (nextAttempt (breaker w))).
    + breaker_fields. rewrite Hstate.
      split; [split; assumption|]. split; [reflexivity|lia].
    + destruct (fn (invocations w)) as [v|e]; breaker_fields.
      * unfold onSuccess. breaker_fields. change (3 <=? 0 + 1) with false.
        breaker_fields. split; [lia|]. split; [reflexivity|lia].
      * unfold onFailure. breaker_fields.
        replace (failureThreshold (breaker w) <=? failures (breaker w) + 1)
          with true by (symmetry; apply Z.leb_le; lia).
        breaker_fields. split; [split; [lia|eauto]|].
        split; [reflexivity|lia].
  - destruct Hok as [Hcount Hfailed].
    destruct (fn (invocations w)) as [v|e]; breaker_fields.
    + unfold onSuccess. rewrite Hstate.
      destruct (3 <=? successCount (breaker w) + 1) eqn:Hle; breaker_fields.
      * split; [exact Hpos|]. split; [reflexivity|lia].
      * apply Z.leb_gt in Hle. split; [lia|]. split; [reflexivity|lia].
    + unfold onFailure.
      destruct (failureThreshold (breaker w) <=? failures (breaker w) + 1) eqn:Hle;
        breaker_fields.
      * apply Z.leb_le in Hle. split; [split; [lia|eauto]|].
        split; [reflexivity|lia].
      * apply Z.leb_gt in Hle. rewrite Hstate.
        split; [lia|]. split; [reflexivity|lia].
Qed.

Lemma calls_keep_consistent :
  forall (times : list (Z * Z)) (w : World),
    0 < failureThreshold (breaker w) ->
    consistent (breaker w) ->
    let r := calls fn times w in
    consistent (breaker r.2)
    /\ failureThreshold (breaker r.2) = failureThreshold (breaker w)
    /\ length r.1 = length times
    /\ invocations r.2
       = (invocations w + length (List.filter (fun c => negb (refused c)) r.1))%nat.
Proof.
  induction times as [|[now settled] rest IH]; intros w Hpos Hok.
  - cbn. repeat split; [exact Hok | lia].
  - cbn [calls].
    pose proof (call_keeps_consistent now settled w Hpos Hok) as Hone.
    cbv zeta in Hone.
    destruct (call fn now settled w) as [c w1]. cbn [fst snd] in Hone.
    destruct Hone as (Hok1 & Hsame1 & Hcount1).
    specialize (IH w1 ltac:(lia) Hok1). cbv zeta in IH.
    destruct (calls fn rest w1) as [cs w2]. cbn [fst snd] in *.
    destruct IH as (Hok2 & Hsame2 & Hlen & Hcount2).
    split; [exact Hok2|]. split; [lia|]. cbn [length List.filter].
    split; [lia|].
    destruct (refused c); cbn [negb length] in *; lia.
Qed.

(** X18. A closed breaker opens at the failure that takes the count of
    failures to the threshold, and not before; the time of the next
    attempt is then [resetTimeout] after that failure, and until then
    every call is refused with [CIRCUIT_BREAKER_OPEN] without the
    operation being invoked. *)
Theorem X18_breaker_opens_at_the_threshold :
  forall (w : World) (times : list (Z * Z)) (now settled : Z),
    state (breaker w) = CLOSED ->
    failures (breaker w) + Z.of_nat (length times) + 1
    = failureThreshold (breaker w) ->
    (forall i, (i <= length times)%nat ->
       exists e, fn (invocations w + i)%nat = ErrorUtils.Rejected e) ->
    let w1 := (calls fn times w).2 in
    let w2 := (call fn now settled w1).2 in
    state (breaker w1) = CLOSED
    /\ state (breaker w2) = OPEN
    /\ nextAttempt (breaker w2) = Some (settled + resetTimeout (breaker w))
    /\ invocations w2 = (invocations w + length times + 1)%nat
    /\ forall now' settled',
         now' < settled + resetTimeout (breaker w) ->
         call fn now' settled' w2 = (ThrowOpen, w2).
Proof.
  intros w times now settled Hclosed Hthreshold Hfail.
  destruct (calls_below_the_threshold times w Hclosed ltac:(lia)
              ltac:(intros i Hi; apply Hfail; lia))
    as (H1 & H2 & H3 & H4 & H5).
  cbv zeta. set (w1 := (calls fn times w).2) in *.
  destruct (Hfail (length times) ltac:(lia)) as (e & Hfn).
  rewrite <- H5 in Hfn.
  assert (call fn now settled w1
          = (Throw e,
             {| breaker :=
                  {| failureThreshold := failureThreshold (breaker w1);
                     resetTimeout := resetTimeout (breaker w1);
                     state := OPEN; failures := failures (breaker w1) + 1;
                     nextAttempt := Some (settled + resetTimeout (breaker w1));
                     successCount := successCount (breaker w1);
                     monitored := monitored (breaker w1)
                                  ++ [(OPEN, failures (breaker w1) + 1)] |};
                invocations := S (invocations w1) |})) as Hcall.
  { unfold call, enter. rewrite H1, Hfn. unfold onFailure.
    replace (failureThreshold (breaker w1) <=? failures (breaker w1) + 1)
      with true by (symmetry; apply Z.leb_le; lia).
    reflexivity. }
  rewrite Hcall. breaker_fields.
  split; [exact H1|]. split; [reflexivity|]. split; [rewrite H4; reflexivity|].
  split; [lia|].
  intros now' settled' Hearly. unfold call, enter. breaker_fields.
  simpl default.
  replace (now' <? settled + resetTimeout (breaker w1)) with true
    by (symmetry; apply Z.ltb_lt; lia).
  reflexivity.
Qed.

(** X19. Whatever the operation does and whenever it is called, a
    breaker made with a threshold above zero is consistent after every
    call: closed with fewer failures than the threshold, open with a time
    for the next attempt, or half open with fewer than three successes.
    The operation has been invoked once for every call that was not
    refused. *)
Theorem X19_breaker_stays_consistent :
  forall (failureThreshold resetTimeout : option Z) (times : list (Z * Z)),
    0 < or_number failureThreshold 5 ->
    let r := calls fn times
               {| breaker := constructor failureThreshold resetTimeout;
                  invocations := 0 |} in
    consistent (breaker r.2)
    /\ length r.1 = length times
    /\ invocations r.2
       = length (List.filter (fun c => negb (refused c)) r.1).
Proof.
  intros ft rt times Hpos.
  pose proof (calls_keep_consistent times
                {| breaker := constructor ft rt; invocations := 0 |}
                Hpos Hpos) as H.
  cbv zeta in *. destruct H as (Hok & _ & Hlen & Hcount).
  split; [exact Hok|]. split; [exact Hlen|]. exact Hcount.
Qed.

(** X20. An open breaker whose time for the next attempt has come lets
    the calls through again, half open, and closes at the third success:
    after one and after two successes it is still half open, after the
    third it is closed with no failure counted, and [monitor] is told
    so. *)
Theorem X20_breaker_closes_after_three_successes :
  forall (w : World) (t now1 s1 now2 s2 now3 s3 : Z) (v1 v2 v3 : V),
    state (breaker w) = OPEN ->
    nextAttempt (breaker w) = Some t -> t <= now1 ->
    fn (invocations w) = ErrorUtils.Resolved v1 ->
    fn (S (invocations w)) = ErrorUtils.Resolved v2 ->
    fn (S (S (invocations w))) = ErrorUtils.Resolved v3 ->
    let r1 := calls fn [(now1, s1)] w in
    let r2 := calls fn [(now1, s1); (now2, s2)] w in
    let r3 := calls fn [(now1, s1); (now2, s2); (now3, s3)] w in
    r3.1 = [Return v1; Return v2; Return v3]
    /\ state (breaker r1.2) = HALF_OPEN
    /\ state (breaker r2.2) = HALF_OPEN
    /\ state (breaker r3.2) = CLOSED
    /\ failures (breaker r3.2) = 0
    /\ monitored (breaker r3.2) = monitored (breaker w) ++ [(CLOSED, 0)].
Proof.
  intros w t now1 s1 now2 s2 now3 s3 v1 v2 v3 Hopen Hnext Hdue Hfn1 Hfn2 Hfn3.
  set (half n :=
         {| breaker :=
              {| failureThreshold := failureThreshold (breaker w);
                 resetTimeout := resetTimeout (breaker w);
                 state := HALF_OPEN; failures := 0;
                 nextAttempt := Some t;
                 successCount := Z.of_nat n;
                 monitored := monitored (breaker w) |};
            invocations := (invocations w + n)%nat |}).
  assert (call fn now1 s1 w = (Return v1, half 1%nat)) as Hcall1.
  { unfold call, enter. rewrite Hopen, Hnext. simpl default.
    replace (now1 <? t) with false by (symmetry; apply Z.ltb_ge; lia).
    rewrite Hfn1. unfold half. rewrite Nat.add_1_r. reflexivity. }
  assert (call fn now2 s2 (half 1%nat) = (Return v2, half 2%nat)) as Hcall2.
  { unfold call, enter, half. breaker_fields.
    rewrite Nat.add_1_r, Hfn2.
    replace (invocations w + 2)%nat with (S (S (invocations w))) by lia.
    reflexivity. }
  assert (call fn now3 s3 (half 2%nat)
          = (Return v3,
             {| breaker :=
                  {| failureThreshold := failureThreshold (breaker w);
                     resetTimeout := resetTimeout (breaker w);
                     state := CLOSED; failures := 0;
                     nextAttempt := Some t;
                     successCount := 3;
                     monitored := monitored (breaker w) ++ [(CLOSED, 0)] |};
                invocations := S (S (S (invocations w))) |})) as Hcall3.
  { unfold call, enter, half. breaker_fields.
    replace (invocations w + 2)%nat with (S (S (invocations w))) by lia.
    rewrite Hfn3. reflexivity. }
  cbv zeta. cbn [calls]. rewrite Hcall1, Hcall2, Hcall3.
  repeat split; reflexivity.
Qed.

(** X21. Half open, the breaker goes by the count of failures, which
    only a success resets. When the first call it lets through fails,
    the breaker opens again at once, for another [resetTimeout]; but
    after one success a failure leaves it half open, with the success
    still counted, when the threshold is two or more. *)
Theorem X21_half_open_breaker_counts_failures_anew :
  forall (w : World) (t now1 s1 now2 s2 : Z),
    state (breaker w) = OPEN ->
    failureThreshold (breaker w) <= failures (breaker w) ->
    nextAttempt (breaker w) = Some t -> t <= now1 ->
    (forall e,
        fn (invocations w) = ErrorUtils.Rejected e ->
        let r := call fn now1 s1 w in
        r.1 = Throw e
        /\ state (breaker r.2) = OPEN
        /\ nextAttempt (breaker r.2) = Some (s1 + resetTimeout (breaker w)))
    /\ (forall v e,
           2 <= failureThreshold (breaker w) ->
           fn (invocations w) = ErrorUtils.Resolved v ->
           fn (S (invocations w)) = ErrorUtils.Rejected e ->
           let r := calls fn [(now1, s1); (now2, s2)] w in
           r.1 = [Return v; Throw e]
           /\ state (breaker r.2) = HALF_OPEN
           /\ successCount (breaker r.2) = 1
           /\ failures (breaker r.2) = 1).
Proof.
  intros w t now1 s1 now2 s2 Hopen Hfailed Hnext Hdue. split.
  - intros e Hfn. cbv zeta. unfold call, enter.
    rewrite Hopen, Hnext. simpl default.
    replace (now1 <? t) with false by (symmetry; apply Z.ltb_ge; lia).
    rewrite Hfn. breaker_fields. unfold onFailure. breaker_fields.
    replace (failureThreshold (breaker w) <=? failures (breaker w) + 1)
      with true by (symmetry; apply Z.leb_le; lia).
    breaker_fields. repeat split; reflexivity.
  - intros v e Htwo Hfn1 Hfn2.
    assert (call fn now1 s1 w
            = (Return v,
               {| breaker :=
                    {| failureThreshold := failureThreshold (breaker w);
                       resetTimeout := resetTimeout (breaker w);
                       state := HALF_OPEN; failures := 0;
                       nextAttempt := Some t;
                       successCount := 1;
                       monitored := monitored (breaker w) |};
                  invocations := S (invocations w) |})) as Hcall1.
    { unfold call, enter. rewrite Hopen, Hnext. simpl default.
      replace (now1 <? t) with false by (symmetry; apply Z.ltb_ge; lia).
      rewrite Hfn1. reflexivity. }
    cbv zeta. cbn [calls]. rewrite Hcall1.
    unfold call, enter. breaker_fields. rewrite Hfn2.
    unfold onFailure. breaker_fields.
    replace (failureThreshold (breaker w) <=? 0 + 1)
      with false by (symmetry; apply Z.leb_gt; lia).
    breaker_fields. repeat split; reflexivity.
Qed.

End BreakerProperties.

(** * Messages, severity and the logger *)

Section ErrorHandlingProperties.
Import ErrorHandling.

(** Every text of [ERROR_MESSAGES] is shorter than 100 characters. *)
Lemma ERROR_MESSAGES_are_short (key text : string) :
  CacheService.prop ERROR_MESSAGES key = Some text ->
  (String.length text < 100)%nat.
Proof.
  unfold ERROR_MESSAGES. cbn [CacheService.prop].
  repeat (destruct (String.eqb _ key);
          [intros [= <-]; vm_compute; lia|]).
  discriminate.
Qed.

Lemma ERROR_MESSAGE_is_short (key : string) :
  (String.length (ERROR_MESSAGE key) < 100)%nat.
Proof.
  unfold ERROR_MESSAGE.
  destruct (CacheService.prop ERROR_MESSAGES key) as [text|] eqn:Hfound.
  - exact (ERROR_MESSAGES_are_short key text Hfound).
  - cbn. lia.
Qed.

Lemma ownMessage_is_short (error : Thrown) (s : string) :
  ownMessage error = Text s -> (String.length s < 100)%nat.
Proof.
  unfold ownMessage.
  destruct (String.length _ <? 100)%nat eqn:Hshort; intros [= <-].
  - apply Nat.ltb_lt. exact Hshort.
  - apply ERROR_MESSAGE_is_short.
Qed.

Lemma messageOfStatus_is_short (status : Z) (s : string) :
  messageOfStatus status = Text s -> (String.length s < 100)%nat.
Proof.
  unfold messageOfStatus.
  repeat match goal with
         | |- context [if ?b then _ else _] => destruct b
         end;
    intros [= <-]; try apply ERROR_MESSAGE_is_short; vm_compute; lia.
Qed.

(** X22. A text that [getUserFriendlyMessage] returns is shorter than
    100 characters, whatever was thrown: a longer message of the error
    itself is never shown. *)
Theorem X22_user_messages_are_short :
  forall (onLine : bool) (error : option Thrown) (s : string),
    getUserFriendlyMessage onLine error = Text s ->
    (String.length s < 100)%nat.
Proof.
  intros onLine error s. unfold getUserFriendlyMessage.
  destruct error as [error|];
    [|intros [= <-]; apply ERROR_MESSAGE_is_short].
  assert (forall c found,
            messageOfCode c = Some found -> found = Text s ->
            (String.length s < 100)%nat) as Hcode.
  { intros c found Hfound ->. destruct c as [k|n]; [|discriminate].
    unfold messageOfCode in Hfound. destruct (ownName k); [|discriminate].
    destruct (CacheService.prop ERROR_MESSAGES k) as [text|] eqn:Htext;
      [|discriminate].
    injection Hfound as <-. exact (ERROR_MESSAGES_are_short k text Htext). }
  assert (forall rest : Answer,
            (rest = Text s -> (String.length s < 100)%nat) ->
            match (if nameIs "TypeError" error
                   then option_map (includes "fetch") (message error)
                   else Some false) with
            | None => ThrowsTypeError
            | Some true => Text (ERROR_MESSAGE "NETWORK_ERROR")
            | Some false => rest
            end = Text s -> (String.length s < 100)%nat) as Hfetch.
  { intros rest Hrest.
    destruct (if nameIs "TypeError" error
              then option_map (includes "fetch") (message error)
              else Some false) as [[|]|];
      [intros [= <-]; apply ERROR_MESSAGE_is_short | exact Hrest | discriminate]. }
  assert ((if negb onLine then Text (ERROR_MESSAGE "NETWORK_OFFLINE")
           else ownMessage error) = Text s -> (String.length s < 100)%nat)
    as Hlast.
  { destruct (negb onLine);
      [intros [= <-]; apply ERROR_MESSAGE_is_short | apply ownMessage_is_short]. }
  assert (match status error with
          | Some st =>
              if st =? 0 then
                if negb onLine then Text (ERROR_MESSAGE "NETWORK_OFFLINE")
                else ownMessage error
              else messageOfStatus st
          | None =>
              if negb onLine then Text (ERROR_MESSAGE "NETWORK_OFFLINE")
              else ownMessage error
          end = Text s -> (String.length s < 100)%nat) as Hstatus.
  { destruct (status error) as [st|]; [|exact Hlast].
    destruct (st =? 0); [exact Hlast | apply messageOfStatus_is_short]. }
  destruct (code error) as [c|].
  - destruct (codeTruthy c).
    + destruct (messageOfCode c) as [found|] eqn:Hfound;
        [exact (Hcode c found Hfound)|].
      apply Hfetch. destruct (nameIs "AbortError" error);
        [intros [= <-]; apply ERROR_MESSAGE_is_short|].
      destruct c as [k|[|[[p|p|]|[p|p|]|]|p]]; try exact Hstatus;
        intros [= <-]; apply ERROR_MESSAGE_is_short.
    + apply Hfetch. destruct (nameIs "AbortError" error);
        [intros [= <-]; apply ERROR_MESSAGE_is_short|].
      destruct c as [k|[|[[p|p|]|[p|p|]|]|p]]; try exact Hstatus;
        intros [= <-]; apply ERROR_MESSAGE_is_short.
  - apply Hfetch. destruct (nameIs "AbortError" error);
      [intros [= <-]; apply ERROR_MESSAGE_is_short | exact Hstatus].
Qed.

(** X23. For an [APIError] the status is never looked at: the code
    [API_ERROR] is in the table of messages, and its text is returned
    for a 404, a 429 or a 500 as for any other status. Its severity is
    [medium] and it can be retried. *)
Theorem X23_APIError_always_gets_the_general_message :
  forall (onLine : bool) (now : Z) (message : string) (status : option Z),
    let error := Some (ofJsError (ErrorUtils.APIError message status)) in
    getUserFriendlyMessage onLine error
    = Text "Unable to fetch weather data. Please try again."
    /\ getErrorSeverity error = Some "medium"%string
    /\ sanitizeError onLine now error
       = Returns
           {| sanitizedMessage := "Unable to fetch weather data. Please try again.";
              sanitizedCode := CodeString "API_ERROR";
              sanitizedSeverity := "medium";
              sanitizedTimestamp := now;
              canRetry := true |}.
Proof.
  intros onLine now message status. cbv zeta.
  assert (getUserFriendlyMessage onLine
            (Some (ofJsError (ErrorUtils.APIError message status)))
          = Text "Unable to fetch weather data. Please try again.") as Hmessage
    by reflexivity.
  assert (getErrorSeverity (Some (ofJsError (ErrorUtils.APIError message status)))
          = Some "medium"%string) as Hseverity by reflexivity.
  split; [exact Hmessage|]. split; [exact Hseverity|].
  unfold sanitizeError. rewrite Hmessage, Hseverity. reflexivity.
Qed.

(** X24. An error whose code is a number, as the errors of the
    Geolocation API have it, makes [getErrorSeverity] throw a
    [TypeError] unless its name is [SecurityError] or [NetworkError]:
    [error.code?.includes] is no function on a number. So
    [sanitizeError] throws on it, the logger throws before it has
    logged anything, and [retry], which logs the error before it waits,
    ends with that [TypeError] after one invocation instead of trying
    again; although [getUserFriendlyMessage] has the messages for the
    codes 1, 2 and 3. *)
Theorem X24_a_numeric_code_makes_the_severity_throw :
  forall (onLine : bool) (now : Z) (error : Thrown) (n : Z)
         (context : json) (level : string) (lg : Logger),
    code error = Some (CodeNumber n) ->
    nameIs "SecurityError" error = false ->
    nameIs "NetworkError" error = false ->
    getErrorSeverity (Some error) = None
    /\ sanitizeError onLine now (Some error) = Throws
    /\ log onLine now (Some error) context level lg = None
    /\ (forall (V : Type) (fn : nat -> ErrorUtils.Settled V (option Thrown))
               (whenLogged : Z -> bool * Z)
               (options : ErrorUtils.Options (option Thrown)) (w : RetryWorld),
           fn (invocations w) = ErrorUtils.Rejected (Some error) ->
           0 < default 3 (ErrorUtils.retries options) ->
           default (fun _ => true) (ErrorUtils.condition options) (Some error)
           = true ->
           retry fn whenLogged options w
           = (ThrowTypeError,
              {| invocations := S (invocations w); waits := waits w;
                 logger := logger w |}))
    /\ (nameIs "TypeError" error = false ->
        nameIs "AbortError" error = false ->
        (n = 1 -> getUserFriendlyMessage onLine (Some error)
                  = Text (ERROR_MESSAGE "LOCATION_PERMISSION_DENIED"))
        /\ (n = 2 -> getUserFriendlyMessage onLine (Some error)
                     = Text (ERROR_MESSAGE "LOCATION_UNAVAILABLE"))
        /\ (n = 3 -> getUserFriendlyMessage onLine (Some error)
                     = Text (ERROR_MESSAGE "LOCATION_TIMEOUT"))).
Proof.
  intros onLine now error n context level lg Hcode Hsecurity Hnetwork.
  assert (getErrorSeverity (Some error) = None) as Hseverity.
  { unfold getErrorSeverity, codeIs, codeIncludes.
    rewrite Hsecurity, Hnetwork, Hcode. reflexivity. }
  split; [exact Hseverity|]. split; [|split; [|split]].
  - unfold sanitizeError. rewrite Hseverity.
    destruct (getUserFriendlyMessage onLine (Some error)); reflexivity.
  - unfold log, logEntry. rewrite Hseverity. reflexivity.
  - intros V fn whenLogged options w Hfn Hretries Hcondition.
    unfold retry. cbn [retryLoop].
    replace (0 <=? default 3 (ErrorUtils.retries options)) with true
      by (symmetry; apply Z.leb_le; lia).
    rewrite Hfn, Hcondition.
    replace (0 =? default 3 (ErrorUtils.retries options)) with false
      by (symmetry; apply Z.eqb_neq; lia).
    cbn [orb negb]. unfold log, logEntry. rewrite Hseverity. reflexivity.
  - intros Htype Habort. unfold getUserFriendlyMessage.
    rewrite Hcode, Htype, Habort. unfold messageOfCode.
    repeat split; intros ->; reflexivity.
Qed.

(** [slice] with a negative start keeps the end of the list. *)
Lemma slice_last {A : Type} (n : nat) (l : list A) :
  (0 < n)%nat ->
  slice (- Z.of_nat n) l = skipn (length l - n) l.
Proof.
  intros Hn. unfold slice.
  replace (- Z.of_nat n <? 0) with true by (symmetry; apply Z.ltb_lt; lia).
  f_equal. lia.
Qed.

Lemma slice_last_length {A : Type} (n : nat) (l : list A) :
  (0 < n)%nat ->
  length (slice (- Z.of_nat n) l) = Nat.min n (length l).
Proof. intros Hn. rewrite slice_last by exact Hn. rewrite length_skipn. lia. Qed.

Lemma slice_last_keeps_the_end {A : Type} (n : nat) (l : list A) (x : A) :
  (0 < n)%nat ->
  exists kept, slice (- Z.of_nat n) (l ++ [x]) = kept ++ [x].
Proof.
  intros Hn. rewrite slice_last by exact Hn. rewrite length_app. cbn [length].
  rewrite skipn_app.
  replace (length l + 1 - n - length l)%nat with 0%nat by lia.
  cbn [skipn]. eexists. reflexivity.
Qed.

(** X25. After [log] the logger holds at most 100 entries, the new
    entry last, and what fell out are the oldest. The copy kept in
    [localStorage] holds the last 20 of them: a logger that is
    constructed on it and loads it has at most 20 entries, the newest
    last. *)
Theorem X25_the_log_is_bounded :
  forall (onLine : bool) (now : Z) (error : option Thrown) (context : json)
         (level : string) (lg lg' : Logger),
    log onLine now error context level lg = Some lg' ->
    exists entry dropped kept,
      logEntry onLine now error context level = Some entry
      /\ logs lg ++ [entry] = dropped ++ logs lg'
      /\ logs lg' = kept ++ [entry]
      /\ (length (logs lg') <= 100)%nat
      /\ let reloaded := loadFromStorage (constructor (stored lg')) in
         logs reloaded = skipn (length (logs lg') - 20) (logs lg')
         /\ (length (logs reloaded) <= 20)%nat
         /\ last (logs reloaded) = Some entry.
Proof.
  intros onLine now error context level lg lg' Hlog. unfold log in Hlog.
  destruct (logEntry onLine now error context level) as [entry|];
    [|discriminate].
  injection Hlog as <-. unfold saveToStorage. cbn [logs stored].
  set (pushed := logs lg ++ [entry]).
  set (kept := if (maxLogs <? length pushed)%nat
               then slice (- Z.of_nat maxLogs) pushed else pushed).
  assert (exists dropped, pushed = dropped ++ kept) as [dropped Hdropped].
  { unfold kept. destruct (maxLogs <? length pushed)%nat.
    - rewrite slice_last by (unfold maxLogs; lia).
      exists (firstn (length pushed - maxLogs) pushed).
      symmetry. apply firstn_skipn.
    - exists []. reflexivity. }
  assert (exists before, kept = before ++ [entry]) as [before Hbefore].
  { unfold kept. destruct (maxLogs <? length pushed)%nat.
    - exact (slice_last_keeps_the_end maxLogs (logs lg) entry
               ltac:(unfold maxLogs; lia)).
    - exists (logs lg). reflexivity. }
  assert (length kept <= 100)%nat as Hbound.
  { unfold kept. destruct (maxLogs <? length pushed)%nat eqn:Hover.
    - rewrite slice_last_length by (unfold maxLogs; lia). unfold maxLogs. lia.
    - apply Nat.ltb_ge in Hover. exact Hover. }
  exists entry, dropped, before.
  split; [reflexivity|]. split; [exact Hdropped|]. split; [exact Hbefore|].
  split; [exact Hbound|].
  cbv zeta. unfold loadFromStorage, constructor. cbn [stored logs].
  change (-20) with (- Z.of_nat 20).
  rewrite (slice_last 20 kept) by lia. split; [reflexivity|].
  split; [rewrite length_skipn; lia|].
  rewrite Hbefore, length_app. cbn [length].
  rewrite skipn_app.
  replace (length before + 1 - 20 - length before)%nat with 0%nat by lia.
  cbn [skipn]. apply last_snoc.
Qed.

End ErrorHandlingProperties.

(** * Further properties of the weather services *)

Section WeatherServiceProperties.
Import ErrorUtils Http WeatherService.
Variable retryRequest : string -> list string -> Fetched * list string.
Variable processCurrentWeatherData : json -> Outcome Payload string.

(** The request and the processing of its response leave the cache
    alone. *)
Lemma fetchCurrentWeather_keeps_the_cache (url : string) (st : State) :
  cache (fetchCurrentWeather retryRequest processCurrentWeatherData url st).2
  = cache st
  /\ storage (fetchCurrentWeather retryRequest processCurrentWeatherData url st).2
     = storage st.
Proof.
  unfold fetchCurrentWeather, request.
  destruct (retryRequest url (requested st)) as [[response|error] log];
    [|split; reflexivity].
  destruct (negb (ok response)); [split; reflexivity|].
  destruct (body response) as [d|]; [|split; reflexivity].
  destruct (processCurrentWeatherData d); split; reflexivity.
Qed.

(** X26. Once the weather of a place is in the cache,
    [getCurrentWeather] for that place does not reject, however old the
    entry and whatever the network does: it returns the entry while it is
    fresh, what it has fetched when it has fetched, and the old entry
    when the request or the processing of the response fails, in which
    case the cache is left as it was. *)
Theorem X26_cached_weather_outlives_a_failing_network :
  forall (lat lon units lang : string) (now later : Z) (st : State)
         (cached : Cached),
    cache st !! ("current_" +:+ lat +:+ "_" +:+ lon +:+ "_" +:+ units
                 +:+ "_" +:+ lang)%string = Some cached ->
    let r := getCurrentWeather retryRequest processCurrentWeatherData
               lat lon units lang now later st in
    (exists payload, r.1 = Fulfilled payload)
    /\ (forall error st1,
           fetchCurrentWeather retryRequest processCurrentWeatherData
             (CURRENT_WEATHER lat lon units lang) st
           = (RejectedWith error, st1) ->
           r.1 = Fulfilled (data cached) /\ cache r.2 = cache st).
Proof.
  intros lat lon units lang now later st cached Hcached. cbv zeta.
  unfold getCurrentWeather.
  set (key := ("current_" +:+ lat +:+ "_" +:+ lon +:+ "_" +:+ units
               +:+ "_" +:+ lang)%string) in *.
  pose proof (fetchCurrentWeather_keeps_the_cache
                (CURRENT_WEATHER lat lon units lang) st) as [Hkept _].
  assert (getCachedData key false now st
          = if cacheTimeout <? now - timestamp cached then None
            else Some (data cached)) as Hget.
  { unfold getCachedData. rewrite Hcached. cbv zeta.
    rewrite andb_true_r. reflexivity. }
  rewrite Hget.
  destruct (cacheTimeout <? now - timestamp cached).
  - destruct (fetchCurrentWeather retryRequest processCurrentWeatherData
                (CURRENT_WEATHER lat lon units lang) st)
      as [[payload|error] st1] eqn:Hfetch; cbn [snd] in Hkept.
    + cbn [fst snd]. split; [eexists; reflexivity|]. intros error st1' [=].
    + assert (getCachedData key true later st1 = Some (data cached)) as Hstale.
      { unfold getCachedData. rewrite Hkept, Hcached. cbv zeta.
        rewrite andb_false_r. reflexivity. }
      rewrite Hstale. cbn [fst snd].
      split; [eexists; reflexivity|]. intros _ _ _.
      split; [reflexivity | exact Hkept].
  - cbn [fst snd]. split; [eexists; reflexivity|]. intros _ _ _.
    split; reflexivity.
Qed.

(** X27. What [setCachedData] writes, under a key other than
    [__proto__], is there again after a restart for as long as it is
    fresh: when the storage service hands back under the key what it was
    handed, a service constructed on it and loading it within the five
    minutes returns the data. Constructed later it does not load the
    entry, so that it is not there as a stale fallback either. Under the
    key [__proto__] nothing is saved. *)
Theorem X27_fresh_entries_survive_a_restart :
  forall (key : string) (d : Payload) (now restarted : Z) (st : State)
         (found : gmap string Cached),
    key <> "__proto__"%string ->
    let st1 := setCachedData key d now st in
    found !! key = storage st1 !! key ->
    let st2 := loadCacheFromStorage restarted (constructed found) in
    (restarted - now <= cacheTimeout ->
     getCachedData key false restarted st2 = Some d)
    /\ (cacheTimeout < restarted - now ->
        getCachedData key true restarted st2 = None)
    /\ storage (setCachedData "__proto__" d now st) !! "__proto__"%string = None.
Proof.
  intros key d now restarted st found Hkey st1 Hfound. cbv zeta.
  assert (found !! key = Some {| data := d; timestamp := now |}) as Hsaved.
  { rewrite Hfound. subst st1. unfold setCachedData, saveCacheToStorage.
    cbn [cache storage]. apply map_lookup_filter_Some.
    split; [apply lookup_insert_eq|]. cbn [fst snd timestamp].
    split; [exact Hkey | unfold cacheTimeout; lia]. }
  unfold loadCacheFromStorage, constructed, getCachedData.
  cbn [cache storage requested]. rewrite (right_id_L ∅ (∪)).
  split; [|split].
  - intros Hfresh.
    rewrite (proj2 (map_lookup_filter_Some _ _ key
                      {| data := d; timestamp := now |})).
    + cbn [timestamp data].
      replace (cacheTimeout <? restarted - now) with false
        by (symmetry; apply Z.ltb_ge; lia).
      reflexivity.
    + split; [exact Hsaved | cbn [snd timestamp]; exact Hfresh].
  - intros Hstale.
    rewrite (proj2 (map_lookup_filter_None _ _ key)); [reflexivity|].
    right. intros cached Hcached. rewrite Hsaved in Hcached.
    injection Hcached as <-. cbn [snd timestamp]. lia.
  - unfold setCachedData, saveCacheToStorage. cbn [cache storage].
    apply map_lookup_filter_None. right. intros cached _ [Hname _].
    apply Hname. reflexivity.
Qed.

End WeatherServiceProperties.

Section OpenMeteoProperties.
Import ErrorUtils Http OpenMeteoService.
Variable fetch : string -> Fetched.
Variable toLowerCase : string -> string.
Variable encodeURIComponent : string -> string.
Variable transformCurrentWeather : json -> option json.
Variable transformLocationResult : json -> json.
Variable asSuggestion : json -> json.

(** X28. The second weather service has no stale fallback: an entry
    that is [cacheTimeout] old or older is not used, and when the request
    then fails the call rejects with the message of the failure, the old
    entry still in the cache. *)
Theorem X28_no_stale_fallback_in_the_request_cache :
  forall (lat lon : string) (now later : Z) (st : State) (cached : Cached)
         (error : JsError),
    requestCache st !! ("current_" +:+ lat +:+ "_" +:+ lon)%string = Some cached ->
    cacheTimeout <= now - timestamp cached ->
    fetch (baseUrl +:+ "/current.json?key=" +:+ apiKey +:+ "&q="
           +:+ lat +:+ "," +:+ lon +:+ "&aqi=yes&alerts=yes")%string
    = RejectedWith error ->
    let r := getCurrentWeather fetch transformCurrentWeather lat lon now later st in
    r.1 = RejectedWith
            (Error ("Failed to fetch current weather: " +:+ message error))
    /\ requestCache r.2 = requestCache st.
Proof.
  intros lat lon now later st cached error Hcached Hold Hfetch. cbv zeta.
  unfold getCurrentWeather, checkCache. rewrite Hcached.
  replace (now - timestamp cached <? cacheTimeout) with false
    by (symmetry; apply Z.ltb_ge; lia).
  unfold fetchJson. rewrite Hfetch. split; reflexivity.
Qed.

(** X29. [getLocationSuggestions] never rejects and returns an array of
    at most eight suggestions; it returns the empty array, without a
    request, for a query that is absent or shorter than two
    characters. *)
Theorem X29_suggestions_never_reject :
  forall (partialQuery : option string) (now later : Z) (st : State),
    let r := GeocodingService.getLocationSuggestions fetch toLowerCase
               encodeURIComponent transformLocationResult asSuggestion
               partialQuery now later st in
    (exists items, r.1 = Fulfilled (JArr items) /\ (length items <= 8)%nat)
    /\ (match partialQuery with
        | None => True
        | Some q => (String.length q < 2)%nat
        end -> r = (Fulfilled (JArr []), st)).
Proof.
  intros partialQuery now later st. cbv zeta.
  unfold GeocodingService.getLocationSuggestions.
  destruct partialQuery as [q|].
  - destruct (String.length q <? 2)%nat eqn:Hshort.
    + split; [exists []; split; [reflexivity|cbn; lia]|]. reflexivity.
    + apply Nat.ltb_ge in Hshort. split; [|lia].
      destruct (GeocodingService.searchLocations fetch toLowerCase
                  encodeURIComponent transformLocationResult (Some q) now later st)
        as [[results|error] st1].
      * destruct results as [|b|n|s|items|fields];
          try (exists []; split; [reflexivity|cbn; lia]).
        exists (map asSuggestion (firstn 8 items)). split; [reflexivity|].
        rewrite length_map, length_firstn. lia.
      * exists []. split; [reflexivity|cbn; lia].
  - split; [exists []; split; [reflexivity|cbn; lia]|]. reflexivity.
Qed.

End OpenMeteoProperties.

Section WatchingProperties.
Import GeocodingService.
Context {Location : Type}.

(** What holds of the service and the browser between two actions. *)
Lemma act_keeps_one_watch (a : Action Location) (w : Watcher Location) :
  registered w = match watchId w with Some id => [id] | None => [] end ->
  isWatching w = bool_decide (is_Some (watchId w)) ->
  registered (act a w)
  = match watchId (act a w) with Some id => [id] | None => [] end
  /\ isWatching (act a w) = bool_decide (is_Some (watchId (act a w))).
Proof.
  intros Hregistered Hwatching.
  assert (registered (stopWatchingPosition w) = []
          /\ watchId (stopWatchingPosition w) = None
          /\ isWatching (stopWatchingPosition w) = false) as (Hs1 & Hs2 & Hs3).
  { unfold stopWatchingPosition. destruct (watchId w) as [id|] eqn:Hid.
    - cbn [registered watchId isWatching]. rewrite Hregistered.
      rewrite filter_cons_False by (intros Hne; apply Hne; reflexivity).
      repeat split; reflexivity.
    - rewrite Hwatching, Hregistered, Hid. repeat split; reflexivity. }
  destruct a as [| |id location|id]; cbn [act].
  - unfold startWatchingPosition. destruct (isWatching w) eqn:Hw.
    + cbn [registered watchId isWatching]. rewrite Hs1. split; reflexivity.
    + cbn [registered watchId isWatching]. rewrite Hregistered.
      destruct (watchId w) as [id|] eqn:Hid; [|split; reflexivity].
      symmetry in Hwatching. apply bool_decide_eq_false in Hwatching.
      exfalso. apply Hwatching. eexists; reflexivity.
  - rewrite Hs1, Hs2, Hs3. split; reflexivity.
  - unfold positionReported. destruct (bool_decide (id ∈ registered w));
      cbn [registered watchId isWatching]; split; assumption.
  - unfold errorReported. destruct (bool_decide (id ∈ registered w));
      cbn [registered watchId isWatching]; split; assumption.
Qed.

(** X30. However the position is watched, stopped and watched again,
    the browser has at most one watch of the service registered, the one
    whose id the service holds, and none when the service is not
    watching: a watch is never left behind. *)
Theorem X30_at_most_one_watch_is_registered :
  forall (actions : list (Action Location)),
    let w := fold_left (fun w a => act a w) actions constructor in
    registered w = match watchId w with Some id => [id] | None => [] end
    /\ isWatching w = bool_decide (is_Some (watchId w))
    /\ (length (registered w) <= 1)%nat.
Proof.
  intros actions. cbv zeta.
  assert (forall w : Watcher Location,
            registered w = match watchId w with Some id => [id] | None => [] end ->
            isWatching w = bool_decide (is_Some (watchId w)) ->
            let w' := fold_left (fun w a => act a w) actions w in
            registered w' = match watchId w' with Some id => [id] | None => [] end
            /\ isWatching w' = bool_decide (is_Some (watchId w'))) as Hall.
  { induction actions as [|a rest IH]; intros w H1 H2; [split; assumption|].
    cbn [fold_left]. destruct (act_keeps_one_watch a w H1 H2) as [H1' H2'].
    exact (IH (act a w) H1' H2'). }
  destruct (Hall constructor eq_refl eq_refl) as [H1 H2].
  split; [exact H1|]. split; [exact H2|].
  rewrite H1. destruct (watchId _); cbn; lia.
Qed.

End WatchingProperties.

(** * [retry] with its logger *)

Section RetryWithLoggerProperties.
Import ErrorHandling.
Context {V : Type}.
Variable fn : nat -> ErrorUtils.Settled V (option Thrown).
Variable whenLogged : Z -> bool * Z.

(** The logger takes an error exactly when [getErrorSeverity] has a
    value for it. *)
Lemma log_takes_the_error (onLine : bool) (now : Z) (error : option Thrown)
    (context : json) (level : string) (lg : Logger) :
  is_Some (log onLine now error context level lg)
  <-> is_Some (getErrorSeverity error).
Proof.
  unfold log, logEntry.
  destruct (getErrorSeverity error) as [severity|]; split; intros [x Hx];
    try discriminate; eexists; reflexivity.
Qed.

Lemma retryLoop_with_logger_succeeds_after (retries delay backoff : Z)
    (condition : option Thrown -> bool) (v : V) :
  forall (k budget : nat) (attempt : Z) (lastError : option (option Thrown))
         (w : RetryWorld),
    0 <= attempt -> attempt + Z.of_nat k <= retries ->
    (k < budget)%nat ->
    (forall i, (i < k)%nat ->
       exists e, fn (invocations w + i)%nat = ErrorUtils.Rejected e
                 /\ condition e = true /\ is_Some (getErrorSeverity e)) ->
    fn (invocations w + k)%nat = ErrorUtils.Resolved v ->
    exists logged,
      retryLoop fn whenLogged budget retries delay backoff condition attempt
        lastError w
      = (Return v,
         {| invocations := (invocations w + k + 1)%nat;
            waits := waits w
                     ++ map (fun i => delay * backoff ^ (attempt + Z.of_nat i))
                          (seq 0 k);
            logger := logged |}).
Proof.
  induction k as [|k IH]; intros budget attempt lastError w Hattempt Hleft
    Hbudget Hfail Hok.
  - destruct budget as [|budget]; [lia|]. cbn [retryLoop].
    replace (attempt <=? retries) with true by (symmetry; apply Z.leb_le; lia).
    rewrite Nat.add_0_r in Hok. rewrite Hok.
    exists (logger w). cbn [seq map]. rewrite app_nil_r. do 2 f_equal. lia.
  - destruct budget as [|budget]; [lia|]. cbn [retryLoop].
    replace (attempt <=? retries) with true by (symmetry; apply Z.leb_le; lia).
    destruct (Hfail 0%nat ltac:(lia)) as (e & Hfn & Hcond & Hseverity).
    rewrite Nat.add_0_r in Hfn. rewrite Hfn, Hcond.
    replace (attempt =? retries) with false by (symmetry; apply Z.eqb_neq; lia).
    cbn [orb negb invocations waits logger].
    destruct (proj2 (log_takes_the_error (whenLogged attempt).1
                       (whenLogged attempt).2 e
                       (attemptContext attempt retries (delay * backoff ^ attempt))
                       "warn" (logger w)) Hseverity) as [logged Hlogged].
    rewrite Hlogged.
    destruct (IH budget (attempt + 1) (Some e)
                {| invocations := S (invocations w);
                   waits := waits w ++ [delay * backoff ^ attempt];
                   logger := logged |})
      as [logged' Hrun]; [lia | lia | lia | | |].
    + intros i Hi. cbn [invocations].
      destruct (Hfail (S i) ltac:(lia)) as (e' & Hfn' & Hcond' & Hseverity').
      exists e'. split; [|split; assumption].
      rewrite <- Hfn'. f_equal. lia.
    + cbn [invocations]. rewrite <- Hok. f_equal. lia.
    + exists logged'. rewrite Hrun. cbn [invocations waits]. f_equal.
      f_equal; [lia|].
      rewrite <- app_assoc. f_equal. cbn [seq map app].
      rewrite Z.add_0_r. f_equal.
      rewrite <- seq_shift, map_map. apply map_ext. intros i.
      do 2 f_equal. lia.
Qed.

(** What the loop has done when it ends. *)
Lemma retryLoop_with_logger_accounts (retries delay backoff : Z)
    (condition : option Thrown -> bool) :
  forall (budget : nat) (attempt : Z) (lastError : option (option Thrown))
         (w : RetryWorld),
    (Z.to_nat (retries - attempt + 1) < budget)%nat ->
    let r := retryLoop fn whenLogged budget retries delay backoff condition
               attempt lastError w in
    (invocations r.2 <= invocations w + Z.to_nat (retries - attempt + 1))%nat
    /\ match r.1 with
       | Return v =>
           (invocations w < invocations r.2)%nat
           /\ (length (waits r.2) + invocations w + 1
               = length (waits w) + invocations r.2)%nat
           /\ fn (invocations r.2 - 1)%nat = ErrorUtils.Resolved v
       | Throw e =>
           ((invocations w < invocations r.2)%nat
            /\ (length (waits r.2) + invocations w + 1
                = length (waits w) + invocations r.2)%nat
            /\ fn (invocations r.2 - 1)%nat = ErrorUtils.Rejected e)
           \/ (lastError = Some e /\ r.2 = w /\ retries < attempt)
       | ThrowTypeError =>
           (invocations w < invocations r.2)%nat
           /\ (length (waits r.2) + invocations w + 1
               = length (waits w) + invocations r.2)%nat
           /\ exists e, fn (invocations r.2 - 1)%nat = ErrorUtils.Rejected e
                        /\ getErrorSeverity e = None
       | ThrowUndefined => lastError = None /\ r.2 = w /\ retries < attempt
       | Unfinished => False
       end.
Proof.
  induction budget as [|budget IH]; intros attempt lastError w Hbudget; [lia|].
  cbn [retryLoop]. destruct (attempt <=? retries) eqn:Hle.
  - apply Z.leb_le in Hle.
    destruct (fn (invocations w)) as [v|e] eqn:Hfn.
    + cbn [fst snd invocations waits]. split; [lia|].
      split; [lia|]. split; [lia|].
      rewrite <- Hfn. f_equal. lia.
    + destruct ((attempt =? retries) || negb (condition e)) eqn:Hstop.
      * cbn [fst snd invocations waits]. split; [lia|]. left.
        split; [lia|]. split; [lia|].
        rewrite <- Hfn. f_equal. lia.
      * apply orb_false_iff in Hstop as [Hlast _]. apply Z.eqb_neq in Hlast.
        cbn [invocations waits logger].
        destruct (log (whenLogged attempt).1 (whenLogged attempt).2 e
                    (attemptContext attempt retries (delay * backoff ^ attempt))
                    "warn" (logger w)) as [logged|] eqn:Hlogged.
        -- specialize (IH (attempt + 1) (Some e)
                         {| invocations := S (invocations w);
                            waits := waits w ++ [delay * backoff ^ attempt];
                            logger := logged |}
                         ltac:(lia)).
           cbv zeta in IH. cbn [invocations waits] in IH.
           rewrite length_app in IH. cbn [length] in IH.
           destruct IH as [Hcount Hend]. split; [lia|].
           destruct (retryLoop fn whenLogged budget retries delay backoff
                       condition (attempt + 1) (Some e) _)
             as [[v'|e'| | |] w']; cbn [fst snd] in *.
           ++ destruct Hend as (H1 & H2 & H3).
              repeat split; [lia | lia | exact H3].
           ++ destruct Hend as [(H1 & H2 & H3)|(_ & _ & Hover)]; [|lia].
              left. repeat split; [lia | lia | exact H3].
           ++ destruct Hend as (Hnone & _). discriminate.
           ++ destruct Hend as (H1 & H2 & H3).
              split; [lia|]. split; [lia | exact H3].
           ++ exact Hend.
        -- cbn [fst snd invocations waits]. split; [lia|].
           split; [lia|]. split; [lia|].
           exists e. split; [rewrite <- Hfn; f_equal; lia|].
           destruct (getErrorSeverity e) as [severity|] eqn:Hseverity;
             [|reflexivity].
           assert (is_Some (log (whenLogged attempt).1 (whenLogged attempt).2 e
                              (attemptContext attempt retries
                                 (delay * backoff ^ attempt))
                              "warn" (logger w))) as [x Hx]
             by (apply log_takes_the_error; rewrite Hseverity; eexists; reflexivity).
           rewrite Hlogged in Hx. discriminate.
  - apply Z.leb_gt in Hle. split; [cbn [snd]; lia|].
    destruct lastError as [e|]; cbn [fst snd].
    + right. repeat split. exact Hle.
    + repeat split. exact Hle.
Qed.

(** The loop only adds invocations and waits. *)
Lemma retryLoop_with_logger_grows (retries delay backoff : Z)
    (condition : option Thrown -> bool) :
  forall (budget : nat) (attempt : Z) (lastError : option (option Thrown))
         (w : RetryWorld),
    exists more,
      (invocations w
       <= invocations
            (retryLoop fn whenLogged budget retries delay backoff condition
               attempt lastError w).2)%nat
      /\ waits (retryLoop fn whenLogged budget retries delay backoff condition
                  attempt lastError w).2
         = waits w ++ more.
Proof.
  induction budget as [|budget IH]; intros attempt lastError w.
  - exists []. cbn. rewrite app_nil_r. split; [lia | reflexivity].
  - cbn [retryLoop]. destruct (attempt <=? retries).
    + destruct (fn (invocations w)) as [v|e].
      * exists []. cbn. rewrite app_nil_r. split; [lia | reflexivity].
      * destruct ((attempt =? retries) || negb (condition e)).
        -- exists []. cbn. rewrite app_nil_r. split; [lia | reflexivity].
        -- cbn [invocations waits logger].
           destruct (log _ _ e _ "warn" (logger w)) as [logged|].
           ++ destruct (IH (attempt + 1) (Some e)
                          {| invocations := S (invocations w);
                             waits := waits w ++ [delay * backoff ^ attempt];
                             logger := logged |})
                as (more & Hcount & Hwaits).
              exists ([delay * backoff ^ attempt] ++ more).
              cbn [invocations waits] in Hcount, Hwaits.
              rewrite Hwaits, <- app_assoc. split; [lia | reflexivity].
           ++ exists []. cbn. rewrite app_nil_r. split; [lia | reflexivity].
    + exists []. cbn [snd]. rewrite app_nil_r. split; [lia | reflexivity].
Qed.

(** An operation that keeps failing with errors that the predicate
    accepts and the logger takes is invoked once per remaining attempt,
    and the error of the last invocation is the one thrown. *)
Lemma retryLoop_with_logger_always_failing (retries delay backoff : Z)
    (condition : option Thrown -> bool) :
  (forall k, exists e, fn k = ErrorUtils.Rejected e /\ condition e = true
                       /\ is_Some (getErrorSeverity e)) ->
  forall (budget : nat) (attempt : Z) (lastError : option (option Thrown))
         (w : RetryWorld),
    0 <= attempt <= retries ->
    (Z.to_nat (retries - attempt + 1) < budget)%nat ->
    exists e w',
      retryLoop fn whenLogged budget retries delay backoff condition attempt
        lastError w
      = (Throw e, w')
      /\ fn (invocations w + Z.to_nat (retries - attempt))%nat
         = ErrorUtils.Rejected e
      /\ invocations w'
         = (invocations w + Z.to_nat (retries - attempt) + 1)%nat.
Proof.
  intros Hfail.
  induction budget as [|budget IH]; intros attempt lastError w Hrange Hbudget;
    [lia|].
  cbn [retryLoop]. replace (attempt <=? retries) with true
    by (symmetry; apply Z.leb_le; lia).
  destruct (Hfail (invocations w)) as (e & Hfn & Hcond & Hseverity).
  rewrite Hfn, Hcond. cbn [negb]. rewrite orb_false_r.
  destruct (attempt =? retries) eqn:Hlast.
  - apply Z.eqb_eq in Hlast. subst attempt.
    eexists e, _. split; [reflexivity|].
    replace (retries - retries) with 0 by lia. cbn [Z.to_nat invocations].
    rewrite Nat.add_0_r. split; [assumption | lia].
  - apply Z.eqb_neq in Hlast. cbn [invocations waits logger].
    destruct (proj2 (log_takes_the_error (whenLogged attempt).1
                       (whenLogged attempt).2 e
                       (attemptContext attempt retries (delay * backoff ^ attempt))
                       "warn" (logger w)) Hseverity) as [logged Hlogged].
    rewrite Hlogged.
    destruct (IH (attempt + 1) (Some e)
                {| invocations := S (invocations w);
                   waits := waits w ++ [delay * backoff ^ attempt];
                   logger := logged |})
      as (e' & w' & Hrun & Hlasterr & Hcount); [lia | lia |].
    exists e', w'. cbn [invocations] in Hlasterr, Hcount.
    replace (Z.to_nat (retries - attempt))
      with (S (Z.to_nat (retries - (attempt + 1)))) by lia.
    split; [exact Hrun|]. split; [|lia].
    rewrite <- Hlasterr. f_equal. lia.
Qed.

(** The schedule of the specification, for errors that the logger
    takes: two failures and a success give the success after three
    invocations and waits of 1000 and 2000 ms. *)
Lemma retry_succeeds_at_the_third_attempt (e1 e2 : option Thrown) (v : V)
    (w : RetryWorld) :
  fn (invocations w) = ErrorUtils.Rejected e1 ->
  fn (S (invocations w)) = ErrorUtils.Rejected e2 ->
  fn (S (S (invocations w))) = ErrorUtils.Resolved v ->
  is_Some (getErrorSeverity e1) -> is_Some (getErrorSeverity e2) ->
  exists logged,
    retry fn whenLogged
      {| ErrorUtils.retries := Some 3; ErrorUtils.delay := Some 1000;
         ErrorUtils.backoff := Some 2; ErrorUtils.condition := None |} w
    = (Return v,
       {| invocations := (invocations w + 3)%nat;
          waits := waits w ++ [1000; 2000];
          logger := logged |}).
Proof.
  intros H1 H2 H3 Hs1 Hs2. unfold retry.
  cbn [default from_option id ErrorUtils.retries ErrorUtils.delay
       ErrorUtils.backoff ErrorUtils.condition].
  destruct (retryLoop_with_logger_succeeds_after 3 1000 2 (fun _ => true) v 2
              (S (Z.to_nat (3 + 1))) 0 None w) as [logged Hrun];
    [lia | lia | cbn; lia | | |].
  - intros i Hi. destruct i as [|[|i]]; [| |lia].
    + exists e1. rewrite Nat.add_0_r. repeat split; assumption.
    + exists e2. rewrite Nat.add_1_r. repeat split; assumption.
  - rewrite <- H3. f_equal. lia.
  - exists logged. rewrite Hrun. do 2 f_equal. lia.
Qed.

(** And an operation that always fails with such errors is invoked
    [retries + 1] times, the error of the last invocation thrown. *)
Lemma retry_throws_after_the_last_attempt
    (options : ErrorUtils.Options (option Thrown)) (w : RetryWorld) :
  0 <= default 3 (ErrorUtils.retries options) ->
  (forall k, exists e,
        fn k = ErrorUtils.Rejected e
        /\ default (fun _ => true) (ErrorUtils.condition options) e = true
        /\ is_Some (getErrorSeverity e)) ->
  exists e w',
    retry fn whenLogged options w = (Throw e, w')
    /\ fn (invocations w + Z.to_nat (default 3%Z (ErrorUtils.retries options)))%nat
       = ErrorUtils.Rejected e
    /\ invocations w'
       = (invocations w
          + Z.to_nat (default 3%Z (ErrorUtils.retries options) + 1)%Z)%nat.
Proof.
  intros Hretries Hfail. unfold retry.
  destruct (retryLoop_with_logger_always_failing
              (default 3 (ErrorUtils.retries options))
              (default 1000 (ErrorUtils.delay options))
              (default 2 (ErrorUtils.backoff options))
              (default (fun _ => true) (ErrorUtils.condition options)) Hfail
              (S (Z.to_nat (default 3 (ErrorUtils.retries options) + 1)))
              0 None w)
    as (e & w' & Hrun & Hlast & Hcount); [lia | lia |].
  exists e, w'. rewrite Z.sub_0_r in Hlast, Hcount.
  split; [exact Hrun|]. split; [exact Hlast | lia].
Qed.

(** C6, as the code has it. [retry] does not look at the error itself.
    It stops after the first attempt, without waiting, when the
    predicate it was given rejects the error of that attempt. When the
    predicate accepts the error, as the default predicate does for every
    error, a retry is left and the logger takes the error, it waits for
    [delay] and invokes the operation again. *)
Theorem C6_rejected_error_is_not_retried :
  (forall (options : ErrorUtils.Options (option Thrown)) (w : RetryWorld)
          (e : option Thrown),
      0 <= default 3 (ErrorUtils.retries options) ->
      fn (invocations w) = ErrorUtils.Rejected e ->
      default (fun _ => true) (ErrorUtils.condition options) e = false ->
      retry fn whenLogged options w
      = (Throw e, {| invocations := S (invocations w); waits := waits w;
                     logger := logger w |}))
  /\
  (forall (options : ErrorUtils.Options (option Thrown)) (w : RetryWorld)
          (e : option Thrown),
      0 < default 3 (ErrorUtils.retries options) ->
      isSafeInteger (default 1000 (ErrorUtils.delay options)) = true ->
      fn (invocations w) = ErrorUtils.Rejected e ->
      default (fun _ => true) (ErrorUtils.condition options) e = true ->
      is_Some (getErrorSeverity e) ->
      exists more,
        (invocations w + 2 <= invocations (retry fn whenLogged options w).2)%nat
        /\ waits (retry fn whenLogged options w).2
           = waits w ++ default 1000 (ErrorUtils.delay options) :: more).
Proof.
  split.
  - intros options w e Hretries Hfn Hcond. unfold retry. cbn [retryLoop].
    replace (0 <=? default 3 (ErrorUtils.retries options)) with true
      by (symmetry; apply Z.leb_le; lia).
    rewrite Hfn, Hcond. cbn [negb]. rewrite orb_true_r. reflexivity.
  - intros options w e Hretries _ Hfn Hcond Hseverity. unfold retry.
    set (n := default 3 (ErrorUtils.retries options)) in *.
    set (d := default 1000 (ErrorUtils.delay options)).
    set (b := default 2 (ErrorUtils.backoff options)).
    set (c := default (fun _ => true) (ErrorUtils.condition options)) in *.
    destruct (Z.to_nat (n + 1)) as [|budget] eqn:Hbudget; [lia|].
    cbn [retryLoop].
    replace (0 <=? n) with true by (symmetry; apply Z.leb_le; lia).
    rewrite Hfn, Hcond.
    replace (0 =? n) with false by (symmetry; apply Z.eqb_neq; lia).
    cbn [orb negb invocations waits logger].
    destruct (proj2 (log_takes_the_error (whenLogged 0).1 (whenLogged 0).2 e
                       (attemptContext 0 n (d * b ^ 0)) "warn" (logger w))
                Hseverity) as [logged Hlogged].
    rewrite Hlogged.
    replace (0 + 1 <=? n) with true by (symmetry; apply Z.leb_le; lia).
    cbn [invocations waits logger].
    rewrite Z.pow_0_r, Z.mul_1_r.
    destruct (fn (S (invocations w))) as [v|e'].
    + exists []. cbn. split; [lia | reflexivity].
    + destruct ((0 + 1 =? n) || negb (c e')).
      * exists []. cbn. split; [lia | reflexivity].
      * destruct (log _ _ e' _ "warn" logged) as [logged'|].
        -- destruct (retryLoop_with_logger_grows n d b c budget (0 + 1 + 1)
                       (Some e')
                       {| invocations := S (S (invocations w));
                          waits := (waits w ++ [d]) ++ [d * b ^ (0 + 1)];
                          logger := logged' |})
             as (more & Hcount & Hwaits).
           exists ([d * b ^ (0 + 1)] ++ more).
           cbn [invocations waits] in Hcount, Hwaits. rewrite Hwaits.
           split; [lia|]. rewrite <- !app_assoc. reflexivity.
        -- exists []. cbn. split; [lia | reflexivity].
Qed.

(** X16. [retry] on an operation that fails [k] times and then
    succeeds, with [k] no more than [retries], the errors accepted by the
    predicate and taken by the logger, and the waits within the safe
    integers, where the code computes them exactly: the success is
    returned after [k + 1] invocations, and the waits in between are
    [delay], [delay * backoff], ..., [delay * backoff ^ (k - 1)]. *)
Theorem X16_retry_returns_the_first_success :
  forall (options : ErrorUtils.Options (option Thrown)) (w : RetryWorld)
         (k : nat) (v : V),
    Z.of_nat k <= default 3 (ErrorUtils.retries options) ->
    (forall i, (i < k)%nat ->
       exactWait (default 1000 (ErrorUtils.delay options))
         (default 2 (ErrorUtils.backoff options)) (Z.of_nat i) = true) ->
    (forall i, (i < k)%nat ->
       exists e, fn (invocations w + i)%nat = ErrorUtils.Rejected e
                 /\ default (fun _ => true) (ErrorUtils.condition options) e = true
                 /\ is_Some (getErrorSeverity e)) ->
    fn (invocations w + k)%nat = ErrorUtils.Resolved v ->
    exists logged,
      retry fn whenLogged options w
      = (Return v,
         {| invocations := (invocations w + k + 1)%nat;
            waits := waits w
                     ++ map (fun i => default 1000 (ErrorUtils.delay options)
                                      * default 2 (ErrorUtils.backoff options)
                                        ^ Z.of_nat i)
                          (seq 0 k);
            logger := logged |}).
Proof.
  intros options w k v Hk _ Hfail Hok. unfold retry.
  destruct (retryLoop_with_logger_succeeds_after
              (default 3 (ErrorUtils.retries options))
              (default 1000 (ErrorUtils.delay options))
              (default 2 (ErrorUtils.backoff options))
              (default (fun _ => true) (ErrorUtils.condition options))
              v k (S (Z.to_nat (default 3 (ErrorUtils.retries options) + 1)))
              0 None w)
    as [logged Hrun]; [lia | lia | lia | assumption | assumption |].
  exists logged. exact Hrun.
Qed.

(** X17. Whatever the operation does, [retry] ends, after at most
    [retries + 1] invocations and with one wait between two invocations.
    What it returns is the value of its last invocation; what it throws
    is the error of its last invocation, or the [TypeError] of the logger
    when the logger does not take that error; only with [retries] below
    zero does it invoke nothing, and then it throws [undefined]. *)
Theorem X17_retry_is_bounded :
  forall (options : ErrorUtils.Options (option Thrown)) (w : RetryWorld),
    let r := retry fn whenLogged options w in
    (invocations r.2
     <= invocations w
        + Z.to_nat (default 3%Z (ErrorUtils.retries options) + 1)%Z)%nat
    /\ match r.1 with
       | Return v =>
           (invocations w < invocations r.2)%nat
           /\ (length (waits r.2) + invocations w + 1
               = length (waits w) + invocations r.2)%nat
           /\ fn (invocations r.2 - 1)%nat = ErrorUtils.Resolved v
       | Throw e =>
           (invocations w < invocations r.2)%nat
           /\ (length (waits r.2) + invocations w + 1
               = length (waits w) + invocations r.2)%nat
           /\ fn (invocations r.2 - 1)%nat = ErrorUtils.Rejected e
       | ThrowTypeError =>
           (invocations w < invocations r.2)%nat
           /\ (length (waits r.2) + invocations w + 1
               = length (waits w) + invocations r.2)%nat
           /\ exists e, fn (invocations r.2 - 1)%nat = ErrorUtils.Rejected e
                        /\ getErrorSeverity e = None
       | ThrowUndefined =>
           r.2 = w /\ default 3 (ErrorUtils.retries options) < 0
       | Unfinished => False
       end.
Proof.
  intros options w r. unfold r, retry.
  pose proof (retryLoop_with_logger_accounts
                (default 3 (ErrorUtils.retries options))
                (default 1000 (ErrorUtils.delay options))
                (default 2 (ErrorUtils.backoff options))
                (default (fun _ => true) (ErrorUtils.condition options))
                (S (Z.to_nat (default 3 (ErrorUtils.retries options) + 1)))
                0 None w) as H.
  cbv zeta in H. rewrite Z.sub_0_r in H. specialize (H ltac:(lia)).
  destruct H as [Hcount Hend]. split; [exact Hcount|].
  destruct (retryLoop fn whenLogged _ _ _ _ _ 0 None w) as [[v|e| | |] w'];
    cbn [fst snd] in *.
  - exact Hend.
  - destruct Hend as [Hend|(Hlast & _)]; [exact Hend|discriminate].
  - destruct Hend as (_ & Hsame & Hneg). split; assumption.
  - exact Hend.
  - exact Hend.
Qed.

End RetryWithLoggerProperties.

(** C5, on the code. The schedule of the claim is the one of [retry] for
    errors that its logger takes
    ([retry_succeeds_at_the_third_attempt],
    [retry_throws_after_the_last_attempt]): with three retries, 1000 ms
    and a multiplier of 2, an operation that fails with a network error,
    then with a 503, and then succeeds gives its value after three
    invocations and waits of 1000 and 2000 ms, and one that always fails
    with a 404 is invoked four times. For an operation that fails with the
    [DOMException] of an aborted request, whose [code] is the number 20,
    the code does otherwise: the logger called before the first wait
    throws a [TypeError], which ends [retry] after one invocation of the
    operation and without a wait, both when the operation would succeed
    at its third invocation and when it always fails. *)
Theorem C5_retry_backoff_schedule :
  let ran fn :=
    ErrorHandling.retry fn MoreSamples.onlineAt1000 MoreSamples.threeRetries
      MoreSamples.freshWithLogger in
  ((ran MoreSamples.flakyThrown).1 = ErrorHandling.Return (JStr "sunny")
   /\ ErrorHandling.invocations (ran MoreSamples.flakyThrown).2 = 3%nat
   /\ ErrorHandling.waits (ran MoreSamples.flakyThrown).2 = [1000; 2000])
  /\ ((ran MoreSamples.alwaysNotFoundThrown).1
      = ErrorHandling.Throw (Some MoreSamples.notFoundThrown)
      /\ ErrorHandling.invocations (ran MoreSamples.alwaysNotFoundThrown).2
         = 4%nat)
  /\ ErrorHandling.getErrorSeverity (Some MoreSamples.timedOut) = None
  /\ ran MoreSamples.timesOutTwice
     = (ErrorHandling.ThrowTypeError,
        {| ErrorHandling.invocations := 1; ErrorHandling.waits := [];
           ErrorHandling.logger := ErrorHandling.constructor None |})
  /\ ran MoreSamples.alwaysTimesOut
     = (ErrorHandling.ThrowTypeError,
        {| ErrorHandling.invocations := 1; ErrorHandling.waits := [];
           ErrorHandling.logger := ErrorHandling.constructor None |}).
Proof.
  cbv zeta. repeat split; vm_compute; reflexivity.
Qed.

Lemma C6_rejected_error_is_not_retried_witness :
  MoreSamples.alwaysNotFoundThrown 0%nat
  = ErrorUtils.Rejected (Some MoreSamples.notFoundThrown)
  /\ MoreSamples.transientOnlyThrown (Some MoreSamples.notFoundThrown) = false
  /\ ErrorHandling.retry MoreSamples.alwaysNotFoundThrown
       MoreSamples.onlineAt1000
       {| ErrorUtils.retries := None; ErrorUtils.delay := None;
          ErrorUtils.backoff := None;
          ErrorUtils.condition := Some MoreSamples.transientOnlyThrown |}
       MoreSamples.freshWithLogger
     = (ErrorHandling.Throw (Some MoreSamples.notFoundThrown),
        {| ErrorHandling.invocations := 1; ErrorHandling.waits := [];
           ErrorHandling.logger := ErrorHandling.constructor None |})
  /\ exists more,
      (2 <= ErrorHandling.invocations
              (ErrorHandling.retry MoreSamples.alwaysNotFoundThrown
                 MoreSamples.onlineAt1000 ErrorUtils.noOptions
                 MoreSamples.freshWithLogger).2)%nat
      /\ ErrorHandling.waits
           (ErrorHandling.retry MoreSamples.alwaysNotFoundThrown
              MoreSamples.onlineAt1000 ErrorUtils.noOptions
              MoreSamples.freshWithLogger).2
         = 1000 :: more.
Proof.
  split; [reflexivity|]. split; [reflexivity|]. split.
  - apply (proj1 (C6_rejected_error_is_not_retried
                    MoreSamples.alwaysNotFoundThrown MoreSamples.onlineAt1000)
             {| ErrorUtils.retries := None; ErrorUtils.delay := None;
                ErrorUtils.backoff := None;
                ErrorUtils.condition := Some MoreSamples.transientOnlyThrown |}
             MoreSamples.freshWithLogger (Some MoreSamples.notFoundThrown)).
    + vm_compute. discriminate.
    + reflexivity.
    + reflexivity.
  - apply (proj2 (C6_rejected_error_is_not_retried
                    MoreSamples.alwaysNotFoundThrown MoreSamples.onlineAt1000)
             ErrorUtils.noOptions MoreSamples.freshWithLogger
             (Some MoreSamples.notFoundThrown)).
    + vm_compute. reflexivity.
    + vm_compute. reflexivity.
    + reflexivity.
    + reflexivity.
    + vm_compute. eexists. reflexivity.
Defined.

(** C6 as stated fails: with the default options an operation that
    always fails with the 404 of the API is invoked four times, with
    waits of 1000, 2000 and 4000 ms in between, where the claim has one
    invocation and no wait. *)
Lemma C6_counterexample_default_predicate_retries_404 :
  let ran :=
    ErrorHandling.retry MoreSamples.alwaysNotFoundThrown
      MoreSamples.onlineAt1000 ErrorUtils.noOptions
      MoreSamples.freshWithLogger in
  ErrorHandling.status MoreSamples.notFoundThrown = Some 404
  /\ ran.1 = ErrorHandling.Throw (Some MoreSamples.notFoundThrown)
  /\ ErrorHandling.invocations ran.2 = 4%nat
  /\ ErrorHandling.waits ran.2 = [1000; 2000; 4000]
  /\ ErrorHandling.invocations ran.2 <> 1%nat
  /\ ErrorHandling.waits ran.2 <> [].
Proof.
  cbv zeta. repeat split; try (vm_compute; reflexivity);
    vm_compute; discriminate.
Qed.

(** * The further properties at sample inputs *)

(** The sample state on a new database runs on IndexedDB. *)
Ltac sample_database :=
  split; [reflexivity|]; split; [reflexivity|]; split; [reflexivity|];
  split; [reflexivity|];
  let name := fresh "name" in
  let Hin := fresh "Hin" in
  intros name Hin; cbn in Hin;
  repeat (destruct Hin as [<-|Hin]; [exists ∅; vm_compute; reflexivity|]);
  destruct Hin.

(** X1 at a sample: the default ten minutes of the type [weather], read
    at the expiry. *)
Lemma X1_entry_is_read_back_until_its_expiry_witness :
  exists st1,
    CacheService.set Samples.stringify "k" (JStr "v") "weather" None 1000
      Samples.onNewDatabase = Some (tt, st1)
    /\ CacheService.get "k" "weather" 601000 st1 = Some (JStr "v", st1).
Proof.
  apply (X1_entry_is_read_back_until_its_expiry Samples.stringify
           (CacheService.createObjectStores ∅) Samples.onNewDatabase
           "k" (JStr "v") "weather" None 1000 601000).
  - sample_database.
  - reflexivity.
  - vm_compute. discriminate.
Defined.

(** X2 at a sample: the same entry, read one millisecond later. *)
Lemma X2_expired_entry_is_evicted_by_the_read_witness :
  exists st1 st2,
    CacheService.set Samples.stringify "k" (JStr "v") "weather" None 1000
      Samples.onNewDatabase = Some (tt, st1)
    /\ CacheService.get "k" "weather" 601001 st1 = Some (JNull, st2)
    /\ CacheService.get "k" "weather" 601001 st2 = Some (JNull, st2).
Proof.
  destruct (X2_expired_entry_is_evicted_by_the_read Samples.stringify
              (CacheService.createObjectStores ∅) Samples.onNewDatabase
              "k" (JStr "v") "weather" None 1000 601001 600000)
    as (st1 & st2 & before & after & Hset & _ & Hget & _ & _ & Hagain).
  - sample_database.
  - reflexivity.
  - reflexivity.
  - lia.
  - exists st1, st2. split; [exact Hset|]. split; [exact Hget | exact Hagain].
Defined.

(** X3 at a sample: two values under one key. *)
Lemma X3_second_set_overwrites_witness :
  exists st1 st2,
    CacheService.set Samples.stringify "k" (JStr "v") "weather" None 1000
      Samples.onNewDatabase = Some (tt, st1)
    /\ CacheService.set Samples.stringify "k" (JStr "w") "weather" None 2000 st1
       = Some (tt, st2)
    /\ CacheService.get "k" "weather" 3000 st2 = Some (JStr "w", st2).
Proof.
  destruct (X3_second_set_overwrites Samples.stringify
              (CacheService.createObjectStores ∅) Samples.onNewDatabase
              "k" (JStr "v") (JStr "w") "weather" None None 1000 2000 3000)
    as (st1 & st2 & before & after & Hset1 & _ & Hset2 & _ & _ & Hget).
  - sample_database.
  - reflexivity.
  - vm_compute. discriminate.
  - exists st1, st2. split; [exact Hset1|]. split; [exact Hset2 | exact Hget].
Defined.

(** X11 at a sample: written as weather, read as a setting. *)
Lemma X11_the_type_is_ignored_on_localStorage_witness :
  exists st1,
    CacheService.set Samples.stringify "k" (JStr "v") "weather" None 1000
      Samples.afterOpenError = Some (tt, st1)
    /\ CacheService.get "k" "settings" 601000 st1 = Some (JStr "v", st1).
Proof.
  destruct (X11_the_type_is_ignored_on_localStorage Samples.stringify
              Samples.afterOpenError "k" (JStr "v") "weather" None
              1000 601000 600000)
    as (st1 & Hset & Hget & _).
  - split; reflexivity.
  - reflexivity.
  - reflexivity.
  - lia.
  - exists st1. split; [exact Hset | apply Hget].
Defined.

(** X12 at a sample: the weather and the settings under one key. *)
Lemma X12_types_of_different_stores_do_not_collide_witness :
  exists st1 st2,
    CacheService.set Samples.stringify "k" (JStr "v") "weather" None 1000
      Samples.onNewDatabase = Some (tt, st1)
    /\ CacheService.set Samples.stringify "k" (JStr "w") "settings" None 1000 st1
       = Some (tt, st2)
    /\ CacheService.get "k" "weather" 2000 st2 = Some (JStr "v", st2)
    /\ CacheService.get "k" "settings" 2000 st2 = Some (JStr "w", st2).
Proof.
  apply (X12_types_of_different_stores_do_not_collide Samples.stringify
           (CacheService.createObjectStores ∅) Samples.onNewDatabase
           "k" (JStr "v") (JStr "w") "weather" "settings" None None
           1000 1000 2000).
  - sample_database.
  - reflexivity.
  - reflexivity.
  - vm_compute. discriminate.
  - vm_compute. discriminate.
  - vm_compute. discriminate.
Defined.

(** X16 at a sample: two failures, then the success. *)
Lemma X16_retry_returns_the_first_success_witness :
  exists logged,
    ErrorHandling.retry MoreSamples.flakyThrown MoreSamples.onlineAt1000
      ErrorUtils.noOptions MoreSamples.freshWithLogger
    = (ErrorHandling.Return (JStr "sunny"),
       {| ErrorHandling.invocations := 3; ErrorHandling.waits := [1000; 2000];
          ErrorHandling.logger := logged |}).
Proof.
  apply (X16_retry_returns_the_first_success MoreSamples.flakyThrown
           MoreSamples.onlineAt1000 ErrorUtils.noOptions
           MoreSamples.freshWithLogger 2 (JStr "sunny")).
  - vm_compute. discriminate.
  - intros i Hi. destruct i as [|[|i]]; [| |lia]; vm_compute; reflexivity.
  - intros i Hi. destruct i as [|[|i]]; [| |lia];
      eexists; (split; [reflexivity|]); (split; [reflexivity|]);
      eexists; reflexivity.
  - reflexivity.
Defined.

(** X18 at a sample: five failures open a new breaker. *)
Lemma X18_breaker_opens_at_the_threshold_witness :
  CircuitBreaker.state
    (CircuitBreaker.breaker
       (CircuitBreaker.calls Samples.alwaysNotFound
          [(0, 1); (2, 3); (4, 5); (6, 7); (8, 9)] MoreSamples.newBreaker).2)
  = CircuitBreaker.OPEN
  /\ CircuitBreaker.call Samples.alwaysNotFound 60000 60001
       (CircuitBreaker.calls Samples.alwaysNotFound
          [(0, 1); (2, 3); (4, 5); (6, 7); (8, 9)] MoreSamples.newBreaker).2
     = (CircuitBreaker.ThrowOpen,
        (CircuitBreaker.calls Samples.alwaysNotFound
           [(0, 1); (2, 3); (4, 5); (6, 7); (8, 9)] MoreSamples.newBreaker).2).
Proof.
  destruct (X18_breaker_opens_at_the_threshold Samples.alwaysNotFound
              MoreSamples.newBreaker [(0, 1); (2, 3); (4, 5); (6, 7)] 8 9)
    as (_ & Hopen & _ & _ & Hrefused).
  - reflexivity.
  - reflexivity.
  - intros i _. exists Samples.notFound. reflexivity.
  - split; [exact Hopen|]. apply (Hrefused 60000 60001). cbn. lia.
Defined.

(** X19 at a sample. *)
Lemma X19_breaker_stays_consistent_witness :
  CircuitBreaker.consistent
    (CircuitBreaker.breaker
       (CircuitBreaker.calls MoreSamples.sunnyOnce [(0, 1); (2, 3)]
          MoreSamples.newBreaker).2).
Proof.
  apply (X19_breaker_stays_consistent MoreSamples.sunnyOnce None None
           [(0, 1); (2, 3)]).
  cbn. lia.
Defined.

(** X20 at a sample: the open breaker, called when its time has come. *)
Lemma X20_breaker_closes_after_three_successes_witness :
  CircuitBreaker.state
    (CircuitBreaker.breaker
       (CircuitBreaker.calls MoreSamples.alwaysSunny
          [(61000, 61001); (61002, 61003); (61004, 61005)]
          MoreSamples.openBreaker).2)
  = CircuitBreaker.CLOSED.
Proof.
  apply (X20_breaker_closes_after_three_successes MoreSamples.alwaysSunny
           MoreSamples.openBreaker 61000 61000 61001 61002 61003 61004 61005
           (JStr "sunny") (JStr "sunny") (JStr "sunny"));
    reflexivity.
Defined.

(** X21 at a sample: the first call let through fails. *)
Lemma X21_half_open_breaker_counts_failures_anew_witness :
  CircuitBreaker.nextAttempt
    (CircuitBreaker.breaker
       (CircuitBreaker.call Samples.alwaysNotFound 61000 62000
          MoreSamples.openBreaker).2)
  = Some 122000.
Proof.
  apply (proj1 (X21_half_open_breaker_counts_failures_anew
                  Samples.alwaysNotFound MoreSamples.openBreaker
                  61000 61000 62000 0 0
                  eq_refl ltac:(cbn; lia) eq_refl ltac:(lia))
           Samples.notFound eq_refl).
Defined.

(** X22 at a sample. *)
Lemma X22_user_messages_are_short_witness :
  (String.length "Location access denied. Please enable location permissions."
   < 100)%nat.
Proof.
  apply (X22_user_messages_are_short true (Some MoreSamples.permissionDenied)).
  reflexivity.
Defined.

(** X24 at a sample: the error of a permission that was denied. *)
Lemma X24_a_numeric_code_makes_the_severity_throw_witness :
  ErrorHandling.getErrorSeverity (Some MoreSamples.permissionDenied) = None
  /\ ErrorHandling.sanitizeError true 1000 (Some MoreSamples.permissionDenied)
     = ErrorHandling.Throws
  /\ ErrorHandling.retry MoreSamples.alwaysDenied MoreSamples.onlineAt1000
       ErrorUtils.noOptions MoreSamples.freshWithLogger
     = (ErrorHandling.ThrowTypeError,
        {| ErrorHandling.invocations := 1; ErrorHandling.waits := [];
           ErrorHandling.logger := ErrorHandling.constructor None |}).
Proof.
  destruct (X24_a_numeric_code_makes_the_severity_throw true 1000
              MoreSamples.permissionDenied 1 JNull "error"
              (ErrorHandling.constructor None))
    as (Hseverity & Hsanitize & _ & Hretry & _).
  - reflexivity.
  - reflexivity.
  - reflexivity.
  - split; [exact Hseverity|]. split; [exact Hsanitize|].
    apply (Hretry json MoreSamples.alwaysDenied MoreSamples.onlineAt1000
             ErrorUtils.noOptions MoreSamples.freshWithLogger).
    + reflexivity.
    + vm_compute. reflexivity.
    + reflexivity.
Defined.

(** X26 at a sample: the network is down and the entry is stale. *)
Lemma X26_cached_weather_outlives_a_failing_network_witness :
  (WeatherService.getCurrentWeather Samples.retryRequestOffline
     Samples.processNothing "40.7" "-74" "metric" "en" 900000 900001
     Samples.weatherCached).1
  = Fulfilled Samples.sunny.
Proof.
  apply (proj2 (X26_cached_weather_outlives_a_failing_network
                  Samples.retryRequestOffline Samples.processNothing
                  "40.7" "-74" "metric" "en" 900000 900001
                  Samples.weatherCached
                  {| WeatherService.data := Samples.sunny;
                     WeatherService.timestamp := 1000 |}
                  ltac:(vm_compute; reflexivity))
           Samples.offline
           {| WeatherService.cache := WeatherService.cache Samples.weatherCached;
              WeatherService.storage := WeatherService.storage Samples.weatherCached;
              WeatherService.requested :=
                [WeatherService.CURRENT_WEATHER "40.7" "-74" "metric" "en"] |}).
  reflexivity.
Defined.

(** X27 at a sample: written at time 1000, loaded at time 2000, and
    loaded at time 400000. *)
Lemma X27_fresh_entries_survive_a_restart_witness :
  let key := "current_40.7_-74_metric_en"%string in
  let st1 := WeatherService.setCachedData key Samples.sunny 1000 Samples.weatherCached in
  WeatherService.storage st1 !! key = Some {| WeatherService.data := Samples.sunny; WeatherService.timestamp := 1000 |}
  /\ WeatherService.getCachedData key false 2000
       (WeatherService.loadCacheFromStorage 2000 (WeatherService.constructed (WeatherService.storage st1)))
     = Some Samples.sunny
  /\ WeatherService.getCachedData key true 400000
       (WeatherService.loadCacheFromStorage 400000 (WeatherService.constructed (WeatherService.storage st1)))
     = None.
Proof.
  cbv zeta. split; [vm_compute; reflexivity|]. split.
  - apply (proj1 (X27_fresh_entries_survive_a_restart
                    "current_40.7_-74_metric_en" Samples.sunny 1000 2000
                    Samples.weatherCached _ ltac:(discriminate) eq_refl)).
    vm_compute. discriminate.
  - apply (proj1 (proj2 (X27_fresh_entries_survive_a_restart
                    "current_40.7_-74_metric_en" Samples.sunny 1000 400000
                    Samples.weatherCached _ ltac:(discriminate) eq_refl))).
    vm_compute. reflexivity.
Defined.

(** X28 at a sample: the same, on the second service. *)
Lemma X28_no_stale_fallback_in_the_request_cache_witness :
  (OpenMeteoService.getCurrentWeather Samples.fetchOffline
     Samples.transformNothing "40.7" "-74" 900000 900001
     Samples.openMeteoCached).1
  = RejectedWith
      (ErrorUtils.Error "Failed to fetch current weather: Failed to fetch").
Proof.
  apply (X28_no_stale_fallback_in_the_request_cache Samples.fetchOffline
           Samples.transformNothing "40.7" "-74" 900000 900001
           Samples.openMeteoCached
           {| OpenMeteoService.data := JObj Samples.sunny;
              OpenMeteoService.timestamp := 1000 |}
           Samples.offline).
  - vm_compute. reflexivity.
  - vm_compute. discriminate.
  - reflexivity.
Defined.

(** ** On states that hold entries *)

Section CacheServiceAtSamples.
Import CacheService.

(** The sample states with entries are written by [set]: on a new
    database, and after [indexedDB.open] has failed, where also an item
    that does not parse is put under a key of the cache. *)
Lemma stocked_states_are_written :
  (do _ <- set Samples.stringify "k" (JStr "v") "weather" None 1000;
   do _ <- set Samples.stringify "old" (JStr "w") "weather" (Some (Fin 5)) 1000;
   set Samples.stringify "theme" (JStr "dark") "settings" None 1000)
    (with_localStorage {[ "theme"%string := Corrupt "dark" ]} Samples.onNewDatabase)
  = Some (tt, MoreSamples.stocked)
  /\ (do _ <- set Samples.stringify "k" (JStr "v") "weather" None 1000;
      do _ <- set Samples.stringify "old" (JStr "w") "weather" (Some (Fin 5)) 1000;
      do _ <- set Samples.stringify "weather_paris" (JStr "rain") "weather" None 1000;
      modify (fun st => with_localStorage (<["cache_bad"%string := Corrupt "{"]> (localStorage st)) st))
       (with_localStorage {[ "theme"%string := Corrupt "dark" ]} Samples.afterOpenError)
     = Some (tt, MoreSamples.stockedFallback).
Proof. split; vm_compute; reflexivity. Qed.

(** The sample state with entries runs on IndexedDB. *)
Ltac stocked_database :=
  split; [reflexivity|]; split; [reflexivity|]; split; [reflexivity|];
  split; [reflexivity|];
  let name := fresh "name" in
  let Hin := fresh "Hin" in
  intros name Hin; cbn in Hin;
  repeat (destruct Hin as [<-|Hin]; [eexists; vm_compute; reflexivity|]);
  destruct Hin.

(** X4 at a sample: the weather under [k] is deleted from a database
    that holds it; the setting stays. *)
Lemma X4_delete_removes_one_entry_witness :
  get "k" "weather" 2000 MoreSamples.stocked = Some (JStr "v", MoreSamples.stocked)
  /\ exists st1,
      delete "k" "weather" MoreSamples.stocked = Some (tt, st1)
      /\ get "k" "weather" 2000 st1 = Some (JNull, st1)
      /\ option_map fst (get "theme" "settings" 2000 st1) = Some (JStr "dark")
      /\ delete "k" "weather" st1 = Some (tt, st1).
Proof.
  split; [vm_compute; reflexivity|].
  destruct (X4_delete_removes_one_entry MoreSamples.stockedStores MoreSamples.stocked
              "k" "weather")
    as (st1 & Hdelete & Hgone & Hothers & Hagain).
  - stocked_database.
  - reflexivity.
  - exists st1. split; [exact Hdelete|]. split; [apply Hgone|].
    split; [|exact Hagain].
    rewrite Hothers; [vm_compute; reflexivity | reflexivity |].
    left. discriminate.
Defined.

(** X5 at a sample: the store of the weather is cleared, and with it
    what a read of the type [forecast] finds; the setting stays. *)
Lemma X5_clearType_empties_one_store_witness :
  get "k" "weather" 2000 MoreSamples.stocked = Some (JStr "v", MoreSamples.stocked)
  /\ exists st1,
      clearType "weather" MoreSamples.stocked = Some (tt, st1)
      /\ get "k" "weather" 2000 st1 = Some (JNull, st1)
      /\ get "old" "forecast" 2000 st1 = Some (JNull, st1)
      /\ option_map fst (get "theme" "settings" 2000 st1) = Some (JStr "dark").
Proof.
  split; [vm_compute; reflexivity|].
  destruct (X5_clearType_empties_one_store MoreSamples.stockedStores MoreSamples.stocked "weather")
    as (st1 & Hclear & Hgone & Hothers).
  - stocked_database.
  - reflexivity.
  - exists st1. split; [exact Hclear|].
    split; [apply Hgone; reflexivity|].
    split; [apply Hgone; reflexivity|].
    rewrite Hothers; [vm_compute; reflexivity | reflexivity | discriminate].
Defined.

(** X6 at a sample: the weather and the setting are both gone. *)
Lemma X6_clearAll_empties_every_store_witness :
  get "k" "weather" 2000 MoreSamples.stocked = Some (JStr "v", MoreSamples.stocked)
  /\ get "theme" "settings" 2000 MoreSamples.stocked = Some (JStr "dark", MoreSamples.stocked)
  /\ exists st1,
      clearAll MoreSamples.stocked = Some (tt, st1)
      /\ get "k" "weather" 2000 st1 = Some (JNull, st1)
      /\ get "theme" "settings" 2000 st1 = Some (JNull, st1)
      /\ exists stats,
          getStats Samples.stringify 2000 st1 = Some (stats, st1)
          /\ Stats.totalEntries stats = 0.
Proof.
  split; [vm_compute; reflexivity|]. split; [vm_compute; reflexivity|].
  destruct (X6_clearAll_empties_every_store Samples.stringify
              MoreSamples.stockedStores MoreSamples.stocked)
    as (st1 & Hclear & Hget & Hstats).
  - stocked_database.
  - exists st1. split; [exact Hclear|].
    split; [apply Hget; reflexivity|]. split; [apply Hget; reflexivity|].
    destruct (Hstats 2000) as (stats & Hrun & Htotal & _).
    exists stats. split; [exact Hrun | exact Htotal].
Defined.

(** X7 at a sample: three entries, of which one is expired at time
    2000. *)
Lemma X7_getStats_only_reads_witness :
  exists stats,
    getStats Samples.stringify 2000 MoreSamples.stocked = Some (stats, MoreSamples.stocked)
    /\ Stats.totalEntries stats = 3
    /\ Stats.expiredEntries stats = 1
    /\ map fst (Stats.stores stats)
       = ["weather"; "locations"; "images"; "settings"]%string
    /\ 0 <= Stats.expiredEntries stats <= Stats.totalEntries stats.
Proof.
  destruct (X7_getStats_only_reads Samples.stringify MoreSamples.stockedStores
              MoreSamples.stocked 2000)
    as (stats & Hstats & Hnames & Hbounds).
  - stocked_database.
  - assert (option_map
              (fun r => (Stats.totalEntries r.1, Stats.expiredEntries r.1))
              (getStats Samples.stringify 2000 MoreSamples.stocked)
            = Some (3, 1)) as Hcounted by (vm_compute; reflexivity).
    rewrite Hstats in Hcounted. injection Hcounted as Htotal Hexpired.
    exists stats. split; [exact Hstats|]. split; [exact Htotal|].
    split; [exact Hexpired|]. split; [exact Hnames | exact Hbounds].
Defined.

(** X8 at a sample: the one expired entry of three is removed, and the
    entry that is live is still read. *)
Lemma X8_cleanup_removes_only_what_get_would_not_return_witness :
  get "old" "weather" 1000 MoreSamples.stocked = Some (JStr "w", MoreSamples.stocked)
  /\ exists st1 before after,
      getStats Samples.stringify 2000 MoreSamples.stocked = Some (before, MoreSamples.stocked)
      /\ Stats.totalEntries before = 3
      /\ Stats.expiredEntries before = 1
      /\ cleanupExpiredEntries 2000 MoreSamples.stocked = Some (None, st1)
      /\ getStats Samples.stringify 2000 st1 = Some (after, st1)
      /\ Stats.totalEntries after = 2
      /\ Stats.expiredEntries after = 0
      /\ option_map fst (get "k" "weather" 2000 st1) = Some (JStr "v")
      /\ option_map fst (get "old" "weather" 1000 st1) = Some JNull.
Proof.
  split; [vm_compute; reflexivity|].
  destruct (X8_cleanup_removes_only_what_get_would_not_return Samples.stringify
              MoreSamples.stockedStores MoreSamples.stocked 2000)
    as (st1 & before & after & Hbefore & Hclean & Hafter & Hnone & Htotal & Hget).
  - stocked_database.
  - assert (option_map
              (fun r => (Stats.totalEntries r.1, Stats.expiredEntries r.1))
              (getStats Samples.stringify 2000 MoreSamples.stocked)
            = Some (3, 1)) as Hcounted by (vm_compute; reflexivity).
    rewrite Hbefore in Hcounted. injection Hcounted as Hall Hexpired.
    assert (option_map (fun r => option_map fst (get "old" "weather" 1000 r.2))
              (cleanupExpiredEntries 2000 MoreSamples.stocked)
            = Some (Some JNull)) as Hold by (vm_compute; reflexivity).
    rewrite Hclean in Hold. injection Hold as Hold.
    exists st1, before, after. split; [exact Hbefore|].
    split; [exact Hall|]. split; [exact Hexpired|]. split; [exact Hclean|].
    split; [exact Hafter|]. split; [rewrite Htotal, Hall, Hexpired; reflexivity|].
    split; [exact Hnone|]. split; [|exact Hold].
    rewrite Hget; [vm_compute; reflexivity | reflexivity].
Defined.

(** X10 at a sample: [clearAll] on the fallback removes the items of the
    cache and keeps the item under [theme]. *)
Lemma X10_items_of_other_code_are_never_touched_witness :
  let st' :=
    with_localStorage {[ "theme"%string := Corrupt "dark" ]} MoreSamples.stockedFallback in
  clearAll MoreSamples.stockedFallback = Some (tt, st')
  /\ localStorage MoreSamples.stockedFallback !! "cache_k"%string
     = Some (Stringified MoreSamples.live)
  /\ localStorage st' !! "cache_k"%string = None
  /\ otherItemsKept MoreSamples.stockedFallback st'
  /\ localStorage st' !! "theme"%string = Some (Corrupt "dark").
Proof.
  cbv zeta.
  assert (clearAll MoreSamples.stockedFallback
          = Some (tt, with_localStorage {[ "theme"%string := Corrupt "dark" ]}
                        MoreSamples.stockedFallback)) as Hclear
    by (vm_compute; reflexivity).
  destruct (X10_items_of_other_code_are_never_touched Samples.stringify
              MoreSamples.stockedFallback _ "k" "weather" JNull None 2000
              (or_intror (or_intror (or_intror (or_intror (or_introl Hclear))))))
    as [Hkept _].
  split; [exact Hclear|]. split; [vm_compute; reflexivity|].
  split; [vm_compute; reflexivity|]. split; [exact Hkept|].
  rewrite (Hkept "theme"%string eq_refl). vm_compute. reflexivity.
Defined.

(** X13 at a sample: clearing the type [weather] removes the entry whose
    key has [weather] in it and keeps the weather stored under [k]. *)
Lemma X13_clearType_on_localStorage_goes_by_the_key_witness :
  get "weather_paris" "weather" 2000 MoreSamples.stockedFallback
  = Some (JStr "rain", MoreSamples.stockedFallback)
  /\ exists st1,
      clearType "weather" MoreSamples.stockedFallback = Some (tt, st1)
      /\ get "weather_paris" "weather" 2000 st1 = Some (JNull, st1)
      /\ option_map fst (get "k" "weather" 2000 st1) = Some (JStr "v").
Proof.
  split; [vm_compute; reflexivity|].
  destruct (X13_clearType_on_localStorage_goes_by_the_key
              MoreSamples.stockedFallback "weather")
    as (st1 & Hclear & Hkeys).
  - split; reflexivity.
  - exists st1. split; [exact Hclear|]. split.
    + exact (Hkeys "weather_paris"%string "weather"%string 2000).
    + rewrite (Hkeys "k"%string "weather"%string 2000). vm_compute. reflexivity.
Defined.

(** X14 at a sample: an entry that was read is gone after [clearAll]. *)
Lemma X14_clearAll_on_localStorage_witness :
  get "k" "weather" 2000 MoreSamples.stockedFallback = Some (JStr "v", MoreSamples.stockedFallback)
  /\ exists st1,
      clearAll MoreSamples.stockedFallback = Some (tt, st1)
      /\ localStorage st1 !! "cache_k"%string = None
      /\ get "k" "weather" 2000 st1 = Some (JNull, st1).
Proof.
  split; [vm_compute; reflexivity|].
  destruct (X14_clearAll_on_localStorage Samples.stringify MoreSamples.stockedFallback)
    as (st1 & Hclear & Hgone & Hget & _).
  - split; reflexivity.
  - exists st1. split; [exact Hclear|].
    split; [apply Hgone; reflexivity | apply Hget].
Defined.

(** X15 at a sample: the expired entry and the item that does not parse
    are the two removed; the live one is still read. *)
Lemma X15_cleanup_on_localStorage_matches_the_statistics_witness :
  exists cleaned st1 before,
    getStats Samples.stringify 2000 MoreSamples.stockedFallback
    = Some (before, MoreSamples.stockedFallback)
    /\ cleanupExpiredEntries 2000 MoreSamples.stockedFallback = Some (Some cleaned, st1)
    /\ cleaned = Stats.expiredEntries before
    /\ cleaned = 2
    /\ localStorage st1 !! "cache_bad"%string = None
    /\ option_map fst (get "k" "weather" 2000 st1) = Some (JStr "v")
    /\ cleanupExpiredEntries 2000 st1 = Some (Some 0, st1).
Proof.
  destruct (X15_cleanup_on_localStorage_matches_the_statistics Samples.stringify
              MoreSamples.stockedFallback 2000)
    as (cleaned & st1 & before & after & Hbefore & Hclean & Hcount & Hcorrupt
        & Hget & _ & _ & Hagain).
  - split; reflexivity.
  - assert (option_map fst (cleanupExpiredEntries 2000 MoreSamples.stockedFallback)
            = Some (Some 2)) as Hcleaned by (vm_compute; reflexivity).
    rewrite Hclean in Hcleaned. injection Hcleaned as Hcleaned.
    exists cleaned, st1, before. split; [exact Hbefore|].
    split; [exact Hclean|]. split; [exact Hcount|]. split; [exact Hcleaned|].
    split; [exact (proj1 (Hcorrupt "bad"%string "{"%string eq_refl))|].
    split; [|exact Hagain].
    rewrite Hget. vm_compute. reflexivity.
Defined.

End CacheServiceAtSamples.

Section LoggerAtSamples.
Import ErrorHandling.

(** X25 at a sample: the entry after the hundredth pushes the oldest
    out, and the twenty last are what a new logger loads. *)
Lemma X25_the_log_is_bounded_witness :
  length (logs MoreSamples.full) = 100%nat
  /\ exists lg' entry dropped,
      log true 2000 None JNull "warn" MoreSamples.full = Some lg'
      /\ logEntry true 2000 None JNull "warn" = Some entry
      /\ logs MoreSamples.full ++ [entry] = dropped ++ logs lg'
      /\ length dropped = 1%nat
      /\ length (logs lg') = 100%nat
      /\ length (logs (loadFromStorage (constructor (stored lg')))) = 20%nat
      /\ last (logs (loadFromStorage (constructor (stored lg')))) = Some entry.
Proof.
  split; [vm_compute; reflexivity|].
  destruct (log true 2000 None JNull "warn" MoreSamples.full) as [lg'|] eqn:Hlog;
    [|vm_compute in Hlog; discriminate].
  destruct (X25_the_log_is_bounded true 2000 None JNull "warn" MoreSamples.full lg' Hlog)
    as (entry & dropped & kept & Hentry & Hsplit & _ & _ & Hreloaded & _ & Hlast).
  assert (option_map (fun l => length (logs l))
            (log true 2000 None JNull "warn" MoreSamples.full) = Some 100%nat) as Hlength
    by (vm_compute; reflexivity).
  rewrite Hlog in Hlength. injection Hlength as Hlength.
  exists lg', entry, dropped. split; [reflexivity|]. split; [exact Hentry|].
  split; [exact Hsplit|]. split.
  - apply (f_equal length) in Hsplit. rewrite !length_app, Hlength in Hsplit.
    assert (length (logs MoreSamples.full) = 100%nat) as Hfull by (vm_compute; reflexivity).
    rewrite Hfull in Hsplit. cbn [length] in Hsplit. lia.
  - split; [exact Hlength|]. split; [|exact Hlast].
    rewrite Hreloaded, length_skipn, Hlength. reflexivity.
Defined.

End LoggerAtSamples.
